(** * Realtime Notification Service: queue, registry, delivery engine and
      WebSocket protocol handler

    A shallow embedding of
    - [src/services/notificationQueue.js]  (class NotificationQueue),
    - [src/services/notificationService.js] (class NotificationService),
    - [src/services/clientManager.js]      (class ClientManager),
    - [src/websocket/wsServer.js]          (class NotificationWebSocketServer),
    - [src/errors/customErrors.js], [src/errors/errorHandler.js],
    - [src/config/config.js].

    Conventions.  JavaScript numbers are integers of [Z] (timestamps in
    milliseconds, priorities, counters), with the arithmetic of [Z]: it is
    the arithmetic of JavaScript as long as the results are safe integers,
    and a statement about the value of a computed time says so
    ([safeInteger]).  A JavaScript [Map] is a [gmap], a
    [Set] a [gset].  The clock is an input.  In the queue and the delivery
    engine every reading of it is an argument of its own: [enqueue] reads it
    twice and takes two readings, and a call that reads it once per
    iteration takes a function from the rank of the reading to the reading.
    In the registry and the protocol handler, where no time is compared
    with another, the [new Date()] values of one call are the one argument
    [now].  A method that may throw returns a [result]; a method that
    mutates the object returns the new state next to its result, so that
    "throws and leaves the state unchanged" is a statement about the
    returned state. *)

From stdpp Require Import base numbers list strings gmap sets sorting pretty.

Open Scope Z_scope.

(** ** JavaScript values, as far as the code inspects them *)

Inductive JsValue : Type :=
| JUndefined
| JNull
| JBool (b : bool)
| JNum (n : Z)
| JStr (s : string)
| JObj (json : string).      (* an object or array, named by its JSON text *)

(** [!!v] *)
Definition truthy (v : JsValue) : bool :=
  match v with
  | JUndefined | JNull => false
  | JBool b => b
  | JNum n => negb (n =? 0)
  | JStr s => negb (String.eqb s EmptyString)
  | JObj _ => true
  end.

(** [a || b] *)
Definition js_or (a b : JsValue) : JsValue := if truthy a then a else b.

(** [typeof v === 'string'], [typeof v === 'number'], [typeof v === 'object'] *)
Definition is_string (v : JsValue) : bool :=
  match v with JStr _ => true | _ => false end.
Definition is_number (v : JsValue) : bool :=
  match v with JNum _ => true | _ => false end.
Definition is_object (v : JsValue) : bool :=
  match v with JNull | JObj _ => true | _ => false end.

(** The string held by a value used as a [Map] or [Set] key of strings. *)
Definition as_string (v : JsValue) : option string :=
  match v with JStr s => Some s | _ => None end.

(** ** Errors ([customErrors.js]) *)

Inductive ErrorClass : Type :=
| ValidationError
| AuthenticationError
| QueueFullError
| PlainError.            (* a built-in [Error] / [TypeError] *)

Record Error : Type := mkError { eclass : ErrorClass; emessage : string }.

(** [this.name = this.constructor.name] *)
Definition error_name (e : Error) : string :=
  match eclass e with
  | ValidationError => "ValidationError"
  | AuthenticationError => "AuthenticationError"
  | QueueFullError => "QueueFullError"
  | PlainError => "Error"
  end.

(** the [code] and [statusCode] each subclass passes to [super] *)
Definition error_code (e : Error) : string :=
  match eclass e with
  | ValidationError => "VALIDATION_ERROR"
  | AuthenticationError => "AUTHENTICATION_ERROR"
  | QueueFullError => "QUEUE_FULL_ERROR"
  | PlainError => "WEBSOCKET_ERROR"
  end.

Definition error_status (e : Error) : Z :=
  match eclass e with
  | ValidationError => 400
  | AuthenticationError => 401
  | QueueFullError => 503
  | PlainError => 500
  end.

(** [error instanceof NotificationError] *)
Definition is_NotificationError (e : Error) : bool :=
  match eclass e with PlainError => false | _ => true end.

Inductive result (A : Type) : Type :=
| Ok (a : A)
| Throw (e : Error).
Arguments Ok {A} a.
Arguments Throw {A} e.


Definition throws {A} (c : ErrorClass) (r : result A) : Prop :=
  match r with Ok _ => False | Throw e => eclass e = c end.

(** ** Configuration ([config.js]) *)

Record Config : Type := mkConfig {
  maxQueueSize : Z;
  retryAttempts : Z;
  retryDelay : Z;
  batchSize : Z;
  messageExpiry : Z;
  maxClientsPerApiKey : Z;
  heartbeatInterval : Z
}.

(** The values used when no environment variable overrides them. *)
Definition default_config : Config :=
  {| maxQueueSize := 10000;
     retryAttempts := 3;
     retryDelay := 1000;
     batchSize := 100;
     messageExpiry := 86400000;
     maxClientsPerApiKey := 1000;
     heartbeatInterval := 30000 |}.

(** ** Notifications and queue items *)

Module Metadata.
Record t : Type := mk {
  excludeConnection : JsValue;
  apiKey : JsValue;
  timestamp : Z
}.
End Metadata.

Module Notification.
Record t : Type := mk {
  id : JsValue;
  channel : JsValue;
  data : JsValue;
  priority : JsValue;
  metadata : Metadata.t
}.
End Notification.

Module QueueItem.
Record t : Type := mk {
  id : JsValue;
  notification : Notification.t;
  priority : Z;
  enqueuedAt : Z;
  expiresAt : Z;
  attempts : Z
}.
End QueueItem.

(** ** The priority queue ([notificationQueue.js]) *)

Module NotificationQueue.

(** [#queue]; [#maxSize] and [#messageExpiry] are read from the
    configuration once and never change. *)
Abbreviation t := (list QueueItem.t).

Record Stats : Type := mkStats {
  size : Z;
  maxSize : Z;
  priorityDistribution : gmap Z Z;
  oldestMessage : Z
}.

(** [#validateNotification]: the notification is always an object here. *)
Definition validateNotification (n : Notification.t) : result unit :=
  if negb (truthy (Notification.id n)) then
    Throw (mkError ValidationError "Notification must have an id")
  else if negb (truthy (Notification.channel n)) then
    Throw (mkError ValidationError "Notification must have a channel")
  else if negb (truthy (Notification.data n)) then
    Throw (mkError ValidationError "Notification must have data")
  else
    match Notification.priority n with
    | JUndefined => Ok ()
    | JNum p =>
        if (p <? 1) || (10 <? p) then
          Throw (mkError ValidationError "Priority must be a number between 1 and 10")
        else Ok ()
    | _ => Throw (mkError ValidationError "Priority must be a number between 1 and 10")
    end.

(** The comparator handed to [Array.prototype.sort]. *)
Definition compare (a b : QueueItem.t) : Z :=
  if negb (QueueItem.priority b =? QueueItem.priority a) then
    QueueItem.priority b - QueueItem.priority a
  else QueueItem.enqueuedAt a - QueueItem.enqueuedAt b.

(** [Array.prototype.sort] is a stable sort: elements the comparator
    calls equal keep their relative order.  For a comparator that is a
    total preorder the result of a stable sort is unique, and is the one
    this insertion sort computes. *)
Fixpoint insert_sorted (x : QueueItem.t) (l : t) : t :=
  match l with
  | [] => [x]
  | y :: l' =>
      if compare x y <=? 0 then x :: y :: l' else y :: insert_sorted x l'
  end.

(** [#sortQueue] *)
Definition sortQueue (q : t) : t := foldr insert_sorted [] q.

(** [notification.priority || 5] for a validated priority, which is
    [undefined] or a number. *)
Definition priority_or_default (v : JsValue) : Z :=
  match js_or v (JNum 5) with
  | JNum p => p
  | _ => 5
  end.

(** [enqueue]: [now] is the reading of [Date.now()] that becomes
    [enqueuedAt], [later] the second reading, the one [expiresAt] is
    computed from; nothing relates the two.  *)
Definition enqueue (cfg : Config) (now later : Z) (n : Notification.t) (q : t)
  : result QueueItem.t * t :=
  match validateNotification n with
  | Throw e => (Throw e, q)
  | Ok _ =>
      if maxQueueSize cfg <=? Z.of_nat (length q) then
        (Throw (mkError QueueFullError
                  ("Queue size limit reached (" +:+ pretty (maxQueueSize cfg) +:+ ")")), q)
      else
        let queueItem :=
          {| QueueItem.id := Notification.id n;
             QueueItem.notification := n;
             QueueItem.priority := priority_or_default (Notification.priority n);
             QueueItem.enqueuedAt := now;
             QueueItem.expiresAt := later + messageExpiry cfg;
             QueueItem.attempts := 0 |} in
        (Ok queueItem, sortQueue (q ++ [queueItem]))
  end.

(** [item => item.expiresAt > now] *)
Definition unexpired (now : Z) (item : QueueItem.t) : Prop :=
  now < QueueItem.expiresAt item.

#[global] Instance unexpired_dec now item : Decision (unexpired now item).
Proof. unfold unexpired. apply _. Defined.

(** [this.#queue.filter(item => item.expiresAt > now)] *)
Definition dropExpired (now : Z) (q : t) : t :=
  filter (unexpired now) q.

(** [dequeue]: [None] is JavaScript's [null]. *)
Definition dequeue (now : Z) (q : t) : option QueueItem.t * t :=
  match dropExpired now q with
  | [] => (None, [])
  | item :: rest => (Some item, rest)
  end.

(** The [for] loop of [dequeueBatch]: [clock i] is what [Date.now()]
    returns inside the [i]-th call of [dequeue]. *)
Fixpoint dequeueLoop (clock : nat → Z) (i n : nat) (batch q : t) : t * t :=
  match n with
  | O => (batch, q)
  | S n' =>
      match dequeue (clock i) q with
      | (Some item, q') => dequeueLoop clock (S i) n' (batch ++ [item]) q'
      | (None, q') => dequeueLoop clock (S i) n' batch q'
      end
  end.

(** [size || config.get('notification.batchSize')] for an argument that
    is a number or absent. *)
Definition size_or_default (cfg : Config) (size : option Z) : Z :=
  match size with
  | Some n => if n =? 0 then batchSize cfg else n
  | None => batchSize cfg
  end.

(** [dequeueBatch(size)]: the bound of the loop is capped by the length
    the queue has before any expired item is dropped. *)
Definition dequeueBatch (cfg : Config) (clock : nat → Z) (size : option Z) (q : t)
  : t * t :=
  let batchSize := Z.min (size_or_default cfg size) (Z.of_nat (length q)) in
  dequeueLoop clock 0 (Z.to_nat batchSize) [] q.

Definition peek (q : t) : option QueueItem.t := head q.

Definition size_of (q : t) : Z := Z.of_nat (length q).

Definition isEmpty (q : t) : bool :=
  match q with [] => true | _ => false end.

(** [clear]: returns the number of cleared items. *)
Definition clear (q : t) : Z * t := (Z.of_nat (length q), []).

(** The body of the [setInterval] callback of [#startCleanupJob]. *)
Definition cleanup (now : Z) (q : t) : t := dropExpired now q.

(** [priorities[priority] = (priorities[priority] || 0) + 1] *)
Definition countPriority (priorities : gmap Z Z) (item : QueueItem.t) : gmap Z Z :=
  <[QueueItem.priority item := default 0 (priorities !! QueueItem.priority item) + 1]> priorities.

(** [getStats]; [utilizationPercent], a formatted floating-point string,
    is not part of the model. *)
Definition getStats (cfg : Config) (now : Z) (q : t) : Stats :=
  {| size := Z.of_nat (length q);
     maxSize := maxQueueSize cfg;
     priorityDistribution := foldl countPriority ∅ q;
     oldestMessage :=
       match last q with
       | Some item => now - QueueItem.enqueuedAt item
       | None => 0
       end |}.

End NotificationQueue.

(** ** The connection registry ([clientManager.js]) *)

Module Stats.
Record t : Type := mk {
  totalConnections : Z;
  totalNotifications : Z;
  lastActivity : Z
}.
End Stats.

Module Client.
(** A value of [#apiKeys]. *)
Record t : Type := mk {
  name : string;
  userId : option string;
  createdAt : Z;
  connections : gset string;
  stats : Stats.t
}.
End Client.

Module Connection.
(** A value of [#connections]. *)
Record t : Type := mk {
  apiKey : string;
  channels : gset string;
  connectedAt : Z
}.
End Connection.

Module ClientManager.

Record t : Type := mk {
  apiKeys : gmap string Client.t;          (* apiKey -> client *)
  connections : gmap string Connection.t   (* connectionId -> connection *)
}.

(** [this.#apiKeys.get(apiKey)] for an arbitrary JavaScript value. *)
Definition getClient (cm : t) (apiKey : JsValue) : option (string * Client.t) :=
  key ← as_string apiKey; client ← apiKeys cm !! key; Some (key, client).

Definition validateApiKey (cm : t) (apiKey : JsValue) : result bool :=
  if negb (truthy apiKey) || negb (is_string apiKey) then
    Throw (mkError AuthenticationError "Invalid API key format")
  else
    match getClient cm apiKey with
    | None => Throw (mkError AuthenticationError "Invalid API key")
    | Some _ => Ok true
    end.

(** [generateApiKey]: [apiKey] is the hexadecimal string drawn from
    [randomBytes]. *)
Definition generateApiKey (now : Z) (apiKey : string) (clientName : JsValue)
    (userId : option string) (cm : t) : result string * t :=
  match clientName with
  | JStr name =>
      if negb (truthy clientName) then
        (Throw (mkError ValidationError "Client name is required"), cm)
      else
        let keyData :=
          {| Client.name := name; Client.userId := userId; Client.createdAt := now;
             Client.connections := ∅;
             Client.stats := {| Stats.totalConnections := 0;
                                Stats.totalNotifications := 0;
                                Stats.lastActivity := now |} |} in
        (Ok apiKey, {| apiKeys := <[apiKey := keyData]> (apiKeys cm);
                       connections := connections cm |})
  | _ => (Throw (mkError ValidationError "Client name is required"), cm)
  end.

Definition registerConnection (cfg : Config) (now : Z) (connectionId : string)
    (apiKey : JsValue) (cm : t) : result bool * t :=
  match validateApiKey cm apiKey with
  | Throw e => (Throw e, cm)
  | Ok _ =>
      match getClient cm apiKey with
      | None => (Throw (mkError PlainError "Cannot read properties of undefined"), cm)
      | Some (key, client) =>
          let maxClients := maxClientsPerApiKey cfg in
          if maxClients <=? Z.of_nat (size (Client.connections client)) then
            (Throw (mkError ValidationError
                      ("Maximum connections (" +:+ pretty maxClients
                         +:+ ") reached for this API key")), cm)
          else
            let stats := Client.stats client in
            let client' :=
              {| Client.name := Client.name client;
                 Client.userId := Client.userId client;
                 Client.createdAt := Client.createdAt client;
                 Client.connections := {[connectionId]} ∪ Client.connections client;
                 Client.stats :=
                   {| Stats.totalConnections := Stats.totalConnections stats + 1;
                      Stats.totalNotifications := Stats.totalNotifications stats;
                      Stats.lastActivity := now |} |} in
            (Ok true,
             {| apiKeys := <[key := client']> (apiKeys cm);
                connections :=
                  <[connectionId := {| Connection.apiKey := key;
                                       Connection.channels := ∅;
                                       Connection.connectedAt := now |}]>
                    (connections cm) |})
      end
  end.

(** [client.connections.delete(connectionId)] *)
Definition dropConnection (connectionId : string) (client : Client.t) : Client.t :=
  {| Client.name := Client.name client;
     Client.userId := Client.userId client;
     Client.createdAt := Client.createdAt client;
     Client.connections := Client.connections client ∖ {[connectionId]};
     Client.stats := Client.stats client |}.

Definition unregisterConnection (connectionId : string) (cm : t) : bool * t :=
  match connections cm !! connectionId with
  | None => (false, cm)
  | Some connection =>
      (true,
       {| apiKeys := alter (dropConnection connectionId)
                           (Connection.apiKey connection) (apiKeys cm);
          connections := delete connectionId (connections cm) |})
  end.

Definition subscribeToChannel (connectionId : string) (channel : JsValue) (cm : t)
  : result bool * t :=
  match connections cm !! connectionId with
  | None => (Throw (mkError ValidationError "Connection not found"), cm)
  | Some connection =>
      match channel with
      | JStr ch =>
          if negb (truthy channel) then
            (Throw (mkError ValidationError "Invalid channel name"), cm)
          else
            (Ok true,
             {| apiKeys := apiKeys cm;
                connections :=
                  <[connectionId :=
                      {| Connection.apiKey := Connection.apiKey connection;
                         Connection.channels := {[ch]} ∪ Connection.channels connection;
                         Connection.connectedAt := Connection.connectedAt connection |}]>
                    (connections cm) |})
      | _ => (Throw (mkError ValidationError "Invalid channel name"), cm)
      end
  end.

(** [connection.channels.delete(channel)]: a value that is not a string
    is in no subscription set. *)
Definition dropChannel (channel : JsValue) (connection : Connection.t) : Connection.t :=
  match as_string channel with
  | Some ch =>
      {| Connection.apiKey := Connection.apiKey connection;
         Connection.channels := Connection.channels connection ∖ {[ch]};
         Connection.connectedAt := Connection.connectedAt connection |}
  | None => connection
  end.

Definition unsubscribeFromChannel (connectionId : string) (channel : JsValue) (cm : t)
  : bool * t :=
  match connections cm !! connectionId with
  | None => (false, cm)
  | Some connection =>
      (true,
       {| apiKeys := apiKeys cm;
          connections := <[connectionId := dropChannel channel connection]> (connections cm) |})
  end.

(** [connection.channels.has(channel)] *)
Definition hasChannel (channel : JsValue) (connection : Connection.t) : bool :=
  match as_string channel with
  | Some ch => bool_decide (ch ∈ Connection.channels connection)
  | None => false
  end.

(** [getConnectionsByChannel]: the ids of the entries of [#connections]
    whose subscription set has the channel.  (The source walks the map in
    insertion order; the order of the result is not modelled.) *)
Definition getConnectionsByChannel (cm : t) (channel : JsValue) : list string :=
  (filter (λ kv : string * Connection.t, hasChannel channel kv.2 = true)
          (map_to_list (connections cm))).*1.

Definition getConnectionInfo (cm : t) (connectionId : string) : option Connection.t :=
  connections cm !! connectionId.

(** [client.stats.totalNotifications++; client.stats.lastActivity = new Date()] *)
Definition countNotification (now : Z) (client : Client.t) : Client.t :=
  {| Client.name := Client.name client;
     Client.userId := Client.userId client;
     Client.createdAt := Client.createdAt client;
     Client.connections := Client.connections client;
     Client.stats :=
       {| Stats.totalConnections := Stats.totalConnections (Client.stats client);
          Stats.totalNotifications := Stats.totalNotifications (Client.stats client) + 1;
          Stats.lastActivity := now |} |}.

Definition updateNotificationStats (now : Z) (apiKey : JsValue) (cm : t) : t :=
  match getClient cm apiKey with
  | Some (key, _) =>
      {| apiKeys := alter (countNotification now) key (apiKeys cm);
         connections := connections cm |}
  | None => cm
  end.

(** [revokeApiKey]: the [for] loop deletes every id of the key's
    connection set from [#connections]. *)
Definition revokeApiKey (apiKey : JsValue) (cm : t) : result bool * t :=
  match getClient cm apiKey with
  | None => (Throw (mkError ValidationError "API key not found"), cm)
  | Some (key, client) =>
      (Ok true,
       {| apiKeys := delete key (apiKeys cm);
          connections :=
            set_fold (λ connectionId conns, delete connectionId conns)
                     (connections cm) (Client.connections client) |})
  end.

End ClientManager.

(** ** Sockets and the messages written to them *)

Inductive ReadyState : Type := CONNECTING | OPEN | CLOSING | CLOSED.

Global Instance ReadyState_eq_dec : EqDecision ReadyState.
Proof. solve_decision. Defined.

(** The objects handed to [JSON.stringify] before [ws.send]. *)
Inductive ServerMessage : Type :=
| MsgConnected (connectionId : string) (message : string)
| MsgAuthenticated (success : bool) (text : string)
| MsgSubscribed (success : bool) (channel : JsValue) (text : string)
| MsgUnsubscribed (success : bool) (channel : JsValue) (text : string)
| MsgPong (timestamp : Z)
| MsgNotification (id channel data : JsValue) (timestamp : Z)
| MsgError (name message code : string) (statusCode : option Z).

Module Socket.
Record t : Type := mk {
  readyState : ReadyState;
  isAlive : bool;
  sent : list ServerMessage     (* frames written so far, oldest first *)
}.

(** [ws.send(JSON.stringify(data))] on an open socket. *)
Definition send (m : ServerMessage) (ws : t) : t :=
  {| readyState := readyState ws; isAlive := isAlive ws; sent := sent ws ++ [m] |}.

(** [ws.close()]: starts the closing handshake of an open socket. *)
Definition close (ws : t) : t :=
  {| readyState := match readyState ws with CLOSED => CLOSED | _ => CLOSING end;
     isAlive := isAlive ws; sent := sent ws |}.

(** [ws.terminate()] *)
Definition terminate (ws : t) : t :=
  {| readyState := CLOSED; isAlive := isAlive ws; sent := sent ws |}.

Definition setAlive (b : bool) (ws : t) : t :=
  {| readyState := readyState ws; isAlive := b; sent := sent ws |}.
End Socket.

(** The text a template literal gives a value. *)
Definition js_to_string (v : JsValue) : string :=
  match v with
  | JUndefined => "undefined"
  | JNull => "null"
  | JBool true => "true"
  | JBool false => "false"
  | JNum n => pretty n
  | JStr s => s
  | JObj _ => "[object Object]"
  end.

(** ** Error reporting on a socket ([errorHandler.js]) *)

Module ErrorHandler.

(** [error.toJSON()] of a [NotificationError]; the [details] a
    [ValidationError] adds, always [{}] in this code, are not shown. *)
Definition toJSON (e : Error) : ServerMessage :=
  MsgError (error_name e) (emessage e) (error_code e) (Some (error_status e)).

Definition handleWebSocketError (e : Error) (ws : Socket.t) : Socket.t :=
  if decide (Socket.readyState ws = OPEN) then
    let errorMessage :=
      if is_NotificationError e then toJSON e
      else MsgError "WebSocketError"
             (if String.eqb (emessage e) EmptyString
              then "WebSocket error occurred" else emessage e)
             "WEBSOCKET_ERROR" None in
    Socket.send errorMessage ws
  else ws.

End ErrorHandler.

(** ** The WebSocket protocol handler ([wsServer.js]) *)

Module ClientMessage.
(** A parsed inbound frame; an absent field is [JUndefined]. *)
Record t : Type := mk {
  type : JsValue;
  apiKey : JsValue;
  channel : JsValue
}.
End ClientMessage.

Module Session.
(** The variables the closure of [#handleConnection] keeps per socket. *)
Record t : Type := mk {
  connectionId : string;
  apiKey : JsValue;
  isAuthenticated : bool
}.
End Session.

Module WsServer.

(** [#sendMessage] *)
Definition sendMessage (m : ServerMessage) (ws : Socket.t) : Socket.t :=
  if decide (Socket.readyState ws = OPEN) then Socket.send m ws else ws.

(** [#handleAuthenticate] *)
Definition handleAuthenticate (cfg : Config) (now : Z) (message : ClientMessage.t)
    (connectionId : string) (cm : ClientManager.t) (ws : Socket.t)
  : result unit * ClientManager.t * Socket.t :=
  let apiKey := ClientMessage.apiKey message in
  let fail (e : Error) (cm' : ClientManager.t) :=
    (Throw e, cm', Socket.close (sendMessage (MsgAuthenticated false (emessage e)) ws)) in
  match ClientManager.validateApiKey cm apiKey with
  | Throw e => fail e cm
  | Ok _ =>
      match ClientManager.registerConnection cfg now connectionId apiKey cm with
      | (Throw e, cm') => fail e cm'
      | (Ok _, cm') =>
          (Ok (), cm', sendMessage (MsgAuthenticated true "Successfully authenticated") ws)
      end
  end.

(** [#handleSubscribe] *)
Definition handleSubscribe (message : ClientMessage.t) (connectionId : string)
    (cm : ClientManager.t) (ws : Socket.t)
  : result unit * ClientManager.t * Socket.t :=
  let channel := ClientMessage.channel message in
  match ClientManager.subscribeToChannel connectionId channel cm with
  | (Ok _, cm') =>
      (Ok (), cm',
       sendMessage (MsgSubscribed true channel
                      ("Subscribed to channel: " +:+ js_to_string channel)) ws)
  | (Throw e, cm') =>
      (Throw e, cm', sendMessage (MsgSubscribed false channel (emessage e)) ws)
  end.

(** [#handleUnsubscribe]: the registry call never throws. *)
Definition handleUnsubscribe (message : ClientMessage.t) (connectionId : string)
    (cm : ClientManager.t) (ws : Socket.t)
  : result unit * ClientManager.t * Socket.t :=
  let channel := ClientMessage.channel message in
  let '(_, cm') := ClientManager.unsubscribeFromChannel connectionId channel cm in
  (Ok (), cm',
   sendMessage (MsgUnsubscribed true channel
                  ("Unsubscribed from channel: " +:+ js_to_string channel)) ws).

(** [v === s] for a string literal [s]: the test of a [case] label. *)
Definition is_literal (s : string) (v : JsValue) : bool :=
  match v with
  | JStr t => String.eqb t s
  | _ => false
  end.

(** [#handleMessage]: the [switch] compares [type] with each label in
    turn. *)
Definition handleMessage (cfg : Config) (now : Z) (message : ClientMessage.t)
    (connectionId : string) (apiKey : JsValue) (isAuthenticated : bool)
    (cm : ClientManager.t) (ws : Socket.t)
  : result unit * ClientManager.t * Socket.t :=
  let type := ClientMessage.type message in
  if is_literal "authenticate" type then
    handleAuthenticate cfg now message connectionId cm ws
  else if is_literal "subscribe" type then
    if negb isAuthenticated then
      (Throw (mkError AuthenticationError "Not authenticated"), cm, ws)
    else handleSubscribe message connectionId cm ws
  else if is_literal "unsubscribe" type then
    if negb isAuthenticated then
      (Throw (mkError AuthenticationError "Not authenticated"), cm, ws)
    else handleUnsubscribe message connectionId cm ws
  else if is_literal "ping" type then
    (Ok (), cm, sendMessage (MsgPong now) ws)
  else
    (Throw (mkError ValidationError ("Unknown message type: " +:+ js_to_string type)),
     cm, ws).

(** [message.type === 'authenticate'] *)
Definition isAuthenticate (message : ClientMessage.t) : bool :=
  is_literal "authenticate" (ClientMessage.type message).

(** The ['message'] listener installed by [#handleConnection], for a
    frame that [JSON.parse] accepted. *)
Definition onMessage (cfg : Config) (now : Z) (message : ClientMessage.t)
    (session : Session.t) (cm : ClientManager.t) (ws : Socket.t)
  : Session.t * ClientManager.t * Socket.t :=
  match handleMessage cfg now message (Session.connectionId session)
          (Session.apiKey session) (Session.isAuthenticated session) cm ws with
  | (Ok _, cm', ws') =>
      if isAuthenticate message && negb (Session.isAuthenticated session) then
        ({| Session.connectionId := Session.connectionId session;
            Session.apiKey := ClientMessage.apiKey message;
            Session.isAuthenticated := true |}, cm', ws')
      else (session, cm', ws')
  | (Throw e, cm', ws') =>
      (session, cm', ErrorHandler.handleWebSocketError e ws')
  end.

(** The ['message'] listener for a frame [JSON.parse] rejects with the
    [SyntaxError] of text [why]. *)
Definition onMalformed (why : string) (ws : Socket.t) : Socket.t :=
  ErrorHandler.handleWebSocketError (mkError PlainError why) ws.

(** [#handleConnection]: the session and the socket of a new connection,
    after the welcome message. *)
Definition handleConnection (connectionId : string) : Session.t * Socket.t :=
  ({| Session.connectionId := connectionId;
      Session.apiKey := JNull;
      Session.isAuthenticated := false |},
   sendMessage (MsgConnected connectionId "Please authenticate with your API key")
     {| Socket.readyState := OPEN; Socket.isAlive := true; Socket.sent := [] |}).

(** [#handleDisconnection], on the registry and on [#clients]. *)
Definition handleDisconnection (connectionId : string)
    (cm : ClientManager.t) (clients : gmap string Socket.t)
  : ClientManager.t * gmap string Socket.t :=
  ((ClientManager.unregisterConnection connectionId cm).2, delete connectionId clients).

(** One socket in one tick of the [setInterval] of [#startHeartbeat]. *)
Definition heartbeatOne (connectionId : string) (ws : Socket.t)
    (st : ClientManager.t * gmap string Socket.t)
  : ClientManager.t * gmap string Socket.t :=
  if Socket.isAlive ws then
    (st.1, <[connectionId := Socket.setAlive false ws]> st.2)
  else handleDisconnection connectionId st.1 st.2.

Definition heartbeat (cm : ClientManager.t) (clients : gmap string Socket.t)
  : ClientManager.t * gmap string Socket.t :=
  map_fold heartbeatOne (cm, clients) clients.

End WsServer.

(** ** The delivery engine ([notificationService.js]) *)

(** What the engine writes to the logger while it processes an item. *)
Inductive LogEntry : Type :=
| LogNoConnections (notificationId : JsValue)
| LogProcessed (notificationId : JsValue) (successful failed totalConnections : Z)
| LogProcessingError (notificationId : JsValue) (attempts : Z) (error : string).

(** Where the asynchronous [#processQueue] is suspended. *)
Inductive Loop : Type :=
| Idle
    (* not running *)
| AwaitItem (rest : list QueueItem.t)
    (* at [await #processNotification(item)], the call having returned;
       [rest] is the part of the batch still to process *)
| AwaitRetry (item : QueueItem.t) (rest : list QueueItem.t)
    (* inside the [await #sleep(#retryDelay)] of the [catch] for [item] *)
| AwaitBatchSleep
    (* at [await #sleep(10)] *)
| Crashed (e : Error).
    (* the promise of [#processQueue] was rejected with [e] *)

Module World.
(** The singletons of the process and the sockets of the WebSocket
    server. *)
Record t : Type := mk {
  clientManager : ClientManager.t;
  notificationQueue : NotificationQueue.t;
  clients : gmap string Socket.t;   (* [NotificationWebSocketServer.#clients] *)
  wsServer : bool;                  (* [NotificationService.#wsServer] is set *)
  processing : bool;                (* [NotificationService.#processing] *)
  loop : Loop;
  log : list LogEntry
}.

Definition setQueue (q : NotificationQueue.t) (w : t) : t :=
  mk (clientManager w) q (clients w) (wsServer w) (processing w) (loop w) (log w).
Definition setClientManager (cm : ClientManager.t) (w : t) : t :=
  mk cm (notificationQueue w) (clients w) (wsServer w) (processing w) (loop w) (log w).
Definition setClients (cs : gmap string Socket.t) (w : t) : t :=
  mk (clientManager w) (notificationQueue w) cs (wsServer w) (processing w) (loop w) (log w).
Definition setProcessing (b : bool) (w : t) : t :=
  mk (clientManager w) (notificationQueue w) (clients w) (wsServer w) b (loop w) (log w).
Definition setLoop (l : Loop) (w : t) : t :=
  mk (clientManager w) (notificationQueue w) (clients w) (wsServer w) (processing w) l (log w).
Definition addLog (e : LogEntry) (w : t) : t :=
  mk (clientManager w) (notificationQueue w) (clients w) (wsServer w) (processing w)
     (loop w) (log w ++ [e]).
End World.

Module NotificationService.

Record SendResult : Type := mkSendResult { success : bool; reason : string }.

Record Response : Type := mkResponse { notificationId : JsValue; queueSize : Z }.

(** [setWebSocketServer] *)
Definition setWebSocketServer (w : World.t) : World.t :=
  World.mk (World.clientManager w) (World.notificationQueue w) (World.clients w)
           true (World.processing w) (World.loop w) (World.log w).

(** [sendToConnection]; [ws.send] of an open socket does not throw. *)
Definition sendToConnection (connectionId : string) (notification : Notification.t)
    (w : World.t) : result SendResult * World.t :=
  if negb (World.wsServer w) then
    (Throw (mkError PlainError "WebSocket server not initialized"), w)
  else
    match World.clients w !! connectionId with
    | Some client =>
        if decide (Socket.readyState client = OPEN) then
          let message :=
            MsgNotification (Notification.id notification)
              (Notification.channel notification) (Notification.data notification)
              (Metadata.timestamp (Notification.metadata notification)) in
          (Ok (mkSendResult true EmptyString),
           World.setClients (<[connectionId := Socket.send message client]> (World.clients w)) w)
        else (Ok (mkSendResult false "Client not connected"), w)
    | None => (Ok (mkSendResult false "Client not connected"), w)
    end.

(** [metadata.excludeConnection && connectionId === metadata.excludeConnection] *)
Definition excluded (metadata : Metadata.t) (connectionId : string) : bool :=
  truthy (Metadata.excludeConnection metadata)
  && match Metadata.excludeConnection metadata with
     | JStr c => String.eqb connectionId c
     | _ => false
     end.

(** The [for] loop over the connections of [#processNotification]; a
    throw leaves the loop with the sends made so far in place. *)
Fixpoint sendAll (notification : Notification.t) (connections : list string)
    (results : list (string * SendResult)) (w : World.t)
  : result (list (string * SendResult)) * World.t :=
  match connections with
  | [] => (Ok results, w)
  | connectionId :: connections' =>
      if excluded (Notification.metadata notification) connectionId then
        sendAll notification connections' results w
      else
        match sendToConnection connectionId notification w with
        | (Ok r, w') =>
            sendAll notification connections' (results ++ [(connectionId, r)]) w'
        | (Throw e, w') => (Throw e, w')
        end
  end.

Definition countWhere {A} (p : A → bool) (l : list A) : Z :=
  Z.of_nat (length (List.filter p l)).

Definition withAttempts (attempts : Z) (item : QueueItem.t) : QueueItem.t :=
  {| QueueItem.id := QueueItem.id item;
     QueueItem.notification := QueueItem.notification item;
     QueueItem.priority := QueueItem.priority item;
     QueueItem.enqueuedAt := QueueItem.enqueuedAt item;
     QueueItem.expiresAt := QueueItem.expiresAt item;
     QueueItem.attempts := attempts |}.

(** [#processNotification] up to its first suspension.  [Some item'] is
    returned when it stops inside the retry branch, at
    [await this.#sleep(this.#retryDelay)], with [item'] the item after
    [item.attempts++]; [None] when it ran to its end. *)
Definition processNotification (cfg : Config) (item : QueueItem.t) (w : World.t)
  : option QueueItem.t * World.t :=
  let notification := QueueItem.notification item in
  let attempts := QueueItem.attempts item in
  let connections :=
    ClientManager.getConnectionsByChannel (World.clientManager w)
      (Notification.channel notification) in
  match connections with
  | [] => (None, World.addLog (LogNoConnections (Notification.id notification)) w)
  | _ =>
      match sendAll notification connections [] w with
      | (Ok results, w') =>
          (None,
           World.addLog
             (LogProcessed (Notification.id notification)
                (countWhere (λ r, success r.2) results)
                (countWhere (λ r, negb (success r.2)) results)
                (Z.of_nat (length connections))) w')
      | (Throw e, w') =>
          let w'' :=
            World.addLog
              (LogProcessingError (Notification.id notification) (attempts + 1)
                 (emessage e)) w' in
          if attempts <? retryAttempts cfg then
            (Some (withAttempts (attempts + 1) item), w'')
          else (None, w'')
      end
  end.

(** The [for (const item of batch)] loop of [#processQueue], from the
    item it is about to process up to the next [await]. *)
Definition processBatch (cfg : Config) (batch : list QueueItem.t) (w : World.t) : World.t :=
  match batch with
  | [] => World.setLoop AwaitBatchSleep w
  | item :: rest =>
      match processNotification cfg item w with
      | (Some item', w') => World.setLoop (AwaitRetry item' rest) w'
      | (None, w') => World.setLoop (AwaitItem rest) w'
      end
  end.

(** [#processQueue] from the test of its [while] up to the next [await];
    [clock i] is what [Date.now()] returns in the [i]-th [dequeue] of the
    [dequeueBatch] call. *)
Definition processQueue (cfg : Config) (clock : nat → Z) (w : World.t) : World.t :=
  if NotificationQueue.isEmpty (World.notificationQueue w) then
    World.setLoop Idle (World.setProcessing false w)
  else
    let '(batch, q') :=
      NotificationQueue.dequeueBatch cfg clock None (World.notificationQueue w) in
    processBatch cfg batch (World.setQueue q' w).

(** [#startProcessing] *)
Definition startProcessing (cfg : Config) (clock : nat → Z) (w : World.t) : World.t :=
  if World.processing w then w
  else processQueue cfg clock (World.setProcessing true w).

(** The event loop resumes the suspended [#processQueue] and runs it up
    to its next [await]; [clock i] is the [i]-th reading of the clock it
    makes on the way, counted from 0: the two readings of the [enqueue] of
    the retry branch, or the readings of the [dequeue] calls of the next
    batch. *)
Definition resume (cfg : Config) (clock : nat → Z) (w : World.t) : World.t :=
  match World.loop w with
  | Idle => w
  | Crashed _ => w
  | AwaitItem rest => processBatch cfg rest w
  | AwaitRetry item rest =>
      match NotificationQueue.enqueue cfg (clock 0%nat) (clock 1%nat)
              (QueueItem.notification item) (World.notificationQueue w) with
      | (Ok _, q') => World.setLoop (AwaitItem rest) (World.setQueue q' w)
      | (Throw e, _) => World.setLoop (Crashed e) w
      end
  | AwaitBatchSleep => processQueue cfg clock w
  end.

(** The ["Create notification object"] block of [sendNotification];
    [now] is the reading of the clock for [timestamp], [uuid] the value of
    [uuidv4()], [excludeConnection] the only field a caller puts in
    [metadata]. *)
Definition createNotification (now : Z) (uuid : string)
    (channel data priority apiKey excludeConnection : JsValue) : Notification.t :=
  {| Notification.id := JStr uuid;
     Notification.channel := channel;
     Notification.data := data;
     Notification.priority := js_or priority (JNum 5);
     Notification.metadata :=
       {| Metadata.excludeConnection := excludeConnection;
          Metadata.apiKey := apiKey;
          Metadata.timestamp := now |} |}.

(** The [catch] block of [sendNotification]: it logs
    [apiKey?.substring(0, 8)], which is itself a [TypeError] when the key
    is neither nullish nor a string, and rethrows. *)
Definition rethrow (apiKey : JsValue) (e : Error) : Error :=
  match apiKey with
  | JUndefined | JNull | JStr _ => e
  | _ => mkError PlainError "apiKey?.substring is not a function"
  end.

(** [sendNotification], up to its [return] or [throw].  [clock i] is the
    [i]-th reading of the clock the call makes, counted from 0: reading 0
    is the [timestamp] of the notification, readings 1 and 2 are those of
    [enqueue], reading 3 is the [lastActivity] of
    [updateNotificationStats], and the readings from 4 on are those of the
    [dequeue] calls of the first batch, when the call starts the
    processing loop. *)
Definition sendNotification (cfg : Config) (clock : nat → Z) (uuid : string)
    (channel data priority apiKey excludeConnection : JsValue) (w : World.t)
  : result Response * World.t :=
  match ClientManager.validateApiKey (World.clientManager w) apiKey with
  | Throw e => (Throw (rethrow apiKey e), w)
  | Ok _ =>
      if negb (truthy channel) || negb (is_string channel) then
        (Throw (rethrow apiKey (mkError ValidationError "Channel is required")), w)
      else if negb (truthy data) then
        (Throw (rethrow apiKey (mkError ValidationError "Data is required")), w)
      else
        let notification :=
          createNotification (clock 0%nat) uuid channel data priority apiKey
            excludeConnection in
        match NotificationQueue.enqueue cfg (clock 1%nat) (clock 2%nat) notification
                (World.notificationQueue w) with
        | (Throw e, _) => (Throw (rethrow apiKey e), w)
        | (Ok _, q') =>
            let w1 := World.setQueue q' w in
            let w2 :=
              World.setClientManager
                (ClientManager.updateNotificationStats (clock 3%nat) apiKey
                   (World.clientManager w1)) w1 in
            let w3 :=
              if World.processing w2 then w2
              else startProcessing cfg (λ i, clock (4 + i)%nat) w2 in
            (Ok (mkResponse (Notification.id notification)
                   (NotificationQueue.size_of (World.notificationQueue w3))), w3)
        end
  end.

(** [broadcastToChannel] *)
Definition broadcastToChannel (cfg : Config) (clock : nat → Z) (uuid : string)
    (channel data priority apiKey excludeConnection : JsValue) (w : World.t)
  : result Response * World.t :=
  sendNotification cfg clock uuid channel data priority apiKey excludeConnection w.

(** The event loop resumes the processing loop once for each clock of
    [clocks], in turn. *)
Definition run (cfg : Config) (clocks : list (nat → Z)) (w : World.t) : World.t :=
  foldl (λ w clock, resume cfg clock w) w clocks.

(** A clock that reads [t] at every reading: the call or the resumption
    is over within the millisecond [t]. *)
Definition still (t : Z) : nat → Z := λ _, t.

(** The resumptions of the loop in [k] consecutive retries of an item
    whose processing failed at time [failedAt]: after the retry delay of
    1000 ms (the re-enqueue), straight after (the end of the batch), and
    after the 10 ms sleep between batches (the next batch); the clock
    stands still during each of them. *)
Fixpoint retryTimes (k : nat) (failedAt : Z) : list (nat → Z) :=
  match k with
  | O => []
  | S k' =>
      [still (failedAt + 1000); still (failedAt + 1000); still (failedAt + 1010)]
        ++ retryTimes k' (failedAt + 1010)
  end.

(** [getStats]: the queue statistics and the [processing] flag. *)
Definition getStats (cfg : Config) (now : Z) (w : World.t)
  : NotificationQueue.Stats * bool :=
  (NotificationQueue.getStats cfg now (World.notificationQueue w), World.processing w).

End NotificationService.

(** ** Sequences of calls *)

Module QueueTrace.

(** A call of a method of the queue that changes it. *)
Inductive Op : Type :=
| Enqueue (now later : Z) (n : Notification.t)
| Dequeue (now : Z)
| DequeueBatch (clock : nat → Z) (size : option Z)
| Clear
| Cleanup (now : Z).

(** The queue, with the items [enqueue] has returned and the items
    [dequeue] and [dequeueBatch] have returned, both oldest first. *)
Record t : Type := mk {
  queue : NotificationQueue.t;
  enqueued : list QueueItem.t;
  dequeued : list QueueItem.t
}.

Definition init : t := mk [] [] [].

Definition step (cfg : Config) (tr : t) (op : Op) : t :=
  match op with
  | Enqueue now later n =>
      match NotificationQueue.enqueue cfg now later n (queue tr) with
      | (Ok item, q') => mk q' (enqueued tr ++ [item]) (dequeued tr)
      | (Throw _, q') => mk q' (enqueued tr) (dequeued tr)
      end
  | Dequeue now =>
      match NotificationQueue.dequeue now (queue tr) with
      | (Some item, q') => mk q' (enqueued tr) (dequeued tr ++ [item])
      | (None, q') => mk q' (enqueued tr) (dequeued tr)
      end
  | DequeueBatch clock size =>
      let '(batch, q') := NotificationQueue.dequeueBatch cfg clock size (queue tr) in
      mk q' (enqueued tr) (dequeued tr ++ batch)
  | Clear => mk (NotificationQueue.clear (queue tr)).2 (enqueued tr) (dequeued tr)
  | Cleanup now => mk (NotificationQueue.cleanup now (queue tr)) (enqueued tr) (dequeued tr)
  end.

Definition run (cfg : Config) (ops : list Op) : t := foldl (step cfg) init ops.

(** The readings of the clock that the calls of [enqueue] store as
    [enqueuedAt], in call order. *)
Definition enqueueTimes (ops : list Op) : list Z :=
  omap (λ op, match op with Enqueue now _ _ => Some now | _ => None end) ops.

(** The items of one priority band. *)
Definition band (p : Z) (l : list QueueItem.t) : list QueueItem.t :=
  filter (λ item, QueueItem.priority item = p) l.

End QueueTrace.

Module RegistryTrace.

(** A call of a method of the registry that changes it. *)
Inductive Op : Type :=
| Register (now : Z) (connectionId : string) (apiKey : JsValue)
| Unregister (connectionId : string)
| Subscribe (connectionId : string) (channel : JsValue)
| Unsubscribe (connectionId : string) (channel : JsValue)
| Revoke (apiKey : JsValue).

Definition step (cfg : Config) (cm : ClientManager.t) (op : Op) : ClientManager.t :=
  match op with
  | Register now connectionId apiKey =>
      (ClientManager.registerConnection cfg now connectionId apiKey cm).2
  | Unregister connectionId => (ClientManager.unregisterConnection connectionId cm).2
  | Subscribe connectionId channel =>
      (ClientManager.subscribeToChannel connectionId channel cm).2
  | Unsubscribe connectionId channel =>
      (ClientManager.unsubscribeFromChannel connectionId channel cm).2
  | Revoke apiKey => (ClientManager.revokeApiKey apiKey cm).2
  end.

Definition run (cfg : Config) (ops : list Op) (cm : ClientManager.t) : ClientManager.t :=
  foldl (step cfg) cm ops.

(** The registry as its constructor leaves it: the keys loaded from the
    database, each with an empty connection set, and no connection. *)
Definition initial (cm : ClientManager.t) : Prop :=
  ClientManager.connections cm = ∅ ∧
  ∀ key client, ClientManager.apiKeys cm !! key = Some client →
                Client.connections client = ∅.

End RegistryTrace.

(** ** Predicates the statements use *)

Module Predicates.

(** The order the comparator of [#sortQueue] sorts by. *)
Definition item_le (a b : QueueItem.t) : Prop := NotificationQueue.compare a b ≤ 0.

(** The queue is sorted by the comparator; every item of it was enqueued
    at one of the clock readings of the [enqueue] calls; and in every
    priority band the items already returned followed by the items still
    queued appear in the order in which [enqueue] accepted them. *)
Definition ordered (times : list Z) (tr : QueueTrace.t) : Prop :=
  StronglySorted item_le (QueueTrace.queue tr) ∧
  Forall (λ y, QueueItem.enqueuedAt y ∈ times) (QueueTrace.queue tr) ∧
  ∀ p, QueueTrace.band p (QueueTrace.dequeued tr ++ QueueTrace.queue tr)
         `sublist_of` QueueTrace.band p (QueueTrace.enqueued tr).

(** Every connection of the map is in the connection set of the key the
    map records for it. *)
Definition owned (cm : ClientManager.t) : Prop :=
  ∀ c conn, ClientManager.connections cm !! c = Some conn →
    ∃ client, ClientManager.apiKeys cm !! Connection.apiKey conn = Some client ∧
              c ∈ Client.connections client.

(** The registry after a successful [registerConnection]. *)
Definition registered (now : Z) (connectionId key : string) (client : Client.t)
    (cm : ClientManager.t) : ClientManager.t :=
  {| ClientManager.apiKeys :=
       <[key :=
           {| Client.name := Client.name client;
              Client.userId := Client.userId client;
              Client.createdAt := Client.createdAt client;
              Client.connections := {[connectionId]} ∪ Client.connections client;
              Client.stats :=
                {| Stats.totalConnections :=
                     Stats.totalConnections (Client.stats client) + 1;
                   Stats.totalNotifications :=
                     Stats.totalNotifications (Client.stats client);
                   Stats.lastActivity := now |} |}]> (ClientManager.apiKeys cm);
     ClientManager.connections :=
       <[connectionId := {| Connection.apiKey := key;
                            Connection.channels := ∅;
                            Connection.connectedAt := now |}]> (ClientManager.connections cm) |}.

(** The oldest-message age as the specification words it: the current
    time minus the minimum [enqueuedAt] over all items of the queue, and 0
    for the empty queue. *)
Definition earliestEnqueuedAt (item : QueueItem.t) (q : NotificationQueue.t) : Z :=
  foldr (λ x m, Z.min (QueueItem.enqueuedAt x) m) (QueueItem.enqueuedAt item) q.

Definition oldestMessageAge (now : Z) (q : NotificationQueue.t) : Z :=
  match q with
  | [] => 0
  | item :: q' => now - earliestEnqueuedAt item q'
  end.

End Predicates.

(** ** Concrete data used by the examples *)

Module Sample.

(** A notification as [sendNotification] builds it. *)
Definition note (uuid : string) (priority : JsValue) : Notification.t :=
  {| Notification.id := JStr uuid;
     Notification.channel := JStr "updates";
     Notification.data := JObj "{title:x}";
     Notification.priority := priority;
     Notification.metadata :=
       {| Metadata.excludeConnection := JNull;
          Metadata.apiKey := JStr "key-A";
          Metadata.timestamp := 0 |} |}.

(** The queue item [enqueue] makes of [note uuid (JNum p)] under the
    default configuration when both its readings of the clock are [now]. *)
Definition item (uuid : string) (p now : Z) : QueueItem.t :=
  {| QueueItem.id := JStr uuid;
     QueueItem.notification := note uuid (JNum p);
     QueueItem.priority := p;
     QueueItem.enqueuedAt := now;
     QueueItem.expiresAt := now + 86400000;
     QueueItem.attempts := 0 |}.

Definition client (name : string) (connections : gset string) : Client.t :=
  {| Client.name := name; Client.userId := None; Client.createdAt := 0;
     Client.connections := connections;
     Client.stats := {| Stats.totalConnections := 0;
                        Stats.totalNotifications := 0;
                        Stats.lastActivity := 0 |} |}.

(** A registry holding the keys [key-A] and [key-B] and no connection. *)
Definition registry : ClientManager.t :=
  {| ClientManager.apiKeys :=
       <["key-A" := client "alice" ∅]> (<["key-B" := client "bob" ∅]> ∅);
     ClientManager.connections := ∅ |}.

(** [registry] after the connection [c1] authenticated with [key-A] and
    subscribed to the channel [updates]. *)
Definition subscribed : ClientManager.t :=
  RegistryTrace.run default_config
    [RegistryTrace.Register 0 "c1" (JStr "key-A");
     RegistryTrace.Subscribe "c1" (JStr "updates")] registry.

Definition socket : Socket.t :=
  {| Socket.readyState := OPEN; Socket.isAlive := true; Socket.sent := [] |}.

(** A process with one subscribed connection, an empty queue and an idle
    processing loop; [wsServer] tells whether [setWebSocketServer] was
    called. *)
Definition world (wsServer : bool) : World.t :=
  {| World.clientManager := subscribed;
     World.notificationQueue := [];
     World.clients := {["c1" := socket]};
     World.wsServer := wsServer;
     World.processing := false;
     World.loop := Idle;
     World.log := [] |}.

(** What the engine logs when delivery of [n1] throws. *)
Definition failure : LogEntry :=
  LogProcessingError (JStr "n1") 1 "WebSocket server not initialized".

(** [world false] while the processing loop sleeps in the retry branch
    for the item of [n1] enqueued at [enqueuedAt]. *)
Definition stuck (enqueuedAt : Z) (log : list LogEntry) : World.t :=
  {| World.clientManager :=
       ClientManager.updateNotificationStats 0 (JStr "key-A") subscribed;
     World.notificationQueue := [];
     World.clients := {["c1" := socket]};
     World.wsServer := false;
     World.processing := true;
     World.loop := AwaitRetry (NotificationService.withAttempts 1 (item "n1" 5 enqueuedAt)) [];
     World.log := log |}.

End Sample.

(** ** Further predicates and traces *)

Module Invariants.

(** [Number.isSafeInteger]: up to this magnitude the sum of two integers
    is computed exactly by the addition of JavaScript numbers. *)
Definition safeInteger (x : Z) : Prop := Z.abs x ≤ 2 ^ 53 - 1.

(** The call of [enqueue] read the clock for [expiresAt] at most [drift]
    milliseconds after it read it for [enqueuedAt], and the expiry time it
    computed is a safe integer. *)
Definition timely (cfg : Config) (drift : Z) (op : QueueTrace.Op) : Prop :=
  match op with
  | QueueTrace.Enqueue now later _ =>
      later - now ≤ drift ∧ safeInteger (later + messageExpiry cfg)
  | _ => True
  end.

(** What [enqueue] guarantees of every item it puts in the queue, when
    its two readings of the clock are at most [drift] apart. *)
Definition wellFormed (cfg : Config) (drift : Z) (item : QueueItem.t) : Prop :=
  1 ≤ QueueItem.priority item ≤ 10 ∧
  QueueItem.attempts item = 0 ∧
  QueueItem.expiresAt item ≤ QueueItem.enqueuedAt item + messageExpiry cfg + drift ∧
  QueueItem.id item = Notification.id (QueueItem.notification item) ∧
  NotificationQueue.validateNotification (QueueItem.notification item) = Ok ().

(** The number of items of priority [p]. *)
Definition countOf (p : Z) (q : NotificationQueue.t) : Z :=
  Z.of_nat (length (filter (λ item, QueueItem.priority item = p) q)).

(** No key holds more connections than the per-key maximum. *)
Definition withinLimit (cfg : Config) (cm : ClientManager.t) : Prop :=
  ∀ key client, ClientManager.apiKeys cm !! key = Some client →
    Z.of_nat (size (Client.connections client)) ≤ maxClientsPerApiKey cfg.

(** Every id in the connection set of a key is a connection of the map,
    recorded under this key. *)
Definition backed (cm : ClientManager.t) : Prop :=
  ∀ key client c, ClientManager.apiKeys cm !! key = Some client →
    c ∈ Client.connections client →
    ∃ conn, ClientManager.connections cm !! c = Some conn ∧ Connection.apiKey conn = key.

(** Every [registerConnection] of the sequence is called with an id that
    is not in the connection map at that moment, as when each socket
    authenticates at most once. *)
Fixpoint registersFresh (cfg : Config) (ops : list RegistryTrace.Op) (cm : ClientManager.t)
  : Prop :=
  match ops with
  | [] => True
  | op :: ops' =>
      match op with
      | RegistryTrace.Register _ connectionId _ =>
          ClientManager.connections cm !! connectionId = None
      | _ => True
      end ∧ registersFresh cfg ops' (RegistryTrace.step cfg cm op)
  end.

(** The frames of one socket, handled in order by its ['message']
    listener; each comes with the time it is handled at. *)
Definition onMessages (cfg : Config) (frames : list (Z * ClientMessage.t))
    (st : Session.t * ClientManager.t * Socket.t) : Session.t * ClientManager.t * Socket.t :=
  foldl (λ st frame, WsServer.onMessage cfg frame.1 frame.2 st.1.1 st.1.2 st.2) st frames.

(** An upper bound on the number of resumptions the processing loop
    needs to go idle when no item is retried. *)
Definition stepsLeft (w : World.t) : nat :=
  match World.loop w with
  | Idle | Crashed _ | AwaitRetry _ _ => 0
  | AwaitBatchSleep => 1 + 2 * length (World.notificationQueue w)
  | AwaitItem rest => 2 + length rest + 2 * length (World.notificationQueue w)
  end%nat.

End Invariants.

(** ** Further events of the WebSocket server *)

Module WsEvents.

(** The ['pong'] listener installed by [#handleConnection]. *)
Definition onPong (ws : Socket.t) : Socket.t := Socket.setAlive true ws.

(** The ['pong'] listener of every socket of [#clients] runs. *)
Definition allPong (clients : gmap string Socket.t) : gmap string Socket.t :=
  onPong <$> clients.

(** An [authenticate] frame and a [subscribe] frame as clients send them. *)
Definition authenticate (apiKey : string) : ClientMessage.t :=
  ClientMessage.mk (JStr "authenticate") (JStr apiKey) JUndefined.

Definition subscribe (channel : string) : ClientMessage.t :=
  ClientMessage.mk (JStr "subscribe") JUndefined (JStr channel).

End WsEvents.

(** ** What a handler or the engine did *)

Module Outcomes.

(** The handlers wrote at most [k] frames to the socket, after those it
    had, and left its liveness flag alone. *)
Definition appended (k : nat) (ws ws' : Socket.t) : Prop :=
  ∃ frames, Socket.sent ws' = Socket.sent ws ++ frames ∧ (length frames ≤ k)%nat ∧
            Socket.isAlive ws' = Socket.isAlive ws.

(** The frame [sendToConnection] writes for a notification. *)
Definition frameOf (n : Notification.t) : ServerMessage :=
  MsgNotification (Notification.id n) (Notification.channel n) (Notification.data n)
    (Metadata.timestamp (Notification.metadata n)).

(** The connection is sent the notification: it is one of [connections],
    is not the excluded one, and its socket is open. *)
Definition reached (n : Notification.t) (connections : list string) (c : string)
    (ws : Socket.t) : Prop :=
  c ∈ connections ∧ NotificationService.excluded (Notification.metadata n) c = false ∧
  Socket.readyState ws = OPEN.

#[global] Instance reached_dec n connections c ws : Decision (reached n connections c ws).
Proof. unfold reached. apply _. Defined.

(** The connection is subscribed to the channel in the registry. *)
Definition subscribedTo (cm : ClientManager.t) (channel : JsValue) (c : string) : Prop :=
  ∃ conn, ClientManager.connections cm !! c = Some conn ∧
          ClientManager.hasChannel channel conn = true.

(** The loop is suspended at one of its two ordinary [await]s. *)
Definition running (w : World.t) : Prop :=
  match World.loop w with
  | AwaitItem _ | AwaitBatchSleep => True
  | _ => False
  end.

(** The loop has ended: it is idle, its flag is down and the queue is
    empty. *)
Definition drained (w : World.t) : Prop :=
  World.loop w = Idle ∧ World.processing w = false ∧ World.notificationQueue w = [].

(** A priority [sendNotification] lets through: a falsy value, replaced by
    5, or a number from 1 to 10. *)
Definition acceptablePriority (priority : JsValue) : Prop :=
  truthy priority = false ∨ ∃ p, priority = JNum p ∧ 1 ≤ p ≤ 10.

(** The submission passes every check of [sendNotification] and of
    [enqueue]. *)
Definition acceptable (cfg : Config) (channel data priority apiKey : JsValue) (w : World.t)
  : Prop :=
  ClientManager.validateApiKey (World.clientManager w) apiKey = Ok true ∧
  truthy channel = true ∧ is_string channel = true ∧
  truthy data = true ∧
  acceptablePriority priority ∧
  NotificationQueue.size_of (World.notificationQueue w) < maxQueueSize cfg.

End Outcomes.

(** * Properties *)

(** ** The queue: expiry, capacity, statistics *)

Module QueueProperties.
Import NotificationQueue Predicates.

Lemma dequeue_Some now q x q' :
  dequeue now q = (Some x, q') → dropExpired now q = x :: q'.
Proof.
  unfold dequeue. destruct (dropExpired now q) as [|y r]; [done|].
  by intros [= -> ->].
Qed.

Lemma dequeue_None now q q' :
  dequeue now q = (None, q') → dropExpired now q = [] ∧ q' = [].
Proof.
  unfold dequeue. destruct (dropExpired now q) as [|y r]; [|done].
  by intros [= <-].
Qed.

Lemma dropExpired_sublist now q : dropExpired now q `sublist_of` q.
Proof. apply sublist_filter. Qed.

Lemma dropExpired_length now q : (length (dropExpired now q) ≤ length q)%nat.
Proof. apply length_filter. Qed.

(** What one call of [dequeue] returns was in the queue, in front of what
    it leaves there. *)
Lemma dequeue_sublist now q r q' :
  dequeue now q = (r, q') → option_list r ++ q' `sublist_of` q.
Proof.
  destruct r as [x|]; intros H.
  - apply dequeue_Some in H. simpl. rewrite <- H. apply dropExpired_sublist.
  - apply dequeue_None in H as [_ ->]. apply sublist_nil_l.
Qed.

(** The loop of [dequeueBatch] only appends to the batch; every item it
    appends was unexpired at the reading of the clock of its iteration,
    and the appended items followed by the remaining queue are, in this
    order, items of the queue the loop started from. *)
Lemma dequeueLoop_spec clock n : ∀ i batch q,
  ∃ extra,
    (dequeueLoop clock i n batch q).1 = batch ++ extra ∧
    Forall (λ x, ∃ j, unexpired (clock j) x) extra ∧
    extra ++ (dequeueLoop clock i n batch q).2 `sublist_of` q.
Proof.
  induction n as [|n IH]; intros i batch q; simpl.
  - exists []. rewrite app_nil_r. by repeat split.
  - destruct (dequeue (clock i) q) as [[x|] q1] eqn:E.
    + destruct (IH (S i) (batch ++ [x]) q1) as (extra & E1 & F & S1).
      exists (x :: extra). rewrite E1, <- app_assoc. split; [done|]. split.
      * constructor; [|done]. exists i.
        apply dequeue_Some in E.
        assert (x ∈ dropExpired (clock i) q) as Hx by (rewrite E; left).
        by apply list_elem_of_filter in Hx as [Hx _].
      * apply dequeue_sublist in E. simpl in *.
        etrans; [|exact E]. by constructor.
    + destruct (IH (S i) batch q1) as (extra & E1 & F & S1).
      exists extra. split; [done|]. split; [done|].
      apply dequeue_sublist in E. simpl in E.
      etrans; [exact S1|]. etrans; [exact E|]. done.
Qed.

Lemma dequeueBatch_spec cfg clock size q :
  Forall (λ x, ∃ j, unexpired (clock j) x) (dequeueBatch cfg clock size q).1 ∧
  (dequeueBatch cfg clock size q).1 ++ (dequeueBatch cfg clock size q).2 `sublist_of` q.
Proof.
  unfold dequeueBatch.
  destruct (dequeueLoop_spec clock
              (Z.to_nat (Z.min (size_or_default cfg size) (Z.of_nat (length q)))) 0%nat [] q)
    as (extra & E & F & S).
  rewrite E. simpl. done.
Qed.

(** Once the queue is empty the loop of [dequeueBatch] adds nothing. *)
Lemma dequeueLoop_nil clock n : ∀ i batch, dequeueLoop clock i n batch [] = (batch, []).
Proof. induction n as [|n IH]; intros i batch; [done|]. simpl. apply IH. Qed.

(** The loop of [dequeueBatch] appends the item of its [k]-th further
    iteration at the [k]-th further place of the batch, and this item was
    unexpired at the clock reading of that iteration. *)
Lemma dequeueLoop_lookup clock n : ∀ i batch q k x,
  (dequeueLoop clock i n batch q).1 !! (length batch + k)%nat = Some x →
  unexpired (clock (i + k)%nat) x.
Proof.
  induction n as [|n IH]; intros i batch q k x; simpl.
  - intros H. apply lookup_lt_Some in H. lia.
  - destruct (dequeue (clock i) q) as [[y|] q1] eqn:E.
    + destruct k as [|k].
      * destruct (dequeueLoop_spec clock n (S i) (batch ++ [y]) q1) as (extra & -> & _).
        rewrite <- app_assoc, Nat.add_0_r, lookup_app_r, Nat.sub_diag by done.
        intros [= <-]. rewrite Nat.add_0_r.
        apply dequeue_Some in E.
        assert (y ∈ dropExpired (clock i) q) as Hy by (rewrite E; left).
        by apply list_elem_of_filter in Hy as [Hy _].
      * intros H. replace (i + S k)%nat with (S i + k)%nat by lia.
        apply (IH (S i) (batch ++ [y]) q1 k x).
        rewrite length_app. simpl. by replace (length batch + 1 + k)%nat
          with (length batch + S k)%nat by lia.
    + apply dequeue_None in E as [_ ->]. rewrite dequeueLoop_nil. simpl.
      intros H. apply lookup_lt_Some in H. lia.
Qed.

(** C4.  [dequeue] returns only an item that has not expired at the time
    of the call, whatever the queue holds (so also before any periodic
    sweep); it returns [null] exactly when dropping the expired items
    leaves nothing; and the [k]-th item of the batch [dequeueBatch]
    returns was unexpired at the reading of the clock of the [k]-th
    [dequeue] of the call, the one that returned it, hence at any time
    not after the clock readings of the call. *)
Theorem C4_dequeue_never_returns_expired (cfg : Config) (now : Z) (q : NotificationQueue.t) :
  (∀ x q', dequeue now q = (Some x, q') → now < QueueItem.expiresAt x) ∧
  ((dequeue now q).1 = None ↔ dropExpired now q = []) ∧
  (∀ clock size k x,
      (dequeueBatch cfg clock size q).1 !! k = Some x →
      clock k < QueueItem.expiresAt x) ∧
  (∀ clock size t0, (∀ i, t0 ≤ clock i) →
      Forall (λ x, t0 < QueueItem.expiresAt x) (dequeueBatch cfg clock size q).1).
Proof.
  assert (∀ clock size k x,
            (dequeueBatch cfg clock size q).1 !! k = Some x →
            clock k < QueueItem.expiresAt x) as Hbatch.
  { intros clock size k x H. unfold dequeueBatch in H.
    apply (dequeueLoop_lookup clock _ 0%nat [] q k x H). }
  split; [|split; [|split]].
  - intros x q' H. apply dequeue_Some in H.
    assert (x ∈ dropExpired now q) as Hx by (rewrite H; left).
    by apply list_elem_of_filter in Hx as [Hx _].
  - unfold dequeue. by destruct (dropExpired now q).
  - exact Hbatch.
  - intros clock size t0 Ht. apply Forall_lookup. intros k x Hk.
    specialize (Hbatch clock size k x Hk). specialize (Ht k). lia.
Qed.

Lemma C4_witness :
  1 < QueueItem.expiresAt (Sample.item "n2" 5 7).
Proof.
  apply (proj1 (proj2 (proj2 (C4_dequeue_never_returns_expired default_config 0
                                [Sample.item "n1" 5 0; Sample.item "n2" 5 7])))
           (λ i, Z.of_nat i) None 1%nat (Sample.item "n2" 5 7)).
  reflexivity.
Defined.

Lemma insert_sorted_Permutation x l : insert_sorted x l ≡ₚ x :: l.
Proof.
  induction l as [|y l IH]; simpl; [done|].
  destruct (compare x y <=? 0); [done|].
  rewrite IH. apply Permutation_swap.
Qed.

Lemma sortQueue_Permutation q : sortQueue q ≡ₚ q.
Proof.
  induction q as [|x q IH]; simpl; [done|].
  by rewrite insert_sorted_Permutation, IH.
Qed.

Lemma sortQueue_length q : length (sortQueue q) = length q.
Proof. by rewrite sortQueue_Permutation. Qed.

(** The three outcomes of [enqueue]. *)
Lemma enqueue_cases cfg now later n q :
  (∃ e, validateNotification n = Throw e ∧ enqueue cfg now later n q = (Throw e, q)) ∨
  (validateNotification n = Ok () ∧ maxQueueSize cfg ≤ size_of q ∧
   ∃ e, eclass e = QueueFullError ∧ enqueue cfg now later n q = (Throw e, q)) ∨
  (validateNotification n = Ok () ∧ size_of q < maxQueueSize cfg ∧
   ∃ item, enqueue cfg now later n q = (Ok item, sortQueue (q ++ [item])) ∧
           QueueItem.notification item = n ∧
           QueueItem.priority item = priority_or_default (Notification.priority n) ∧
           QueueItem.enqueuedAt item = now ∧
           QueueItem.expiresAt item = later + messageExpiry cfg ∧
           QueueItem.attempts item = 0).
Proof.
  unfold enqueue, size_of.
  destruct (validateNotification n) as [[]|e]; [|left; eauto].
  right. destruct (Z.leb_spec (maxQueueSize cfg) (Z.of_nat (length q))).
  - left. split; [done|]. split; [done|]. eexists. split; [|done]. done.
  - right. split; [done|]. split; [done|]. eexists. split; [done|]. done.
Qed.

Lemma step_size cfg tr op :
  0 ≤ maxQueueSize cfg →
  size_of (QueueTrace.queue tr) ≤ maxQueueSize cfg →
  size_of (QueueTrace.queue (QueueTrace.step cfg tr op)) ≤ maxQueueSize cfg.
Proof.
  intros Hmax H. unfold size_of in *.
  destruct op as [now later n|now|clock size| |now]; simpl.
  - destruct (enqueue_cases cfg now later n (QueueTrace.queue tr))
      as [(e & _ & ->)|[(_ & _ & e & _ & ->)|(_ & Hlt & item & -> & _)]]; simpl; [done..|].
    rewrite sortQueue_length, length_app. unfold size_of in Hlt. simpl. lia.
  - destruct (dequeue now (QueueTrace.queue tr)) as [r q'] eqn:E.
    apply dequeue_sublist in E. apply sublist_length in E.
    rewrite length_app in E. destruct r; simpl; lia.
  - pose proof (dequeueBatch_spec cfg clock size (QueueTrace.queue tr)) as [_ S].
    destruct (dequeueBatch cfg clock size (QueueTrace.queue tr)) as [batch q'].
    simpl in *. apply sublist_length in S. rewrite length_app in S. lia.
  - lia.
  - unfold cleanup. pose proof (dropExpired_length now (QueueTrace.queue tr)). lia.
Qed.

(** C3.  [enqueue] of a notification that passes validation, on a queue
    holding at least [maxQueueSize] items, throws [QueueFullError] and
    returns the queue as it was; and from the empty queue no sequence of
    [enqueue], [dequeue], [dequeueBatch], [clear] and sweep calls makes
    [size()] exceed a non-negative [maxQueueSize]. *)
Theorem C3_queue_full_rejects_and_bounds (cfg : Config) :
  (∀ now later n q,
      validateNotification n = Ok () →
      maxQueueSize cfg ≤ size_of q →
      throws QueueFullError (enqueue cfg now later n q).1 ∧
      (enqueue cfg now later n q).2 = q) ∧
  (0 ≤ maxQueueSize cfg →
   ∀ ops, size_of (QueueTrace.queue (QueueTrace.run cfg ops)) ≤ maxQueueSize cfg).
Proof.
  split.
  - intros now later n q Hv Hfull.
    destruct (enqueue_cases cfg now later n q)
      as [(e & Hv' & _)|[(_ & _ & e & He & ->)|(_ & Hlt & _)]];
      [congruence|done|lia].
  - intros Hmax ops. unfold QueueTrace.run.
    induction ops as [|op ops IH] using rev_ind; simpl.
    + unfold size_of. simpl. lia.
    + rewrite foldl_app. simpl. by apply step_size.
Qed.

Lemma C3_witness :
  (throws QueueFullError
     (enqueue (mkConfig 1 3 1000 100 86400000 1000 30000) 7 7
        (Sample.note "n2" (JNum 5)) [Sample.item "n1" 5 0]).1 ∧
   (enqueue (mkConfig 1 3 1000 100 86400000 1000 30000) 7 7
      (Sample.note "n2" (JNum 5)) [Sample.item "n1" 5 0]).2 = [Sample.item "n1" 5 0]) ∧
  size_of (QueueTrace.queue
             (QueueTrace.run (mkConfig 1 3 1000 100 86400000 1000 30000)
                [QueueTrace.Enqueue 0 0 (Sample.note "n1" (JNum 5));
                 QueueTrace.Enqueue 7 7 (Sample.note "n2" (JNum 5))])) ≤ 1.
Proof.
  split.
  - apply (proj1 (C3_queue_full_rejects_and_bounds
                    (mkConfig 1 3 1000 100 86400000 1000 30000))); [reflexivity|].
    vm_compute. discriminate.
  - apply (proj2 (C3_queue_full_rejects_and_bounds
                    (mkConfig 1 3 1000 100 86400000 1000 30000))).
    simpl. lia.
Defined.

(** What [getStats] reports as [oldestMessage]: the age of the last
    element of the array, 0 for the empty queue. *)
Lemma getStats_oldestMessage cfg now q :
  oldestMessage (getStats cfg now q) =
    match last q with
    | Some item => now - QueueItem.enqueuedAt item
    | None => 0
    end.
Proof. reflexivity. Qed.

(** C8 (the code departs from the claim).  Two notifications of priority 5
    are enqueued at times 0 and 10.  At time 20 the age of the
    earliest-enqueued message is 20; [getStats] reports 10, the age of the
    message enqueued last, which the sort has put at the end of the
    array. *)
Theorem C8_oldestMessage_reports_last_item :
  QueueTrace.queue
    (QueueTrace.run default_config
       [QueueTrace.Enqueue 0 0 (Sample.note "n1" (JNum 5));
        QueueTrace.Enqueue 10 10 (Sample.note "n2" (JNum 5))])
  = [Sample.item "n1" 5 0; Sample.item "n2" 5 10] ∧
  oldestMessageAge 20 [Sample.item "n1" 5 0; Sample.item "n2" 5 10] = 20 ∧
  oldestMessage (getStats default_config 20 [Sample.item "n1" 5 0; Sample.item "n2" 5 10])
  = 10.
Proof. vm_compute. done. Qed.

End QueueProperties.

(** ** The queue: priority order and FIFO within a priority band *)

Module OrderingProperties.
Import NotificationQueue QueueTrace Predicates.

Lemma item_le_iff a b :
  item_le a b ↔
    QueueItem.priority b < QueueItem.priority a ∨
    (QueueItem.priority a = QueueItem.priority b ∧
     QueueItem.enqueuedAt a ≤ QueueItem.enqueuedAt b).
Proof.
  unfold item_le, compare.
  destruct (Z.eqb_spec (QueueItem.priority b) (QueueItem.priority a)); simpl; lia.
Qed.

#[local] Instance item_le_trans : Transitive item_le.
Proof. intros a b c. rewrite !item_le_iff. lia. Qed.

Lemma item_le_total a b : ¬ item_le a b → item_le b a.
Proof. rewrite !item_le_iff. lia. Qed.

Lemma item_le_priority a b :
  item_le a b → QueueItem.priority b ≤ QueueItem.priority a.
Proof. rewrite item_le_iff. lia. Qed.

Section ListFacts.
Context {A : Type}.

Lemma sublist_StronglySorted (R : relation A) (l1 l2 : list A) :
  l1 `sublist_of` l2 → StronglySorted R l2 → StronglySorted R l1.
Proof.
  induction 1 as [|x l1 l2 Hs IH|x l1 l2 Hs IH]; intros HS.
  - constructor.
  - apply StronglySorted_cons in HS as [HF HS].
    apply StronglySorted_cons. split; [|by apply IH].
    apply Forall_forall. intros y Hy.
    rewrite Forall_forall in HF. apply HF. by eapply elem_of_sublist.
  - apply StronglySorted_cons in HS as [_ HS]. by apply IH.
Qed.

Lemma sublist_Forall (P : A → Prop) (l1 l2 : list A) :
  l1 `sublist_of` l2 → Forall P l2 → Forall P l1.
Proof.
  intros Hs. rewrite !Forall_forall. intros H x Hx.
  apply H. by eapply elem_of_sublist.
Qed.

Lemma filter_sublist_mono (P : A → Prop) `{!∀ x, Decision (P x)} (l1 l2 : list A) :
  l1 `sublist_of` l2 → filter P l1 `sublist_of` filter P l2.
Proof.
  induction 1 as [|x l1 l2 Hs IH|x l1 l2 Hs IH].
  - done.
  - rewrite !filter_cons. destruct (decide (P x)); [by constructor|done].
  - rewrite filter_cons. destruct (decide (P x)); [by constructor|done].
Qed.

Lemma filter_none (P : A → Prop) `{!∀ x, Decision (P x)} (l : list A) :
  Forall (λ x, ¬ P x) l → filter P l = [].
Proof.
  induction 1 as [|x l Hx _ IH]; [done|].
  by rewrite filter_cons_False.
Qed.
End ListFacts.

(** *** The sort *)

Lemma insert_sorted_head x l :
  StronglySorted item_le (x :: l) → insert_sorted x l = x :: l.
Proof.
  destruct l as [|y l]; [done|]. intros HS. simpl.
  apply StronglySorted_cons in HS as [HF _].
  apply Forall_cons in HF as [Hxy _]. unfold item_le in Hxy.
  destruct (Z.leb_spec (compare x y) 0); [done|lia].
Qed.

Lemma insert_sorted_sorted x l :
  StronglySorted item_le l → StronglySorted item_le (insert_sorted x l).
Proof.
  induction l as [|y l IH]; intros HS; simpl.
  - repeat constructor.
  - destruct (Z.leb_spec (compare x y) 0) as [Hle|Hgt].
    + apply StronglySorted_cons. split; [|done].
      apply StronglySorted_cons in HS as [HF _].
      constructor; [done|].
      eapply Forall_impl; [exact HF|]. intros z Hz. by trans y.
    + apply StronglySorted_cons in HS as [HF HS].
      apply StronglySorted_cons. split; [|by apply IH].
      rewrite QueueProperties.insert_sorted_Permutation.
      constructor; [|done]. apply item_le_total. unfold item_le. lia.
Qed.

Lemma sortQueue_sorted q : StronglySorted item_le (sortQueue q).
Proof.
  induction q as [|x q IH]; simpl; [constructor|].
  by apply insert_sorted_sorted.
Qed.

(** Sorting a sorted queue with one more item pushed at its end, which
    is not older than any item of the queue, puts the new item behind all
    items of at least its priority and before all items of lower
    priority, and moves no other item. *)
Lemma sortQueue_push q x :
  StronglySorted item_le q →
  Forall (λ y, QueueItem.enqueuedAt y ≤ QueueItem.enqueuedAt x) q →
  ∃ l1 l2,
    q = l1 ++ l2 ∧ sortQueue (q ++ [x]) = l1 ++ x :: l2 ∧
    Forall (λ y, QueueItem.priority x ≤ QueueItem.priority y) l1 ∧
    Forall (λ y, QueueItem.priority y < QueueItem.priority x) l2.
Proof.
  induction q as [|y q IH]; intros HS Hold.
  - exists [], []. by repeat split.
  - apply Forall_cons in Hold as [Hy Hold].
    pose proof HS as HS'.
    apply StronglySorted_cons in HS as [HF HS].
    destruct (IH HS Hold) as (l1 & l2 & -> & Hsort & H1 & H2).
    change (sortQueue ((y :: l1 ++ l2) ++ [x]))
      with (insert_sorted y (sortQueue ((l1 ++ l2) ++ [x]))).
    rewrite Hsort.
    destruct (Z.le_gt_cases (QueueItem.priority x) (QueueItem.priority y)) as [Hle|Hlt].
    + exists (y :: l1), l2. split; [done|]. split; [|split; [by constructor|done]].
      apply insert_sorted_head. apply StronglySorted_cons. split.
      * apply Forall_app in HF as [HF1 HF2].
        apply Forall_app. split; [done|]. constructor; [|done].
        apply item_le_iff. lia.
      * rewrite <- Hsort. apply sortQueue_sorted.
    + assert (l1 = []) as ->.
      { destruct l1 as [|z l1]; [done|]. exfalso.
        apply Forall_cons in H1 as [Hz _].
        apply Forall_cons in HF as [Hyz _].
        apply item_le_priority in Hyz. lia. }
      exists [], (y :: l2). simpl in *. split; [done|]. split.
      * destruct (Z.leb_spec (compare y x) 0) as [Hc|Hc].
        -- apply item_le_priority in Hc. lia.
        -- by rewrite insert_sorted_head.
      * split; [done|]. constructor; [lia|]. done.
Qed.

(** *** The invariant of a sequence of calls *)

Lemma ordered_times times times' tr :
  times ⊆ times' → ordered times tr → ordered times' tr.
Proof.
  intros Hsub (HS & HT & HB). split; [done|]. split; [|done].
  eapply Forall_impl; [exact HT|]. intros y Hy. by apply Hsub.
Qed.

(** Calls that only take items from the front part of the queue, or drop
    items, keep the invariant. *)
Lemma ordered_take times tr extra q' :
  ordered times tr →
  extra ++ q' `sublist_of` queue tr →
  ordered times (QueueTrace.mk q' (enqueued tr) (dequeued tr ++ extra)).
Proof.
  intros (HS & HT & HB) Hsub.
  assert (q' `sublist_of` queue tr) as Hq'.
  { etrans; [|exact Hsub]. by apply sublist_inserts_l. }
  split; [|split]; simpl.
  - by eapply sublist_StronglySorted.
  - by eapply sublist_Forall.
  - intros p. etrans; [|apply HB]. apply filter_sublist_mono.
    rewrite <- app_assoc. by apply sublist_app.
Qed.

Lemma ordered_enqueue cfg times tr now later n :
  ordered times tr →
  Forall (λ t, t ≤ now) times →
  ordered (times ++ [now]) (step cfg tr (Enqueue now later n)).
Proof.
  intros Hinv Hnow. simpl.
  destruct (QueueProperties.enqueue_cases cfg now later n (queue tr))
    as [(e & _ & ->)|[(_ & _ & e & _ & ->)|(_ & _ & item & -> & _ & Hp & Ht & _)]].
  - destruct tr. eapply ordered_times; [|exact Hinv]. set_solver.
  - destruct tr. eapply ordered_times; [|exact Hinv]. set_solver.
  - destruct Hinv as (HS & HT & HB).
    destruct (sortQueue_push (queue tr) item HS) as (l1 & l2 & Hq & Hsort & H1 & H2).
    { eapply Forall_impl; [exact HT|]. intros y Hy. rewrite Ht.
      rewrite Forall_forall in Hnow. by apply Hnow. }
    split; [|split]; simpl.
    + apply sortQueue_sorted.
    + rewrite QueueProperties.sortQueue_Permutation.
      apply Forall_app. split.
      * eapply Forall_impl; [exact HT|]. intros y Hy. set_solver.
      * constructor; [|done]. rewrite Ht. set_solver.
    + intros p. specialize (HB p). rewrite Hq in HB. rewrite Hsort.
      unfold band in *.
      rewrite !filter_app, filter_cons in *.
      destruct (decide (QueueItem.priority item = p)) as [Hpi|Hpi].
      * rewrite (filter_none _ l2) in *.
        2,3: eapply Forall_impl; [exact H2|]; intros y Hy; simpl in *; lia.
        rewrite filter_singleton_True by done.
        rewrite !app_nil_r in HB.
        rewrite (app_assoc _ _ [item]). by apply sublist_app.
      * rewrite filter_singleton_False by done. rewrite app_nil_r. done.
Qed.

Lemma ordered_drop times tr q' :
  ordered times tr →
  q' `sublist_of` queue tr →
  ordered times (QueueTrace.mk q' (enqueued tr) (dequeued tr)).
Proof.
  intros Hinv Hsub.
  pose proof (ordered_take times tr [] q' Hinv Hsub) as H.
  by rewrite (app_nil_r (dequeued tr)) in H.
Qed.

Lemma ordered_step cfg times tr op :
  ordered times tr →
  Forall (λ t, Forall (λ t', t ≤ t') (enqueueTimes [op])) times →
  ordered (times ++ enqueueTimes [op]) (step cfg tr op).
Proof.
  intros Hinv Hmono.
  destruct op as [now later n|now|clock size| |now].
  - apply ordered_enqueue; [done|].
    eapply Forall_impl; [exact Hmono|]. intros t Ht. simpl in Ht.
    by apply Forall_cons in Ht as [Ht _].
  - simpl. rewrite app_nil_r.
    destruct (dequeue now (queue tr)) as [r q'] eqn:E.
    apply QueueProperties.dequeue_sublist in E.
    destruct r as [x|]; simpl in E.
    + by apply (ordered_take times tr [x] q').
    + by apply ordered_drop.
  - simpl. rewrite app_nil_r.
    pose proof (QueueProperties.dequeueBatch_spec cfg clock size (queue tr)) as [_ S].
    destruct (dequeueBatch cfg clock size (queue tr)) as [batch q']. simpl in S.
    by apply ordered_take.
  - simpl. rewrite app_nil_r. apply ordered_drop; [done|]. apply sublist_nil_l.
  - simpl. rewrite app_nil_r. apply ordered_drop; [done|].
    apply QueueProperties.dropExpired_sublist.
Qed.

Lemma run_ordered cfg ops :
  StronglySorted Z.le (enqueueTimes ops) →
  ordered (enqueueTimes ops) (run cfg ops).
Proof.
  unfold run. induction ops as [|op ops IH] using rev_ind; intros Hmono.
  - split; [constructor|]. split; [constructor|]. intros p. done.
  - unfold enqueueTimes in *. rewrite omap_app in *. rewrite foldl_app. simpl foldl.
    apply StronglySorted_app in Hmono as (Hcross & Hops & _).
    apply ordered_step; [by apply IH|].
    apply Forall_forall. intros t Ht. apply Forall_forall. intros t' Ht'.
    by apply Hcross.
Qed.

(** The queue is sorted by the comparator after any sequence of calls,
    whatever the clock does. *)
Lemma run_sorted cfg ops : StronglySorted item_le (queue (run cfg ops)).
Proof.
  unfold run. induction ops as [|op ops IH] using rev_ind; [constructor|].
  rewrite foldl_app. cbn [foldl].
  set (tr := foldl (step cfg) init ops) in *.
  destruct op as [now later n|now|clock size| |now]; simpl.
  - destruct (QueueProperties.enqueue_cases cfg now later n (queue tr))
      as [(e & _ & ->)|[(_ & _ & e & _ & ->)|(_ & _ & item & -> & _)]]; simpl;
      [done..|apply sortQueue_sorted].
  - destruct (dequeue now (queue tr)) as [r q'] eqn:E.
    apply QueueProperties.dequeue_sublist in E.
    assert (q' `sublist_of` queue tr) as Hq'
      by (etrans; [|exact E]; by apply sublist_inserts_l).
    destruct r; simpl; by eapply sublist_StronglySorted.
  - pose proof (QueueProperties.dequeueBatch_spec cfg clock size (queue tr)) as [_ S].
    destruct (dequeueBatch cfg clock size (queue tr)) as [batch q']. simpl in *.
    eapply sublist_StronglySorted; [|exact IH].
    etrans; [|exact S]. by apply sublist_inserts_l.
  - constructor.
  - eapply sublist_StronglySorted; [|exact IH].
    apply QueueProperties.dropExpired_sublist.
Qed.

(** C2 (the claim fails as stated).  The comparator orders a priority
    band by [enqueuedAt], the reading of the clock, and not by the order
    of the calls.  Two notifications of priority 5 are enqueued, the first
    while the clock reads 10, the second after the clock was set back,
    while it reads 5: [dequeue] returns the second before the first. *)
Lemma C2_counterexample :
  enqueued (run default_config
              [Enqueue 10 10 (Sample.note "a" (JNum 5));
               Enqueue 5 5 (Sample.note "b" (JNum 5));
               Dequeue 20; Dequeue 20])
  = [Sample.item "a" 5 10; Sample.item "b" 5 5] ∧
  dequeued (run default_config
              [Enqueue 10 10 (Sample.note "a" (JNum 5));
               Enqueue 5 5 (Sample.note "b" (JNum 5));
               Dequeue 20; Dequeue 20])
  = [Sample.item "b" 5 5; Sample.item "a" 5 10].
Proof. vm_compute. done. Qed.

(** C2 (as amended).  After any sequence of queue calls, whenever the
    queue holds an item [y] that is unexpired at [now], [dequeue] at [now]
    returns an item [x] and removes it: the queue it leaves is the rest of
    the unexpired items, in their order.  The priority of [x] is at least
    that of [y], so that of two unexpired items the one of strictly higher
    priority leaves first, whatever the order of insertion; and if [y] has
    the priority of [x] it was not enqueued at an earlier reading of the
    clock.  If moreover the readings of the clock stored by the [enqueue]
    calls do not decrease from one call to the next, then within each
    priority band the items returned by [dequeue] and [dequeueBatch] come
    out in the order in which they were enqueued, and every item of the
    returned item's priority that stays behind was enqueued after it. *)
Theorem C2_priority_then_fifo (cfg : Config) (ops : list Op) :
  (∀ now y,
      y ∈ queue (run cfg ops) → now < QueueItem.expiresAt y →
      ∃ x q',
        dequeue now (queue (run cfg ops)) = (Some x, q') ∧
        dropExpired now (queue (run cfg ops)) = x :: q' ∧
        QueueItem.priority y ≤ QueueItem.priority x ∧
        (QueueItem.priority y = QueueItem.priority x →
         QueueItem.enqueuedAt x ≤ QueueItem.enqueuedAt y)) ∧
  (StronglySorted Z.le (enqueueTimes ops) →
   (∀ p, band p (dequeued (run cfg ops)) `sublist_of` band p (enqueued (run cfg ops))) ∧
   (∀ now x q',
       dequeue now (queue (run cfg ops)) = (Some x, q') →
       ∀ y, y ∈ q' → QueueItem.priority y = QueueItem.priority x →
            [x; y] `sublist_of` enqueued (run cfg ops))).
Proof.
  split.
  - intros now y Hy Hexp.
    assert (y ∈ dropExpired now (queue (run cfg ops))) as Hin
      by (apply list_elem_of_filter; by split).
    pose proof (QueueProperties.dropExpired_sublist now (queue (run cfg ops))) as Hsub.
    unfold dequeue.
    destruct (dropExpired now (queue (run cfg ops))) as [|x q'] eqn:Hdq;
      [by apply not_elem_of_nil in Hin|].
    exists x, q'. split; [done|]. split; [done|].
    pose proof (sublist_StronglySorted _ _ _ Hsub (run_sorted cfg ops)) as HS'.
    apply StronglySorted_cons in HS' as [HF _]. rewrite Forall_forall in HF.
    apply elem_of_cons in Hin as [->|Hin]; [split; [lia|done]|].
    specialize (HF y Hin). apply item_le_iff in HF. lia.
  - intros Hmono. destruct (run_ordered cfg ops Hmono) as (_ & _ & HB). split.
    + intros p. etrans; [|apply HB]. apply filter_sublist_mono.
      by apply sublist_inserts_r.
    + intros now x q' Hdq y Hy Hp. apply QueueProperties.dequeue_Some in Hdq.
      pose proof (QueueProperties.dropExpired_sublist now (queue (run cfg ops))) as Hsub.
      rewrite Hdq in Hsub.
      assert ([x; y] `sublist_of` x :: q') as Hxy.
      { constructor. by apply singleton_sublist_l. }
      assert (band (QueueItem.priority x) [x; y] = [x; y]) as Hband.
      { unfold band. rewrite filter_cons_True by done.
        by rewrite filter_singleton_True. }
      rewrite <- Hband.
      etrans; [|apply (sublist_filter (λ item, QueueItem.priority item = QueueItem.priority x))].
      etrans; [|apply (HB (QueueItem.priority x))].
      apply filter_sublist_mono. apply sublist_inserts_l.
      by etrans.
Qed.

Lemma C2_witness :
  (∃ x q',
     dequeue 3 (queue (run default_config
                         [Enqueue 0 0 (Sample.note "a" (JNum 5));
                          Enqueue 0 1 (Sample.note "b" (JNum 5));
                          Dequeue 1;
                          Enqueue 2 2 (Sample.note "c" (JNum 9))])) = (Some x, q') ∧
     dropExpired 3 (queue (run default_config
                             [Enqueue 0 0 (Sample.note "a" (JNum 5));
                              Enqueue 0 1 (Sample.note "b" (JNum 5));
                              Dequeue 1;
                              Enqueue 2 2 (Sample.note "c" (JNum 9))])) = x :: q' ∧
     QueueItem.priority (Sample.item "c" 9 2) ≤ QueueItem.priority x ∧
     (QueueItem.priority (Sample.item "c" 9 2) = QueueItem.priority x →
      QueueItem.enqueuedAt x ≤ QueueItem.enqueuedAt (Sample.item "c" 9 2))) ∧
  band 5 (dequeued (run default_config
                      [Enqueue 0 0 (Sample.note "a" (JNum 5));
                       Enqueue 0 1 (Sample.note "b" (JNum 5));
                       Dequeue 1;
                       Enqueue 2 2 (Sample.note "c" (JNum 9))]))
    `sublist_of`
  band 5 (enqueued (run default_config
                      [Enqueue 0 0 (Sample.note "a" (JNum 5));
                       Enqueue 0 1 (Sample.note "b" (JNum 5));
                       Dequeue 1;
                       Enqueue 2 2 (Sample.note "c" (JNum 9))])).
Proof.
  split.
  - apply (proj1 (C2_priority_then_fifo default_config _) 3 (Sample.item "c" 9 2)).
    + vm_compute. left.
    + reflexivity.
  - refine (proj1 (proj2 (C2_priority_then_fifo default_config _) _) 5).
    simpl. repeat constructor; lia.
Defined.

(** Three notifications of priority 5 enqueued within the same
    millisecond, then one of priority 9: the latter leaves first, the
    others in the order of their [enqueue] calls. *)
Example same_priority_fifo :
  dequeued (run default_config
              [Enqueue 0 0 (Sample.note "a" (JNum 5));
               Enqueue 0 0 (Sample.note "b" (JNum 5));
               Enqueue 0 0 (Sample.note "c" (JNum 5));
               Enqueue 1 1 (Sample.note "d" (JNum 9));
               DequeueBatch (λ _, 2) None])
  = [Sample.item "d" 9 1; Sample.item "a" 5 0; Sample.item "b" 5 0; Sample.item "c" 5 0].
Proof. vm_compute. reflexivity. Qed.

End OrderingProperties.

(** ** The connection registry *)

Module RegistryProperties.
Import ClientManager Predicates.

Lemma truthy_JStr key : truthy (JStr key) = true ↔ key ≠ EmptyString.
Proof.
  simpl. destruct (String.eqb_spec key EmptyString); simpl; naive_solver.
Qed.

Lemma getClient_Some cm apiKey key client :
  getClient cm apiKey = Some (key, client) ↔
    apiKey = JStr key ∧ apiKeys cm !! key = Some client.
Proof.
  unfold getClient.
  destruct apiKey as [| | | |s|]; simpl; try (split; [done|intros [? _]; done]).
  destruct (apiKeys cm !! s) as [cl|] eqn:E; simpl; split.
  - by intros [= -> ->].
  - intros [[= ->] Hk]. rewrite E in Hk. by injection Hk as ->.
  - done.
  - intros [[= ->] Hk]. congruence.
Qed.

(** The outcomes of [registerConnection]: it throws and returns the
    registry as it was, or the key is a known non-empty string under its
    limit and the connection is registered. *)
Lemma registerConnection_cases cfg now connectionId apiKey cm :
  (∃ e, registerConnection cfg now connectionId apiKey cm = (Throw e, cm)) ∨
  (∃ key client,
      apiKey = JStr key ∧ key ≠ EmptyString ∧ apiKeys cm !! key = Some client ∧
      Z.of_nat (size (Client.connections client)) < maxClientsPerApiKey cfg ∧
      registerConnection cfg now connectionId apiKey cm
      = (Ok true, registered now connectionId key client cm)).
Proof.
  unfold registerConnection, validateApiKey.
  destruct (negb (truthy apiKey) || negb (is_string apiKey)) eqn:Hfmt; [left; eauto|].
  destruct (getClient cm apiKey) as [[key client]|] eqn:Hget; [|left; eauto].
  apply getClient_Some in Hget as [-> Hkey].
  destruct (Z.leb_spec (maxClientsPerApiKey cfg) (Z.of_nat (size (Client.connections client))));
    [left; eauto|].
  right. exists key, client. split; [done|]. split; [|done].
  apply truthy_JStr. apply orb_false_iff in Hfmt as [Ht _].
  by apply negb_false_iff in Ht.
Qed.

Lemma registerConnection_known cfg now connectionId key client cm :
  key ≠ EmptyString → apiKeys cm !! key = Some client →
  registerConnection cfg now connectionId (JStr key) cm =
    if maxClientsPerApiKey cfg <=? Z.of_nat (size (Client.connections client)) then
      (Throw (mkError ValidationError
                ("Maximum connections (" +:+ pretty (maxClientsPerApiKey cfg)
                   +:+ ") reached for this API key")), cm)
    else (Ok true, registered now connectionId key client cm).
Proof.
  intros Hne Hkey. unfold registerConnection, validateApiKey.
  apply truthy_JStr in Hne. rewrite Hne. simpl negb. simpl orb.
  assert (getClient cm (JStr key) = Some (key, client)) as ->
    by by apply getClient_Some.
  done.
Qed.

(** C5.  For a key of the registry (a non-empty string, as
    [validateApiKey] demands) whose connection set has reached the per-key
    maximum, [registerConnection] throws [ValidationError] and returns the
    registry unchanged: the key's connection set, its counters and the
    connection map are as before.  Under the limit it returns [true]; the
    key's connection set gains the connection id, its lifetime connection
    counter grows by one, its last-activity time is the time of the
    call, and the connection map records the connection under this key
    with no subscription. *)
Theorem C5_registerConnection_limit (cfg : Config) (now : Z) (connectionId key : string)
    (client : Client.t) (cm : t) :
  key ≠ EmptyString →
  apiKeys cm !! key = Some client →
  (maxClientsPerApiKey cfg ≤ Z.of_nat (size (Client.connections client)) →
     throws ValidationError (registerConnection cfg now connectionId (JStr key) cm).1 ∧
     (registerConnection cfg now connectionId (JStr key) cm).2 = cm) ∧
  (Z.of_nat (size (Client.connections client)) < maxClientsPerApiKey cfg →
     ∃ cm' client',
       registerConnection cfg now connectionId (JStr key) cm = (Ok true, cm') ∧
       apiKeys cm' !! key = Some client' ∧
       Client.connections client' = {[connectionId]} ∪ Client.connections client ∧
       Stats.totalConnections (Client.stats client')
         = Stats.totalConnections (Client.stats client) + 1 ∧
       Stats.lastActivity (Client.stats client') = now ∧
       connections cm' !! connectionId
         = Some {| Connection.apiKey := key; Connection.channels := ∅;
                   Connection.connectedAt := now |}).
Proof.
  intros Hne Hkey.
  rewrite (registerConnection_known cfg now connectionId key client cm Hne Hkey).
  split; intros Hsize.
  - destruct (Z.leb_spec (maxClientsPerApiKey cfg)
                (Z.of_nat (size (Client.connections client)))); [done|lia].
  - destruct (Z.leb_spec (maxClientsPerApiKey cfg)
                (Z.of_nat (size (Client.connections client)))); [lia|].
    eexists _, _. split; [done|]. simpl.
    rewrite !lookup_insert_eq. done.
Qed.

Lemma C5_witness :
  throws ValidationError
    (registerConnection (mkConfig 10000 3 1000 100 86400000 1 30000) 7 "c2" (JStr "key-A")
       {| apiKeys := <["key-A" := Sample.client "alice" {["c1"]}]> ∅;
          connections := ∅ |}).1 ∧
  (registerConnection (mkConfig 10000 3 1000 100 86400000 1 30000) 7 "c2" (JStr "key-A")
     {| apiKeys := <["key-A" := Sample.client "alice" {["c1"]}]> ∅;
        connections := ∅ |}).2
  = {| apiKeys := <["key-A" := Sample.client "alice" {["c1"]}]> ∅; connections := ∅ |}.
Proof.
  apply (proj1 (C5_registerConnection_limit (mkConfig 10000 3 1000 100 86400000 1 30000)
                  7 "c2" "key-A" (Sample.client "alice" {["c1"]})
                  {| apiKeys := <["key-A" := Sample.client "alice" {["c1"]}]> ∅;
                     connections := ∅ |} ltac:(discriminate) ltac:(reflexivity))).
  vm_compute. discriminate.
Defined.

(** *** Channel lookup *)

Lemma elem_of_getConnectionsByChannel cm channel c :
  c ∈ getConnectionsByChannel cm channel ↔
    ∃ conn, connections cm !! c = Some conn ∧ hasChannel channel conn = true.
Proof.
  unfold getConnectionsByChannel. rewrite list_elem_of_fmap. split.
  - intros ([c' conn] & -> & Hin). apply list_elem_of_filter in Hin as [Hch Hin].
    apply elem_of_map_to_list in Hin. eauto.
  - intros (conn & Hc & Hch). exists (c, conn). split; [done|].
    apply list_elem_of_filter. split; [done|]. by apply elem_of_map_to_list.
Qed.

Lemma hasChannel_true channel conn :
  hasChannel channel conn = true ↔
    ∃ ch, channel = JStr ch ∧ ch ∈ Connection.channels conn.
Proof.
  unfold hasChannel. destruct channel as [| | | |s|]; simpl;
    try (split; [done|intros (ch & ? & _); done]).
  rewrite bool_decide_eq_true. split; [eauto|]. by intros (ch & [= <-] & H).
Qed.

(** The loop of [revokeApiKey] removes exactly the ids of the set. *)
Lemma lookup_foldr_delete (conns : gmap string Connection.t) c (l : list string) :
  foldr (λ connectionId m, delete connectionId m) conns l !! c
  = if decide (c ∈ l) then None else conns !! c.
Proof.
  induction l as [|x l IH]; [done|].
  cbn [foldr]. rewrite lookup_delete, IH.
  destruct (decide (x = c)) as [->|Hne].
  - destruct (decide (c ∈ c :: l)) as [|H]; [done|]. exfalso. apply H. left.
  - destruct (decide (c ∈ l)) as [H1|H1], (decide (c ∈ x :: l)) as [H2|H2];
      try done; exfalso.
    + apply H2. by right.
    + apply elem_of_cons in H2 as [->|H2]; done.
Qed.

Lemma lookup_delete_all (conns : gmap string Connection.t) (ids : gset string) c :
  set_fold (λ connectionId m, delete connectionId m) conns ids !! c
  = if decide (c ∈ ids) then None else conns !! c.
Proof.
  unfold set_fold. simpl. rewrite lookup_foldr_delete.
  destruct (decide (c ∈ elements ids)) as [H1|H1], (decide (c ∈ ids)) as [H2|H2];
    try done; exfalso.
  - apply H2. by apply elem_of_elements.
  - apply H1. by apply elem_of_elements.
Qed.

(** *** Ownership in reachable registries *)

Lemma step_owned cfg cm op : owned cm → owned (RegistryTrace.step cfg cm op).
Proof.
  intros Hinv.
  destruct op as [now c apiKey|c|c channel|c channel|apiKey]; simpl.
  - destruct (registerConnection_cases cfg now c apiKey cm)
      as [[e ->]|(key & client & -> & _ & Hkey & _ & ->)]; [done|].
    intros c' conn'. simpl. rewrite lookup_insert.
    destruct (decide (c = c')) as [<-|Hne].
    + intros [= <-]. simpl. rewrite lookup_insert_eq. eexists. split; [done|].
      simpl. set_solver.
    + intros Hc'. destruct (Hinv c' conn' Hc') as (cl & Hcl & Hin).
      rewrite lookup_insert. destruct (decide (key = Connection.apiKey conn')) as [Hk|Hk].
      * eexists. split; [done|]. simpl. rewrite <- Hk in Hcl.
        assert (cl = client) as -> by congruence. set_solver.
      * eauto.
  - unfold unregisterConnection.
    destruct (connections cm !! c) as [conn|] eqn:Hc; [|done].
    intros c' conn'. simpl. rewrite lookup_delete.
    destruct (decide (c = c')) as [<-|Hne]; [done|].
    intros Hc'. destruct (Hinv c' conn' Hc') as (cl & Hcl & Hin).
    rewrite lookup_alter.
    destruct (decide (Connection.apiKey conn = Connection.apiKey conn')) as [Hk|Hk].
    + rewrite Hk, Hcl. eexists. split; [done|]. simpl.
      apply elem_of_difference. split; [done|]. by apply not_elem_of_singleton.
    + eauto.
  - unfold subscribeToChannel.
    destruct (connections cm !! c) as [conn|] eqn:Hc; [|done].
    destruct channel as [| | | |ch|]; try done.
    destruct (negb (truthy (JStr ch))); [done|].
    intros c' conn'. simpl. rewrite lookup_insert.
    destruct (decide (c = c')) as [<-|Hne]; [|by apply Hinv].
    intros [= <-]. simpl. by apply (Hinv c conn).
  - unfold unsubscribeFromChannel.
    destruct (connections cm !! c) as [conn|] eqn:Hc; [|done].
    intros c' conn'. simpl. rewrite lookup_insert.
    destruct (decide (c = c')) as [<-|Hne]; [|by apply Hinv].
    intros [= <-].
    replace (Connection.apiKey (dropChannel channel conn)) with (Connection.apiKey conn)
      by (unfold dropChannel; by destruct (as_string channel)).
    by apply (Hinv c conn).
  - unfold revokeApiKey.
    destruct (getClient cm apiKey) as [[key client]|] eqn:Hget; [|done].
    apply getClient_Some in Hget as [-> Hkey].
    intros c' conn'. simpl. rewrite lookup_delete_all.
    destruct (decide (c' ∈ Client.connections client)) as [Hin|Hnin]; [done|].
    intros Hc'. destruct (Hinv c' conn' Hc') as (cl & Hcl & Hin).
    rewrite lookup_delete.
    destruct (decide (key = Connection.apiKey conn')) as [Hk|Hk]; [|eauto].
    rewrite <- Hk in Hcl. assert (cl = client) as -> by congruence. done.
Qed.

Lemma run_owned cfg ops cm :
  RegistryTrace.initial cm → owned (RegistryTrace.run cfg ops cm).
Proof.
  intros [Hempty _]. unfold RegistryTrace.run.
  induction ops as [|op ops IH] using rev_ind.
  - intros c conn. simpl. by rewrite Hempty, lookup_empty.
  - rewrite foldl_app. simpl. by apply step_owned.
Qed.

(** C6.  In every registry reached from its initial state by
    [registerConnection], [subscribeToChannel], [unsubscribeFromChannel],
    [unregisterConnection] and [revokeApiKey] calls: (1) the ids
    [getConnectionsByChannel] returns for a channel are exactly the ids of
    the connection map whose subscription set has the channel, so none of
    them is missing from the map; (2) after [unregisterConnection] of a
    connection no channel lists it; (3) after [revokeApiKey] no channel
    lists a connection that was in the key's connection set or that the
    map recorded under the key. *)
Theorem C6_channel_index_agrees (cfg : Config) (ops : list RegistryTrace.Op) (cm0 : t) :
  RegistryTrace.initial cm0 →
  (∀ channel c,
      c ∈ getConnectionsByChannel (RegistryTrace.run cfg ops cm0) channel ↔
      ∃ conn ch, connections (RegistryTrace.run cfg ops cm0) !! c = Some conn ∧
                 channel = JStr ch ∧ ch ∈ Connection.channels conn) ∧
  (∀ channel c,
      c ∉ getConnectionsByChannel
            (unregisterConnection c (RegistryTrace.run cfg ops cm0)).2 channel) ∧
  (∀ channel c key client,
      apiKeys (RegistryTrace.run cfg ops cm0) !! key = Some client →
      (c ∈ Client.connections client ∨
       ∃ conn, connections (RegistryTrace.run cfg ops cm0) !! c = Some conn ∧
               Connection.apiKey conn = key) →
      c ∉ getConnectionsByChannel
            (revokeApiKey (JStr key) (RegistryTrace.run cfg ops cm0)).2 channel).
Proof.
  intros Hinit. pose proof (run_owned cfg ops cm0 Hinit) as Hown.
  set (cm := RegistryTrace.run cfg ops cm0) in *. split; [|split].
  - intros channel c. rewrite elem_of_getConnectionsByChannel. split.
    + intros (conn & Hc & Hch). apply hasChannel_true in Hch as (ch & -> & Hin). eauto.
    + intros (conn & ch & Hc & -> & Hin). exists conn. split; [done|].
      apply hasChannel_true. eauto.
  - intros channel c. rewrite elem_of_getConnectionsByChannel.
    intros (conn & Hc & _). unfold unregisterConnection in Hc.
    destruct (connections cm !! c) as [conn0|] eqn:E; simpl in Hc.
    + by rewrite lookup_delete_eq in Hc.
    + congruence.
  - intros channel c key client Hkey Hc. rewrite elem_of_getConnectionsByChannel.
    intros (conn & Hlook & _).
    assert (c ∈ Client.connections client) as Hin.
    { destruct Hc as [Hin|(conn0 & Hc0 & Hk)]; [done|].
      destruct (Hown c conn0 Hc0) as (cl & Hcl & Hin). congruence. }
    unfold revokeApiKey in Hlook.
    assert (getClient cm (JStr key) = Some (key, client)) as Hget
      by by apply getClient_Some.
    rewrite Hget in Hlook. simpl in Hlook.
    rewrite lookup_delete_all in Hlook. by rewrite decide_True in Hlook.
Qed.

Lemma sample_registry_initial : RegistryTrace.initial Sample.registry.
Proof.
  split; [done|]. intros key client. unfold Sample.registry. simpl.
  rewrite lookup_insert. destruct (decide ("key-A" = key)); [by intros [= <-]|].
  rewrite lookup_insert. destruct (decide ("key-B" = key)); [by intros [= <-]|].
  by rewrite lookup_empty.
Qed.

Lemma C6_witness :
  "c1" ∉ getConnectionsByChannel
           (revokeApiKey (JStr "key-A")
              (RegistryTrace.run default_config
                 [RegistryTrace.Register 1 "c1" (JStr "key-A");
                  RegistryTrace.Subscribe "c1" (JStr "updates")]
                 Sample.registry)).2 (JStr "updates").
Proof.
  eapply (proj2 (proj2 (C6_channel_index_agrees default_config
                          [RegistryTrace.Register 1 "c1" (JStr "key-A");
                           RegistryTrace.Subscribe "c1" (JStr "updates")]
                          Sample.registry sample_registry_initial))).
  - reflexivity.
  - right. eexists. split; reflexivity.
Defined.

End RegistryProperties.


(** ** The protocol handler *)

Module ProtocolProperties.
Import WsServer.

(** C7 (the code departs from the claim).  A connection authenticates with
    [key-A] and then sends a second [authenticate] frame with [key-B], both
    keys of the registry.  The second frame is answered with success and
    the socket stays open; afterwards the connection id is in the
    connection sets of both keys, the connection map records it under
    [key-B], and the handler still holds [key-A].  When the socket closes,
    the id stays in the connection set of [key-A]. *)
Theorem C7_second_authenticate_two_owners :
  let auth key := ClientMessage.mk (JStr "authenticate") (JStr key) JUndefined in
  let '(s0, ws0) := handleConnection "c1" in
  let '(s1, cm1, ws1) := onMessage default_config 1 (auth "key-A") s0 Sample.registry ws0 in
  let '(s2, cm2, ws2) := onMessage default_config 2 (auth "key-B") s1 cm1 ws1 in
  let cm3 := (ClientManager.unregisterConnection "c1" cm2).2 in
  Client.connections <$> ClientManager.apiKeys cm2 !! "key-A" = Some {["c1"]} ∧
  Client.connections <$> ClientManager.apiKeys cm2 !! "key-B" = Some {["c1"]} ∧
  Connection.apiKey <$> ClientManager.connections cm2 !! "c1" = Some "key-B" ∧
  Session.apiKey s2 = JStr "key-A" ∧
  Socket.readyState ws2 = OPEN ∧
  last (Socket.sent ws2) = Some (MsgAuthenticated true "Successfully authenticated") ∧
  ClientManager.connections cm3 !! "c1" = None ∧
  Client.connections <$> ClientManager.apiKeys cm3 !! "key-A" = Some {["c1"]}.
Proof. vm_compute. repeat split; reflexivity. Qed.

(** C9.  A [subscribe] or [unsubscribe] frame on a connection that has not
    authenticated makes [#handleMessage] throw
    [AuthenticationError("Not authenticated")]; the listener leaves the
    session variables and the registry as they were and hands the error to
    [handleWebSocketError], which writes the error object to this socket
    when it is open and never closes it. *)
Theorem C9_unauthenticated_subscribe (cfg : Config) (now : Z) (message : ClientMessage.t)
    (session : Session.t) (cm : ClientManager.t) (ws : Socket.t) :
  Session.isAuthenticated session = false →
  ClientMessage.type message = JStr "subscribe" ∨
  ClientMessage.type message = JStr "unsubscribe" →
  (handleMessage cfg now message (Session.connectionId session) (Session.apiKey session)
     (Session.isAuthenticated session) cm ws).1.1
    = Throw (mkError AuthenticationError "Not authenticated") ∧
  (onMessage cfg now message session cm ws).1.1 = session ∧
  (onMessage cfg now message session cm ws).1.2 = cm ∧
  Socket.readyState (onMessage cfg now message session cm ws).2 = Socket.readyState ws ∧
  (Socket.readyState ws = OPEN →
   (onMessage cfg now message session cm ws).2
   = Socket.send (MsgError "AuthenticationError" "Not authenticated"
                    "AUTHENTICATION_ERROR" (Some 401)) ws).
Proof.
  intros Hauth Htype. unfold onMessage, handleMessage.
  rewrite Hauth. destruct Htype as [-> | ->]; simpl.
  - unfold ErrorHandler.handleWebSocketError.
    destruct (decide (Socket.readyState ws = OPEN)) as [Hopen|Hclosed]; simpl.
    + repeat split; done.
    + repeat split; done.
  - unfold ErrorHandler.handleWebSocketError.
    destruct (decide (Socket.readyState ws = OPEN)) as [Hopen|Hclosed]; simpl.
    + repeat split; done.
    + repeat split; done.
Qed.

Lemma sendMessage_readyState m ws :
  Socket.readyState (sendMessage m ws) = Socket.readyState ws.
Proof. unfold sendMessage. by destruct (decide (Socket.readyState ws = OPEN)). Qed.

Lemma handleWebSocketError_readyState e ws :
  Socket.readyState (ErrorHandler.handleWebSocketError e ws) = Socket.readyState ws.
Proof.
  unfold ErrorHandler.handleWebSocketError.
  by destruct (decide (Socket.readyState ws = OPEN)).
Qed.

(** No frame other than [authenticate] changes the state of the socket:
    all other failures are answered on the socket and leave it as it is. *)
Lemma onMessage_readyState cfg now message session cm ws :
  isAuthenticate message = false →
  Socket.readyState (onMessage cfg now message session cm ws).2 = Socket.readyState ws.
Proof.
  unfold onMessage, handleMessage, isAuthenticate. intros ->. cbn [andb].
  destruct (is_literal "subscribe" (ClientMessage.type message)).
  { destruct (Session.isAuthenticated session); simpl.
    - unfold handleSubscribe.
      destruct (ClientManager.subscribeToChannel _ _ _) as [[?|e] cm']; simpl.
      + apply sendMessage_readyState.
      + by rewrite handleWebSocketError_readyState, sendMessage_readyState.
    - apply handleWebSocketError_readyState. }
  destruct (is_literal "unsubscribe" (ClientMessage.type message)).
  { destruct (Session.isAuthenticated session); simpl.
    - unfold handleUnsubscribe.
      destruct (ClientManager.unsubscribeFromChannel _ _ _) as [? cm']; simpl.
      apply sendMessage_readyState.
    - apply handleWebSocketError_readyState. }
  destruct (is_literal "ping" (ClientMessage.type message)); simpl.
  - apply sendMessage_readyState.
  - apply handleWebSocketError_readyState.
Qed.

Lemma C9_witness :
  (onMessage default_config 5 (ClientMessage.mk (JStr "subscribe") JUndefined (JStr "x"))
     (handleConnection "c1").1 Sample.registry (handleConnection "c1").2).1.2
  = Sample.registry.
Proof.
  apply (C9_unauthenticated_subscribe default_config 5
           (ClientMessage.mk (JStr "subscribe") JUndefined (JStr "x"))
           (handleConnection "c1").1 Sample.registry (handleConnection "c1").2).
  - reflexivity.
  - left. reflexivity.
Defined.

End ProtocolProperties.

(** ** The delivery engine *)

Module EngineProperties.
Import NotificationService.

Lemma js_or_zero : js_or (JNum 0) (JNum 5) = JNum 5.
Proof. reflexivity. Qed.

(** A notification built from a non-empty id, a truthy channel and truthy
    data with priority 0 passes [#validateNotification]. *)
Lemma createNotification_zero_valid now uuid channel data apiKey excludeConnection :
  uuid ≠ EmptyString → truthy channel = true → truthy data = true →
  NotificationQueue.validateNotification
    (createNotification now uuid channel data (JNum 0) apiKey excludeConnection) = Ok ().
Proof.
  intros Hid Hch Hdata. unfold NotificationQueue.validateNotification. simpl.
  apply RegistryProperties.truthy_JStr in Hid. simpl in Hid.
  rewrite Hid, Hch, Hdata. reflexivity.
Qed.

(** C10 (the claim fails as stated).  The queue holds at most one item.
    Three submissions follow one another: the first is taken by the
    processing loop at once, the second waits in the queue, which is then
    full, and the third, of priority 0 with a valid key, channel and data,
    is refused with [QueueFullError] and changes nothing: it is neither
    accepted nor queued. *)
Lemma C10_counterexample :
  World.notificationQueue
    (sendNotification (mkConfig 1 3 1000 100 86400000 1000 30000) (still 0) "n2"
       (JStr "updates") (JObj "{title:x}") (JNum 5) (JStr "key-A") JNull
       (sendNotification (mkConfig 1 3 1000 100 86400000 1000 30000) (still 0) "n1"
          (JStr "updates") (JObj "{title:x}") (JNum 5) (JStr "key-A") JNull
          (Sample.world true)).2).2
  = [Sample.item "n2" 5 0] ∧
  throws QueueFullError
    (sendNotification (mkConfig 1 3 1000 100 86400000 1000 30000) (still 0) "n3"
       (JStr "updates") (JObj "{title:x}") (JNum 0) (JStr "key-A") JNull
       (sendNotification (mkConfig 1 3 1000 100 86400000 1000 30000) (still 0) "n2"
          (JStr "updates") (JObj "{title:x}") (JNum 5) (JStr "key-A") JNull
          (sendNotification (mkConfig 1 3 1000 100 86400000 1000 30000) (still 0) "n1"
             (JStr "updates") (JObj "{title:x}") (JNum 5) (JStr "key-A") JNull
             (Sample.world true)).2).2).1 ∧
  (sendNotification (mkConfig 1 3 1000 100 86400000 1000 30000) (still 0) "n3"
     (JStr "updates") (JObj "{title:x}") (JNum 0) (JStr "key-A") JNull
     (sendNotification (mkConfig 1 3 1000 100 86400000 1000 30000) (still 0) "n2"
        (JStr "updates") (JObj "{title:x}") (JNum 5) (JStr "key-A") JNull
        (sendNotification (mkConfig 1 3 1000 100 86400000 1000 30000) (still 0) "n1"
           (JStr "updates") (JObj "{title:x}") (JNum 5) (JStr "key-A") JNull
           (Sample.world true)).2).2).2
  = (sendNotification (mkConfig 1 3 1000 100 86400000 1000 30000) (still 0) "n2"
       (JStr "updates") (JObj "{title:x}") (JNum 5) (JStr "key-A") JNull
       (sendNotification (mkConfig 1 3 1000 100 86400000 1000 30000) (still 0) "n1"
          (JStr "updates") (JObj "{title:x}") (JNum 5) (JStr "key-A") JNull
          (Sample.world true)).2).2.
Proof. vm_compute. done. Qed.

(** C10 (as amended).  A submission with priority 0, a key
    [validateApiKey] accepts, a non-empty string channel and truthy data:
    the notification [sendNotification] builds has priority 5 and passes
    the queue's validation, so [sendNotification] does not throw
    [ValidationError].  When the queue has room the submission is
    accepted and queued at priority 5: [enqueue] returns an item of
    priority 5 that wraps the notification, the queue it leaves holds
    this item and the items it held before, [sendNotification] returns
    the id, and the queue it leaves is this queue if the processing loop
    is already running, and otherwise what the loop it starts makes of
    it.  When the queue is full the submission is refused with
    [QueueFullError] and changes nothing. *)
Theorem C10_priority_zero_becomes_five (cfg : Config) (clock : nat → Z) (uuid : string)
    (channel data apiKey excludeConnection : JsValue) (w : World.t) :
  uuid ≠ EmptyString →
  ClientManager.validateApiKey (World.clientManager w) apiKey = Ok true →
  truthy channel = true → is_string channel = true →
  truthy data = true →
  let n :=
    createNotification (clock 0%nat) uuid channel data (JNum 0) apiKey excludeConnection in
  let r := sendNotification cfg clock uuid channel data (JNum 0) apiKey excludeConnection w in
  Notification.priority n = JNum 5 ∧
  NotificationQueue.validateNotification n = Ok () ∧
  ¬ throws ValidationError r.1 ∧
  (NotificationQueue.size_of (World.notificationQueue w) < maxQueueSize cfg →
   ∃ item queued,
     NotificationQueue.enqueue cfg (clock 1%nat) (clock 2%nat) n (World.notificationQueue w)
     = (Ok item, queued) ∧
     item ∈ queued ∧
     queued ≡ₚ item :: World.notificationQueue w ∧
     QueueItem.notification item = n ∧
     QueueItem.id item = JStr uuid ∧
     QueueItem.priority item = 5 ∧
     (∃ size, r.1 = Ok (mkResponse (JStr uuid) size)) ∧
     (World.processing w = true → World.notificationQueue r.2 = queued) ∧
     (World.processing w = false →
      r.2 = startProcessing cfg (λ i, clock (4 + i)%nat)
              (World.setClientManager
                 (ClientManager.updateNotificationStats (clock 3%nat) apiKey
                    (World.clientManager w))
                 (World.setQueue queued w)))) ∧
  (maxQueueSize cfg ≤ NotificationQueue.size_of (World.notificationQueue w) →
   throws QueueFullError r.1 ∧ r.2 = w).
Proof.
  intros Hid Hkey Hch Hstr Hdata n r.
  pose proof (createNotification_zero_valid (clock 0%nat) uuid channel data apiKey
                excludeConnection Hid Hch Hdata) as Hvalid.
  fold n in Hvalid.
  split; [done|]. split; [done|].
  assert (∀ e, rethrow apiKey e = e) as Hre.
  { intros e. unfold ClientManager.validateApiKey in Hkey.
    destruct apiKey as [| |b|z|key|o]; simpl in Hkey; try done;
      rewrite orb_true_r in Hkey; done. }
  assert (r = match NotificationQueue.enqueue cfg (clock 1%nat) (clock 2%nat) n
                      (World.notificationQueue w) with
              | (Throw e, _) => (Throw e, w)
              | (Ok _, q') =>
                  let w1 := World.setQueue q' w in
                  let w2 :=
                    World.setClientManager
                      (ClientManager.updateNotificationStats (clock 3%nat) apiKey
                         (World.clientManager w1)) w1 in
                  let w3 :=
                    if World.processing w2 then w2
                    else startProcessing cfg (λ i, clock (4 + i)%nat) w2 in
                  (Ok (mkResponse (Notification.id n)
                         (NotificationQueue.size_of (World.notificationQueue w3))), w3)
              end) as Hr.
  { unfold r, sendNotification. rewrite Hkey, Hch, Hstr, Hdata. cbn [negb orb]. fold n.
    destruct (NotificationQueue.enqueue cfg (clock 1%nat) (clock 2%nat) n
                (World.notificationQueue w)) as [[?|e] ?];
      [done|by rewrite Hre]. }
  destruct (QueueProperties.enqueue_cases cfg (clock 1%nat) (clock 2%nat) n
              (World.notificationQueue w))
    as [(e & Hv & _)|[(_ & Hfull & e & He & Henq)|(_ & Hroom & item & Henq & Hn & Hp & _)]].
  - congruence.
  - split; [|split].
    + rewrite Hr, Henq. simpl. rewrite He. discriminate.
    + intros Hlt. lia.
    + intros _. rewrite Hr, Henq. simpl. by rewrite He.
  - split; [|split].
    + rewrite Hr, Henq. simpl. tauto.
    + intros _.
      assert (NotificationQueue.sortQueue (World.notificationQueue w ++ [item])
              ≡ₚ item :: World.notificationQueue w) as Hperm.
      { rewrite QueueProperties.sortQueue_Permutation. by rewrite Permutation_app_comm. }
      exists item, (NotificationQueue.sortQueue (World.notificationQueue w ++ [item])).
      split; [done|]. split; [rewrite Hperm; left|]. split; [done|]. split; [done|].
      split.
      { unfold NotificationQueue.enqueue in Henq. rewrite Hvalid in Henq.
        destruct (maxQueueSize cfg <=? Z.of_nat (length (World.notificationQueue w)));
          [done|]. by injection Henq as <- _. }
      split; [by rewrite Hp|].
      rewrite Hr, Henq. cbv zeta. split; [|split].
      * eexists. reflexivity.
      * intros Hproc. simpl. rewrite Hproc. reflexivity.
      * intros Hproc. simpl. rewrite Hproc. by destruct w.
    + intros Hfull. unfold NotificationQueue.size_of in *. lia.
Qed.

Lemma C10_witness :
  ∃ item queued,
    NotificationQueue.enqueue default_config 0 0
      (createNotification 0 "n1" (JStr "updates") (JObj "{title:x}") (JNum 0)
         (JStr "key-A") JNull) []
    = (Ok item, queued) ∧
    item ∈ queued ∧
    QueueItem.priority item = 5.
Proof.
  destruct (C10_priority_zero_becomes_five default_config (still 0) "n1" (JStr "updates")
              (JObj "{title:x}") (JStr "key-A") JNull (Sample.world true))
    as (_ & _ & _ & Hroom & _); [discriminate|reflexivity..|].
  destruct Hroom as (item & queued & Henq & Hin & _ & _ & _ & Hp & _); [reflexivity|].
  exists item, queued. split; [exact Henq|]. split; [exact Hin|exact Hp].
Defined.

(** *** Retries *)

(** With no WebSocket server attached, the submission of [n1] to the
    channel of the subscribed connection [c1] is accepted; its first
    processing, at once, throws, and the loop goes to sleep in the retry
    branch. *)
Lemma first_failure :
  sendNotification default_config (still 0) "n1" (JStr "updates") (JObj "{title:x}")
    (JNum 5) (JStr "key-A") JNull (Sample.world false)
  = (Ok (mkResponse (JStr "n1") 0), Sample.stuck 0 [Sample.failure]).
Proof. vm_compute. reflexivity. Qed.

Lemma subscribers_of_updates :
  ClientManager.getConnectionsByChannel
    (ClientManager.updateNotificationStats 0 (JStr "key-A") Sample.subscribed)
    (JStr "updates") = ["c1"].
Proof. vm_compute. reflexivity. Qed.

Lemma dequeueBatch_single now item :
  NotificationQueue.unexpired now item →
  NotificationQueue.dequeueBatch default_config (still now) None [item] = ([item], []).
Proof.
  intros Hlive. unfold NotificationQueue.dequeueBatch. simpl.
  unfold NotificationQueue.dequeue, NotificationQueue.dropExpired.
  by rewrite filter_cons_True.
Qed.

(** One retry: the sleeping loop re-enqueues the notification (as a new
    item, whose attempt counter is 0), ends the batch, takes the new item
    in the next batch, fails again and goes back to sleep in the retry
    branch, one more failure logged. *)
Lemma retry_round enqueuedAt log t1 t2 t3 :
  t3 < t1 + 86400000 →
  run default_config [still t1; still t2; still t3] (Sample.stuck enqueuedAt log)
  = Sample.stuck t1 (log ++ [Sample.failure]).
Proof.
  intros Hlive. unfold run. cbn [foldl].
  set (w1 := resume default_config (still t1) (Sample.stuck enqueuedAt log)).
  assert (w1 = World.setLoop (AwaitItem [])
                 (World.setQueue [Sample.item "n1" 5 t1] (Sample.stuck enqueuedAt log)))
    as -> by reflexivity.
  set (w2 := resume default_config (still t2) _).
  assert (w2 = World.setLoop AwaitBatchSleep
                 (World.setQueue [Sample.item "n1" 5 t1] (Sample.stuck enqueuedAt log)))
    as -> by reflexivity.
  unfold resume. cbn [World.loop World.setLoop World.setQueue].
  unfold processQueue. cbn [World.notificationQueue World.setLoop World.setQueue
                            NotificationQueue.isEmpty].
  rewrite dequeueBatch_single by (unfold NotificationQueue.unexpired; simpl; lia).
  unfold processBatch, processNotification.
  cbn [World.clientManager World.setQueue World.setLoop Sample.stuck].
  change (Notification.channel (QueueItem.notification (Sample.item "n1" 5 t1)))
    with (JStr "updates").
  rewrite subscribers_of_updates.
  reflexivity.
Qed.

Lemma retry_rounds k : ∀ failedAt enqueuedAt log,
  0 ≤ failedAt →
  ∃ enqueuedAt',
    run default_config (retryTimes k failedAt) (Sample.stuck enqueuedAt log)
    = Sample.stuck enqueuedAt' (log ++ replicate k Sample.failure).
Proof.
  induction k as [|k IH]; intros failedAt enqueuedAt log Hpos.
  - exists enqueuedAt. simpl. by rewrite app_nil_r.
  - cbn [retryTimes]. unfold run. rewrite foldl_app.
    fold (run default_config
            [still (failedAt + 1000); still (failedAt + 1000); still (failedAt + 1010)]
            (Sample.stuck enqueuedAt log)).
    rewrite retry_round by lia.
    destruct (IH (failedAt + 1010) (failedAt + 1000) (log ++ [Sample.failure]))
      as [e' He']; [lia|].
    exists e'. unfold run in He'. rewrite He'.
    by rewrite <- app_assoc.
Qed.

(** C1 (the code departs from the claim).  Under the default configuration,
    whose retry cap is 3, the notification [n1] is submitted while no
    WebSocket server is attached.  Every processing of it throws.  For
    every [k], after [k] further rounds of the loop the engine has
    processed it [k + 1] times, each time logging attempt number 1, and
    sleeps once more in the retry branch, about to re-enqueue it: the
    re-enqueued item starts at [attempts = 0], so the cap is never
    reached.  For [k = 4] this is 5 processings, more than 1 + 3. *)
Theorem C1_retry_cap_never_reached (k : nat) :
  let w0 := (sendNotification default_config (still 0) "n1" (JStr "updates")
               (JObj "{title:x}") (JNum 5) (JStr "key-A") JNull (Sample.world false)).2 in
  let w := run default_config (retryTimes k 0) w0 in
  World.log w = replicate (S k) Sample.failure ∧
  ∃ item,
    World.loop w = AwaitRetry item [] ∧
    QueueItem.notification item = Sample.note "n1" (JNum 5) ∧
    QueueItem.attempts item = 1 ∧
    QueueItem.attempts item < retryAttempts default_config.
Proof.
  intros w0 w. unfold w, w0. rewrite first_failure. cbn [snd].
  destruct (retry_rounds k 0 0 [Sample.failure]) as [e' ->]; [lia|].
  split.
  - simpl. reflexivity.
  - eexists. split; [reflexivity|]. simpl. split; [reflexivity|]. split; [reflexivity|lia].
Qed.

End EngineProperties.

(** ** The queue: further properties *)

Module QueueExtras.
Import NotificationQueue Predicates Invariants.

Lemma priority_or_default_range n :
  validateNotification n = Ok () →
  1 ≤ priority_or_default (Notification.priority n) ≤ 10.
Proof.
  unfold validateNotification.
  destruct (negb (truthy (Notification.id n))); [done|].
  destruct (negb (truthy (Notification.channel n))); [done|].
  destruct (negb (truthy (Notification.data n))); [done|].
  destruct (Notification.priority n) as [| | |p| |]; try done.
  destruct (Z.ltb_spec p 1); [done|]. destruct (Z.ltb_spec 10 p); [done|].
  intros _. unfold priority_or_default, js_or. simpl.
  destruct (Z.eqb_spec p 0); [lia|]. simpl. lia.
Qed.

Lemma enqueue_item cfg now later n q q' item :
  enqueue cfg now later n q = (Ok item, q') →
  q' ≡ₚ item :: q ∧
  QueueItem.notification item = n ∧
  QueueItem.enqueuedAt item = now ∧
  QueueItem.expiresAt item = later + messageExpiry cfg ∧
  1 ≤ QueueItem.priority item ≤ 10 ∧
  QueueItem.attempts item = 0 ∧
  QueueItem.id item = Notification.id n ∧
  validateNotification n = Ok ().
Proof.
  intros Henq.
  destruct (QueueProperties.enqueue_cases cfg now later n q)
    as [(e & _ & H)|[(_ & _ & e & _ & H)|(Hv & Hroom & it & H & Hn & Hp & Ht & Hx & Ha)]];
    rewrite H in Henq; try done.
  injection Henq as <- <-. split.
  { rewrite QueueProperties.sortQueue_Permutation. by rewrite Permutation_app_comm. }
  rewrite Hp. split; [done|]. split; [done|]. split; [done|].
  split; [by apply priority_or_default_range|]. split; [done|]. split; [|done].
  unfold enqueue in H. rewrite Hv in H.
  destruct (maxQueueSize cfg <=? Z.of_nat (length q)); [done|].
  by injection H as <- _.
Qed.

(** X1.  A successful [enqueue] adds exactly the item it returns: the new
    queue holds the old items and the new one, each once, in sorted order;
    the item wraps the notification, which passes validation, and carries
    its id, a priority from 1 to 10, zero attempts and, as [enqueuedAt],
    the first reading of the clock; its expiry is the second reading plus
    [messageExpiry] when this sum is a safe integer; and the queue had
    room. *)
Theorem enqueue_adds_one_item (cfg : Config) (now later : Z) (n : Notification.t)
    (q q' : NotificationQueue.t) (item : QueueItem.t) :
  enqueue cfg now later n q = (Ok item, q') →
  q' ≡ₚ item :: q ∧
  size_of q' = size_of q + 1 ∧
  StronglySorted item_le q' ∧
  QueueItem.notification item = n ∧
  QueueItem.enqueuedAt item = now ∧
  1 ≤ QueueItem.priority item ≤ 10 ∧
  QueueItem.attempts item = 0 ∧
  QueueItem.id item = Notification.id n ∧
  validateNotification n = Ok () ∧
  (safeInteger (later + messageExpiry cfg) →
   QueueItem.expiresAt item = later + messageExpiry cfg) ∧
  size_of q < maxQueueSize cfg.
Proof.
  intros Henq.
  destruct (enqueue_item cfg now later n q q' item Henq)
    as (Hperm & Hn & Ht & Hx & Hp & Ha & Hid & Hv).
  destruct (QueueProperties.enqueue_cases cfg now later n q)
    as [(e & _ & H)|[(_ & _ & e & _ & H)|(_ & Hroom & it & H & _)]];
    rewrite H in Henq; try done.
  injection Henq as <- <-.
  split; [done|]. split.
  { unfold size_of. rewrite Hperm. simpl. lia. }
  split; [apply OrderingProperties.sortQueue_sorted|].
  repeat (split; [done|]). done.
Qed.

Lemma enqueue_adds_one_item_witness :
  size_of [Sample.item "n1" 5 0; Sample.item "n2" 5 7]
  = size_of [Sample.item "n1" 5 0] + 1.
Proof.
  apply (enqueue_adds_one_item default_config 7 7 (Sample.note "n2" (JNum 5))
           [Sample.item "n1" 5 0] [Sample.item "n1" 5 0; Sample.item "n2" 5 7]
           (Sample.item "n2" 5 7)).
  reflexivity.
Defined.

(** *** Items of reachable queues *)

Lemma run_wellFormed cfg drift ops :
  Forall (timely cfg drift) ops →
  Forall (wellFormed cfg drift) (QueueTrace.queue (QueueTrace.run cfg ops)) ∧
  Forall (wellFormed cfg drift) (QueueTrace.dequeued (QueueTrace.run cfg ops)).
Proof.
  unfold QueueTrace.run. induction ops as [|op ops IH] using rev_ind; [by split|].
  intros [Hops Hop]%Forall_app. apply Forall_cons in Hop as [Hop _].
  rewrite foldl_app. cbn [foldl].
  set (tr := foldl (QueueTrace.step cfg) QueueTrace.init ops) in *.
  destruct (IH Hops) as [IHq IHd].
  assert (∀ extra q', extra ++ q' `sublist_of` QueueTrace.queue tr →
            Forall (wellFormed cfg drift) q' ∧
            Forall (wellFormed cfg drift) (QueueTrace.dequeued tr ++ extra)) as Htake.
  { intros extra q' Hsub.
    pose proof (OrderingProperties.sublist_Forall _ _ _ Hsub IHq) as HF.
    apply Forall_app in HF as [H1 H2]. split; [done|]. by apply Forall_app. }
  destruct op as [now later n|now|clock size| |now]; simpl.
  - destruct (enqueue cfg now later n (QueueTrace.queue tr)) as [[item|e] q'] eqn:E; simpl.
    + destruct (enqueue_item cfg now later n _ _ _ E)
        as (Hperm & Hn & Ht & Hx & Hp & Ha & Hid & Hv).
      split; [|done]. rewrite Hperm. constructor; [|done].
      unfold timely in Hop. destruct Hop as [Hdrift _].
      unfold wellFormed. rewrite Hn, Ht, Hx.
      split; [done|]. split; [done|]. split; [lia|]. done.
    + destruct (QueueProperties.enqueue_cases cfg now later n (QueueTrace.queue tr))
        as [(e' & _ & H)|[(_ & _ & e' & _ & H)|(_ & _ & it & H & _)]];
        rewrite H in E; by simplify_eq.
  - destruct (dequeue now (QueueTrace.queue tr)) as [r q'] eqn:E.
    apply QueueProperties.dequeue_sublist in E.
    destruct (Htake _ _ E) as [H1 H2].
    destruct r; simpl in *; [done|]. by rewrite app_nil_r in H2.
  - pose proof (QueueProperties.dequeueBatch_spec cfg clock size (QueueTrace.queue tr)) as [_ S].
    destruct (dequeueBatch cfg clock size (QueueTrace.queue tr)) as [batch q']. simpl in *.
    by apply Htake.
  - by split.
  - split; [|done]. eapply OrderingProperties.sublist_Forall; [|exact IHq].
    apply QueueProperties.dropExpired_sublist.
Qed.

(** X2.  After any sequence of queue calls in which every [enqueue] read
    the clock for [expiresAt] at most [drift] milliseconds after it read it
    for [enqueuedAt], and computed a safe integer, an item [dequeue]
    returns at time [now] is unexpired at [now], was enqueued less than
    [messageExpiry + drift] milliseconds before [now], has a priority from
    1 to 10 and zero attempts, and wraps a notification that passes the
    queue's validation. *)
Theorem dequeued_item_is_fresh_and_valid (cfg : Config) (drift : Z)
    (ops : list QueueTrace.Op) (now : Z) (x : QueueItem.t) (q' : NotificationQueue.t) :
  Forall (timely cfg drift) ops →
  dequeue now (QueueTrace.queue (QueueTrace.run cfg ops)) = (Some x, q') →
  now < QueueItem.expiresAt x ∧
  now - messageExpiry cfg - drift < QueueItem.enqueuedAt x ∧
  1 ≤ QueueItem.priority x ≤ 10 ∧
  QueueItem.attempts x = 0 ∧
  validateNotification (QueueItem.notification x) = Ok ().
Proof.
  intros Hops Hdq. apply QueueProperties.dequeue_Some in Hdq.
  assert (x ∈ dropExpired now (QueueTrace.queue (QueueTrace.run cfg ops))) as Hx
    by (rewrite Hdq; left).
  apply list_elem_of_filter in Hx as [Hlive Hin].
  destruct (run_wellFormed cfg drift ops Hops) as [HF _]. rewrite Forall_forall in HF.
  destruct (HF x Hin) as (Hp & Ha & He & _ & Hv).
  unfold unexpired in Hlive. split; [done|]. split; [lia|]. done.
Qed.

Lemma dequeued_item_is_fresh_and_valid_witness :
  100 - messageExpiry (mkConfig 10000 3 1000 100 100 1000 30000) - 1
  < QueueItem.enqueuedAt
      {| QueueItem.id := JStr "n1"; QueueItem.notification := Sample.note "n1" (JNum 5);
         QueueItem.priority := 5; QueueItem.enqueuedAt := 0; QueueItem.expiresAt := 101;
         QueueItem.attempts := 0 |}.
Proof.
  refine (proj1 (proj2 (dequeued_item_is_fresh_and_valid
                          (mkConfig 10000 3 1000 100 100 1000 30000) 1
                          [QueueTrace.Enqueue 0 1 (Sample.note "n1" (JNum 5))] 100 _ [] _ _))).
  - repeat constructor; vm_compute; discriminate.
  - reflexivity.
Defined.

(** *** The sweep *)

Lemma dropExpired_dropExpired t now q :
  t ≤ now → dropExpired now (dropExpired t q) = dropExpired now q.
Proof.
  intros Ht. unfold dropExpired. rewrite list_filter_filter.
  apply list_filter_iff. intros x. unfold unexpired. lia.
Qed.

(** X3.  The periodic sweep is invisible to [dequeue]: dropping at time
    [t] the items expired by then does not change what a later [dequeue]
    returns nor the queue it leaves; two sweeps in a row drop what one
    sweep at the later time drops; and a sweep only removes items, in
    place. *)
Theorem sweep_is_transparent (t now : Z) (q : NotificationQueue.t) :
  t ≤ now →
  dequeue now (cleanup t q) = dequeue now q ∧
  cleanup now (cleanup t q) = cleanup now q ∧
  cleanup t q `sublist_of` q ∧
  Forall (λ item, t < QueueItem.expiresAt item) (cleanup t q).
Proof.
  intros Ht. unfold dequeue, cleanup.
  rewrite dropExpired_dropExpired by done.
  split; [done|]. split; [done|]. split; [apply QueueProperties.dropExpired_sublist|].
  apply Forall_forall. intros x Hx. by apply list_elem_of_filter in Hx as [Hx _].
Qed.

Lemma sweep_is_transparent_witness :
  dequeue 9 (cleanup 3 [Sample.item "n1" 5 0]) = dequeue 9 [Sample.item "n1" 5 0].
Proof. apply (sweep_is_transparent 3 9 [Sample.item "n1" 5 0]). lia. Defined.

(** *** Batches *)







(** *** Statistics *)

Lemma countPriority_fold p q : ∀ m : gmap Z Z,
  foldl countPriority m q !! p
  = if decide (countOf p q = 0) then m !! p
    else Some (default 0 (m !! p) + countOf p q).
Proof.
  unfold countOf. induction q as [|x q IH]; intros m; [done|].
  cbn [foldl]. rewrite IH. unfold countPriority.
  rewrite filter_cons. clear IH.
  destruct (decide (QueueItem.priority x = p)) as [->|Hne].
  - rewrite lookup_insert_eq. cbn [length default].
    generalize (length (filter (λ item, QueueItem.priority item = p) q)).
    intros c.
    destruct (decide (Z.of_nat c = 0)) as [H0|H0],
             (decide (Z.of_nat (S c) = 0)) as [H1|H1]; try lia.
    + f_equal. lia.
    + unfold id. f_equal. lia.
  - by rewrite lookup_insert_ne by done.
Qed.

(** X5.  [getStats] counts the queue exactly: [size] is the number of
    items, and [priorityDistribution] has an entry for a priority exactly
    when some item has it, the entry being the number of such items. *)
Theorem getStats_counts_items (cfg : Config) (now : Z) (q : NotificationQueue.t) :
  size (getStats cfg now q) = size_of q ∧
  maxSize (getStats cfg now q) = maxQueueSize cfg ∧
  ∀ p, priorityDistribution (getStats cfg now q) !! p
       = if decide (countOf p q = 0) then None else Some (countOf p q).
Proof.
  split; [done|]. split; [done|]. intros p. simpl.
  rewrite countPriority_fold. rewrite lookup_empty. simpl.
  by case_decide.
Qed.

End QueueExtras.

(** ** The registry: further properties *)

Module RegistryExtras.
Import ClientManager Predicates Invariants.

(** *** The per-key limit *)

Lemma step_withinLimit cfg cm op :
  withinLimit cfg cm → withinLimit cfg (RegistryTrace.step cfg cm op).
Proof.
  intros Hinv.
  destruct op as [now c apiKey|c|c channel|c channel|apiKey]; simpl.
  - destruct (RegistryProperties.registerConnection_cases cfg now c apiKey cm)
      as [[e ->]|(key & client & -> & _ & Hkey & Hlt & ->)]; [done|].
    intros key' client'. simpl. rewrite lookup_insert.
    destruct (decide (key = key')) as [<-|Hne]; [|by apply Hinv].
    intros [= <-]. simpl.
    pose proof (size_union_alt (C:=gset string) {[c]} (Client.connections client)) as Hsz.
    rewrite size_singleton in Hsz.
    pose proof (subseteq_size (C:=gset string)
                  (Client.connections client ∖ {[c]}) (Client.connections client)) as Hle.
    assert (Client.connections client ∖ {[c]} ⊆ Client.connections client) as Hsub
      by (intros x Hx; by apply elem_of_difference in Hx as [Hx _]).
    specialize (Hle Hsub). lia.
  - unfold unregisterConnection.
    destruct (connections cm !! c) as [conn|]; [|done].
    intros key' client'. simpl. rewrite lookup_alter.
    destruct (decide (Connection.apiKey conn = key')) as [<-|Hne]; [|by apply Hinv].
    destruct (apiKeys cm !! Connection.apiKey conn) as [client|] eqn:E; [|done].
    intros [= <-]. simpl.
    pose proof (subseteq_size (C:=gset string)
                  (Client.connections client ∖ {[c]}) (Client.connections client)) as Hle.
    assert (Client.connections client ∖ {[c]} ⊆ Client.connections client) as Hsub
      by (intros x Hx; by apply elem_of_difference in Hx as [Hx _]).
    specialize (Hle Hsub). specialize (Hinv _ _ E). lia.
  - unfold subscribeToChannel.
    destruct (connections cm !! c) as [conn|]; [|done].
    destruct channel as [| | | |ch|]; try done.
    by destruct (negb (truthy (JStr ch))).
  - unfold unsubscribeFromChannel.
    by destruct (connections cm !! c) as [conn|].
  - unfold revokeApiKey.
    destruct (getClient cm apiKey) as [[key client]|]; [|done].
    intros key' client'. simpl. intros [_ H]%lookup_delete_Some. by apply (Hinv key').
Qed.

(** X6.  The per-key connection limit is an invariant of the registry:
    starting from the registry its constructor builds, no sequence of
    [registerConnection], [unregisterConnection], [subscribeToChannel],
    [unsubscribeFromChannel] and [revokeApiKey] calls gives a key more
    connections than a non-negative [maxClientsPerApiKey]. *)
Theorem connection_limit_is_invariant (cfg : Config) (ops : list RegistryTrace.Op)
    (cm0 : ClientManager.t) :
  0 ≤ maxClientsPerApiKey cfg →
  RegistryTrace.initial cm0 →
  ∀ key client,
    apiKeys (RegistryTrace.run cfg ops cm0) !! key = Some client →
    Z.of_nat (size (Client.connections client)) ≤ maxClientsPerApiKey cfg.
Proof.
  intros Hmax [_ Hempty].
  assert (withinLimit cfg (RegistryTrace.run cfg ops cm0)) as H; [|exact H].
  unfold RegistryTrace.run. induction ops as [|op ops IH] using rev_ind.
  - intros key client Hk. simpl in Hk. rewrite (Hempty _ _ Hk), size_empty. lia.
  - rewrite foldl_app. by apply step_withinLimit.
Qed.

Lemma connection_limit_is_invariant_witness :
  Z.of_nat (size (Client.connections
                    {| Client.name := "alice"; Client.userId := None; Client.createdAt := 0;
                       Client.connections := {["c1"]};
                       Client.stats := {| Stats.totalConnections := 1;
                                          Stats.totalNotifications := 0;
                                          Stats.lastActivity := 0 |} |}))
  ≤ maxClientsPerApiKey default_config.
Proof.
  apply (connection_limit_is_invariant default_config
           [RegistryTrace.Register 0 "c1" (JStr "key-A");
            RegistryTrace.Subscribe "c1" (JStr "updates")]
           Sample.registry ltac:(simpl; lia) RegistryProperties.sample_registry_initial
           "key-A").
  reflexivity.
Defined.

(** *** Who owns a connection *)

(** X7.  No connection is an orphan: in every registry reached from the
    initial one, each connection of the map is recorded under a key that
    is still in the registry, and is in the connection set of this key. *)
Theorem connections_have_owner (cfg : Config) (ops : list RegistryTrace.Op)
    (cm0 : ClientManager.t) (c : string) (conn : Connection.t) :
  RegistryTrace.initial cm0 →
  connections (RegistryTrace.run cfg ops cm0) !! c = Some conn →
  ∃ client,
    apiKeys (RegistryTrace.run cfg ops cm0) !! Connection.apiKey conn = Some client ∧
    c ∈ Client.connections client.
Proof.
  intros Hinit Hc. by apply (RegistryProperties.run_owned cfg ops cm0 Hinit).
Qed.

Lemma connections_have_owner_witness :
  ∃ client,
    apiKeys Sample.subscribed
      !! Connection.apiKey {| Connection.apiKey := "key-A";
                              Connection.channels := {["updates"]};
                              Connection.connectedAt := 0 |} = Some client ∧
    "c1" ∈ Client.connections client.
Proof.
  apply (connections_have_owner default_config
           [RegistryTrace.Register 0 "c1" (JStr "key-A");
            RegistryTrace.Subscribe "c1" (JStr "updates")]
           Sample.registry "c1" _ RegistryProperties.sample_registry_initial).
  reflexivity.
Defined.

Lemma step_backed cfg cm op :
  backed cm →
  match op with
  | RegistryTrace.Register _ c _ => connections cm !! c = None
  | _ => True
  end →
  backed (RegistryTrace.step cfg cm op).
Proof.
  intros Hinv Hfresh.
  destruct op as [now c apiKey|c|c channel|c channel|apiKey]; simpl.
  - destruct (RegistryProperties.registerConnection_cases cfg now c apiKey cm)
      as [[e ->]|(key & client & -> & _ & Hkey & _ & ->)]; [done|].
    intros key' client' c'. simpl. rewrite lookup_insert.
    destruct (decide (key = key')) as [<-|Hne].
    + intros [= <-]. simpl. intros [->%elem_of_singleton|Hin]%elem_of_union.
      * rewrite lookup_insert_eq. eauto.
      * destruct (Hinv key client c' Hkey Hin) as (conn & Hc' & Hk).
        rewrite lookup_insert_ne by congruence. eauto.
    + intros Hkey' Hin. destruct (Hinv key' client' c' Hkey' Hin) as (conn & Hc' & Hk).
      rewrite lookup_insert_ne by congruence. eauto.
  - unfold unregisterConnection.
    destruct (connections cm !! c) as [conn|] eqn:Hc; [|done].
    intros key' client' c'. simpl. rewrite lookup_alter.
    destruct (decide (Connection.apiKey conn = key')) as [<-|Hne].
    + destruct (apiKeys cm !! Connection.apiKey conn) as [client|] eqn:E; [|done].
      intros [= <-]. simpl. intros [Hin Hnc]%elem_of_difference.
      apply not_elem_of_singleton in Hnc.
      destruct (Hinv _ client c' E Hin) as (conn' & Hc' & Hk).
      rewrite lookup_delete_ne by done. eauto.
    + intros Hkey' Hin. destruct (Hinv key' client' c' Hkey' Hin) as (conn' & Hc' & Hk).
      rewrite lookup_delete_ne by congruence. eauto.
  - unfold subscribeToChannel.
    destruct (connections cm !! c) as [conn|] eqn:Hc; [|done].
    destruct channel as [| | | |ch|]; try done.
    destruct (negb (truthy (JStr ch))); [done|].
    intros key' client' c' Hkey' Hin. simpl in *.
    destruct (Hinv key' client' c' Hkey' Hin) as (conn' & Hc' & Hk).
    rewrite lookup_insert. destruct (decide (c = c')) as [<-|Hne]; [|eauto].
    eexists. split; [done|]. simpl. congruence.
  - unfold unsubscribeFromChannel.
    destruct (connections cm !! c) as [conn|] eqn:Hc; [|done].
    intros key' client' c' Hkey' Hin. simpl in *.
    destruct (Hinv key' client' c' Hkey' Hin) as (conn' & Hc' & Hk).
    rewrite lookup_insert. destruct (decide (c = c')) as [<-|Hne]; [|eauto].
    eexists. split; [done|].
    unfold dropChannel. destruct (as_string channel); simpl; congruence.
  - unfold revokeApiKey.
    destruct (getClient cm apiKey) as [[key client]|] eqn:Hget; [|done].
    apply RegistryProperties.getClient_Some in Hget as [-> Hkey].
    intros key' client' c'. simpl. intros [Hne Hkey']%lookup_delete_Some Hin.
    destruct (Hinv key' client' c' Hkey' Hin) as (conn' & Hc' & Hk).
    rewrite RegistryProperties.lookup_delete_all.
    destruct (decide (c' ∈ Client.connections client)) as [Hin'|_]; [|eauto].
    destruct (Hinv key client c' Hkey Hin') as (conn'' & Hc'' & Hk''). congruence.
Qed.

Lemma run_backed cfg ops : ∀ cm,
  backed cm → registersFresh cfg ops cm → backed (RegistryTrace.run cfg ops cm).
Proof.
  unfold RegistryTrace.run. induction ops as [|op ops IH]; intros cm Hinv Hfresh; [done|].
  destruct Hfresh as [Hop Hrest]. simpl. apply IH; [|done].
  by apply step_backed.
Qed.

(** X8.  When every [registerConnection] is called with an id that is not
    in the connection map at that moment (each socket authenticates at
    most once), the two sides of the registry agree in every reached
    state: an id is in the connection set of a key exactly when the map
    records the connection under this key, and no id is in the sets of two
    keys. *)
Theorem single_authentication_keeps_registry_consistent (cfg : Config)
    (ops : list RegistryTrace.Op) (cm0 : ClientManager.t) :
  RegistryTrace.initial cm0 →
  registersFresh cfg ops cm0 →
  (∀ key client c,
      apiKeys (RegistryTrace.run cfg ops cm0) !! key = Some client →
      (c ∈ Client.connections client ↔
       ∃ conn, connections (RegistryTrace.run cfg ops cm0) !! c = Some conn ∧
               Connection.apiKey conn = key)) ∧
  (∀ key1 client1 key2 client2 c,
      apiKeys (RegistryTrace.run cfg ops cm0) !! key1 = Some client1 →
      apiKeys (RegistryTrace.run cfg ops cm0) !! key2 = Some client2 →
      c ∈ Client.connections client1 → c ∈ Client.connections client2 →
      key1 = key2).
Proof.
  intros Hinit Hfresh.
  assert (backed cm0) as Hb0.
  { intros key client c Hk Hin. destruct Hinit as [_ Hempty].
    rewrite (Hempty _ _ Hk) in Hin. by apply not_elem_of_empty in Hin. }
  pose proof (run_backed cfg ops cm0 Hb0 Hfresh) as Hb.
  pose proof (RegistryProperties.run_owned cfg ops cm0 Hinit) as Ho.
  split.
  - intros key client c Hk. split; [by apply Hb|].
    intros (conn & Hc & <-). destruct (Ho c conn Hc) as (client' & Hk' & Hin). congruence.
  - intros key1 client1 key2 client2 c Hk1 Hk2 H1 H2.
    destruct (Hb _ _ _ Hk1 H1) as (conn1 & Hc1 & <-).
    destruct (Hb _ _ _ Hk2 H2) as (conn2 & Hc2 & <-). congruence.
Qed.

Lemma single_authentication_keeps_registry_consistent_witness :
  "c1" ∈ Client.connections
           {| Client.name := "alice"; Client.userId := None; Client.createdAt := 0;
              Client.connections := {["c1"]};
              Client.stats := {| Stats.totalConnections := 1;
                                 Stats.totalNotifications := 0;
                                 Stats.lastActivity := 0 |} |}
  ↔ ∃ conn, connections Sample.subscribed !! "c1" = Some conn ∧
            Connection.apiKey conn = "key-A".
Proof.
  apply (proj1 (single_authentication_keeps_registry_consistent default_config
                  [RegistryTrace.Register 0 "c1" (JStr "key-A");
                   RegistryTrace.Subscribe "c1" (JStr "updates")]
                  Sample.registry RegistryProperties.sample_registry_initial
                  ltac:(repeat split)) "key-A").
  reflexivity.
Defined.

(** *** Round trips *)

(** X9.  Registering a new connection and unregistering it again puts the
    registry back: the connection map and the key's connection set are as
    before, only the key's lifetime counter and activity time keep the
    trace of the visit; and unregistering once more returns [false] and
    changes nothing. *)
Theorem register_then_unregister (cfg : Config) (now : Z) (c key : string)
    (client : Client.t) (cm : ClientManager.t) :
  key ≠ EmptyString →
  apiKeys cm !! key = Some client →
  Z.of_nat (size (Client.connections client)) < maxClientsPerApiKey cfg →
  connections cm !! c = None →
  c ∉ Client.connections client →
  let cm1 := (registerConnection cfg now c (JStr key) cm).2 in
  let cm2 := (unregisterConnection c cm1).2 in
  (unregisterConnection c cm1).1 = true ∧
  connections cm2 = connections cm ∧
  apiKeys cm2
  = <[key := {| Client.name := Client.name client;
                Client.userId := Client.userId client;
                Client.createdAt := Client.createdAt client;
                Client.connections := Client.connections client;
                Client.stats :=
                  {| Stats.totalConnections :=
                       Stats.totalConnections (Client.stats client) + 1;
                     Stats.totalNotifications :=
                       Stats.totalNotifications (Client.stats client);
                     Stats.lastActivity := now |} |}]> (apiKeys cm) ∧
  unregisterConnection c cm2 = (false, cm2).
Proof.
  intros Hne Hkey Hlt Hfresh Hnin cm1 cm2. unfold cm2, cm1.
  rewrite (RegistryProperties.registerConnection_known cfg now c key client cm Hne Hkey).
  destruct (Z.leb_spec (maxClientsPerApiKey cfg)
              (Z.of_nat (size (Client.connections client)))); [lia|].
  unfold unregisterConnection, registered. simpl.
  rewrite lookup_insert_eq. simpl.
  rewrite delete_insert_id by done. rewrite alter_insert_eq.
  unfold dropConnection. simpl.
  assert (({[c]} ∪ Client.connections client) ∖ {[c]} = Client.connections client) as ->.
  { apply set_eq. intros x. rewrite elem_of_difference, elem_of_union, !elem_of_singleton.
    split; [by intros [[->|Hx] Hn]|]. intros Hx. split; [by right|]. by intros ->. }
  by rewrite Hfresh.
Qed.

Lemma register_then_unregister_witness :
  connections (unregisterConnection "c1"
                 (registerConnection default_config 3 "c1" (JStr "key-A") Sample.registry).2).2
  = connections Sample.registry.
Proof.
  apply (register_then_unregister default_config 3 "c1" "key-A" (Sample.client "alice" ∅)
           Sample.registry); done.
Defined.

Lemma hasChannel_JStr ch conn :
  hasChannel (JStr ch) conn = true ↔ ch ∈ Connection.channels conn.
Proof. unfold hasChannel. simpl. apply bool_decide_eq_true. Qed.

(** X10.  For a registered connection and a non-empty channel name:
    [subscribeToChannel] succeeds and the channel then lists the
    connection; what other connections are listed under, and the keys, do
    not change; subscribing a second time changes nothing;
    [unsubscribeFromChannel] takes the connection off the channel; and if
    the connection was not subscribed before, unsubscribing restores the
    registry exactly. *)
Theorem subscribe_then_unsubscribe (c ch : string) (conn : Connection.t)
    (cm : ClientManager.t) :
  connections cm !! c = Some conn →
  ch ≠ EmptyString →
  let cm1 := (subscribeToChannel c (JStr ch) cm).2 in
  let cm2 := (unsubscribeFromChannel c (JStr ch) cm1).2 in
  (subscribeToChannel c (JStr ch) cm).1 = Ok true ∧
  c ∈ getConnectionsByChannel cm1 (JStr ch) ∧
  (∀ c' channel, c' ≠ c →
     (c' ∈ getConnectionsByChannel cm1 channel ↔ c' ∈ getConnectionsByChannel cm channel)) ∧
  (∀ ch', ch' ≠ ch →
     (c ∈ getConnectionsByChannel cm1 (JStr ch') ↔ c ∈ getConnectionsByChannel cm (JStr ch'))) ∧
  apiKeys cm1 = apiKeys cm ∧
  subscribeToChannel c (JStr ch) cm1 = (Ok true, cm1) ∧
  (c ∉ getConnectionsByChannel cm2 (JStr ch)) ∧
  (ch ∉ Connection.channels conn → cm2 = cm).
Proof.
  intros Hc Hne cm1 cm2. unfold cm2, cm1, subscribeToChannel, unsubscribeFromChannel.
  rewrite Hc. apply RegistryProperties.truthy_JStr in Hne. rewrite Hne.
  cbn [negb fst snd connections apiKeys]. rewrite !lookup_insert_eq.
  cbn [negb fst snd connections apiKeys]. rewrite ?lookup_insert_eq, !insert_insert_eq.
  cbn [dropChannel as_string Connection.apiKey Connection.channels Connection.connectedAt].
  split; [done|]. split.
  { apply RegistryProperties.elem_of_getConnectionsByChannel. eexists. simpl.
    rewrite lookup_insert_eq. split; [done|]. apply hasChannel_JStr. simpl.
    apply elem_of_union_l. by apply elem_of_singleton. }
  split.
  { intros c' channel Hc'. rewrite !RegistryProperties.elem_of_getConnectionsByChannel.
    simpl. by rewrite lookup_insert_ne. }
  split.
  { intros ch' Hch'. rewrite !RegistryProperties.elem_of_getConnectionsByChannel.
    simpl. rewrite lookup_insert_eq, Hc. split.
    - intros (conn' & [= <-] & Hh). exists conn. split; [done|].
      apply hasChannel_JStr in Hh. apply hasChannel_JStr. simpl in Hh.
      apply elem_of_union in Hh as [Hh%elem_of_singleton|Hh]; done.
    - intros (conn' & [= <-] & Hh). eexists. split; [done|].
      apply hasChannel_JStr in Hh. apply hasChannel_JStr. simpl.
      by apply elem_of_union_r. }
  split; [done|]. split.
  { f_equal. f_equal. f_equal. f_equal.
    apply set_eq. intros x. rewrite !elem_of_union.
    split; [by intros [Hx|[Hx|Hx]]; [left|left|right]|by intros [Hx|Hx]; [left|right; right]]. }
  split.
  { rewrite RegistryProperties.elem_of_getConnectionsByChannel. simpl.
    rewrite lookup_insert_eq. intros (conn' & [= <-] & Hh).
    apply hasChannel_JStr in Hh. simpl in Hh.
    apply elem_of_difference in Hh as [_ Hh]. apply Hh. by apply elem_of_singleton. }
  intros Hnin. destruct cm as [keys conns]. simpl in *. f_equal.
  apply insert_id. rewrite Hc. f_equal. destruct conn as [k chs t]. simpl in *. f_equal.
  apply set_eq. intros x. rewrite elem_of_difference, elem_of_union, !elem_of_singleton.
  split; [|by intros [[->|Hx] Hn]]. intros Hx. split; [by right|]. by intros ->.
Qed.

Lemma subscribe_then_unsubscribe_witness :
  "c1" ∈ getConnectionsByChannel
           (subscribeToChannel "c1" (JStr "news") Sample.subscribed).2 (JStr "news").
Proof.
  refine (proj1 (proj2 (subscribe_then_unsubscribe "c1" "news" _ Sample.subscribed _ _))).
  - reflexivity.
  - discriminate.
Defined.

(** *** Keys *)

Lemma validateApiKey_Ok_iff cm apiKey :
  validateApiKey cm apiKey = Ok true ↔
  ∃ key, apiKey = JStr key ∧ key ≠ EmptyString ∧ is_Some (apiKeys cm !! key).
Proof.
  unfold validateApiKey. split.
  - destruct (negb (truthy apiKey) || negb (is_string apiKey)) eqn:Hfmt; [done|].
    destruct (getClient cm apiKey) as [[key client]|] eqn:Hget; [|done].
    intros _. apply RegistryProperties.getClient_Some in Hget as [-> Hk].
    exists key. split; [done|]. split; [|by eexists].
    apply RegistryProperties.truthy_JStr.
    apply orb_false_iff in Hfmt as [Ht _]. by apply negb_false_iff in Ht.
  - intros (key & -> & Hne & [client Hk]).
    apply RegistryProperties.truthy_JStr in Hne. rewrite Hne. simpl.
    assert (getClient cm (JStr key) = Some (key, client)) as ->
      by by apply RegistryProperties.getClient_Some.
    done.
Qed.

(** X11.  [validateApiKey] accepts exactly the non-empty strings that are
    keys of the registry; every other value makes it throw
    [AuthenticationError], never another error. *)
Theorem validateApiKey_accepts_known_keys (cm : ClientManager.t) (apiKey : JsValue) :
  (validateApiKey cm apiKey = Ok true ↔
   ∃ key, apiKey = JStr key ∧ key ≠ EmptyString ∧ is_Some (apiKeys cm !! key)) ∧
  (validateApiKey cm apiKey ≠ Ok true → throws AuthenticationError (validateApiKey cm apiKey)).
Proof.
  split; [apply validateApiKey_Ok_iff|].
  unfold validateApiKey.
  destruct (negb (truthy apiKey) || negb (is_string apiKey)); [done|].
  by destruct (getClient cm apiKey).
Qed.

Lemma validateApiKey_accepts_known_keys_witness :
  throws AuthenticationError (validateApiKey Sample.registry (JStr "key-C")).
Proof.
  apply (proj2 (validateApiKey_accepts_known_keys Sample.registry (JStr "key-C"))).
  discriminate.
Defined.

(** X12.  Revoking a key of the registry removes the key and every
    connection of its connection set from the connection map, and nothing
    else: other keys and the connections outside the set stay as they
    are.  Afterwards the key is refused: [validateApiKey] and
    [registerConnection] throw [AuthenticationError] for it.  Revoking a
    value that is no key of the registry throws [ValidationError] and
    changes nothing. *)
Theorem revokeApiKey_removes_key_and_connections (cfg : Config) (cm : ClientManager.t)
    (apiKey : JsValue) :
  (∀ key client,
      apiKey = JStr key → apiKeys cm !! key = Some client →
      (revokeApiKey apiKey cm).1 = Ok true ∧
      apiKeys (revokeApiKey apiKey cm).2 = delete key (apiKeys cm) ∧
      (∀ c, connections (revokeApiKey apiKey cm).2 !! c
            = if decide (c ∈ Client.connections client) then None else connections cm !! c) ∧
      throws AuthenticationError (validateApiKey (revokeApiKey apiKey cm).2 apiKey) ∧
      (∀ now c,
          throws AuthenticationError
            (registerConnection cfg now c apiKey (revokeApiKey apiKey cm).2).1)) ∧
  (getClient cm apiKey = None →
   throws ValidationError (revokeApiKey apiKey cm).1 ∧ (revokeApiKey apiKey cm).2 = cm).
Proof.
  split.
  - intros key client -> Hk. unfold revokeApiKey.
    assert (getClient cm (JStr key) = Some (key, client)) as ->
      by by apply RegistryProperties.getClient_Some.
    simpl. split; [done|]. split; [done|].
    split; [intros c; apply RegistryProperties.lookup_delete_all|].
    assert (throws AuthenticationError
              (validateApiKey
                 {| apiKeys := delete key (apiKeys cm);
                    connections :=
                      set_fold (λ connectionId conns, delete connectionId conns)
                               (connections cm) (Client.connections client) |}
                 (JStr key))) as Hrefused.
    { destruct (validateApiKey _ (JStr key)) as [b|e] eqn:Hv.
      - assert (b = true) as ->.
        { revert Hv. unfold validateApiKey. destruct (_ || _); [done|].
          destruct (getClient _ _); [|done]. by intros [= <-]. }
        apply validateApiKey_Ok_iff in Hv as (key' & [= <-] & _ & [x Hx]).
        simpl in Hx. by rewrite lookup_delete_eq in Hx.
      - revert Hv. unfold validateApiKey. destruct (_ || _); [by intros [= <-]|].
        destruct (getClient _ _); [done|]. by intros [= <-]. }
    split; [done|]. intros now c. unfold registerConnection.
    destruct (validateApiKey _ (JStr key)) as [b|e]; [done|]. done.
  - intros Hnone. unfold revokeApiKey. by rewrite Hnone.
Qed.

Lemma revokeApiKey_removes_key_and_connections_witness :
  throws AuthenticationError
    (validateApiKey (revokeApiKey (JStr "key-A") Sample.subscribed).2 (JStr "key-A")).
Proof.
  refine (proj1 (proj2 (proj2 (proj2 (proj1 (revokeApiKey_removes_key_and_connections
                                               default_config Sample.subscribed (JStr "key-A"))
                                        "key-A" _ eq_refl _))))).
  reflexivity.
Defined.

(** X13.  [generateApiKey] with a non-empty client name stores the new key
    with no connection and zeroed counters, and leaves the other keys and
    all connections alone; a non-empty key is then accepted by
    [validateApiKey].  With an empty or non-string name it throws
    [ValidationError] and stores nothing. *)
Theorem generateApiKey_makes_key_valid (now : Z) (apiKey : string) (clientName : JsValue)
    (userId : option string) (cm : ClientManager.t) :
  (∀ name, clientName = JStr name → name ≠ EmptyString →
     (generateApiKey now apiKey clientName userId cm).1 = Ok apiKey ∧
     apiKeys (generateApiKey now apiKey clientName userId cm).2 !! apiKey
     = Some {| Client.name := name; Client.userId := userId; Client.createdAt := now;
               Client.connections := ∅;
               Client.stats := {| Stats.totalConnections := 0;
                                  Stats.totalNotifications := 0;
                                  Stats.lastActivity := now |} |} ∧
     (∀ key, key ≠ apiKey →
        apiKeys (generateApiKey now apiKey clientName userId cm).2 !! key = apiKeys cm !! key) ∧
     connections (generateApiKey now apiKey clientName userId cm).2 = connections cm ∧
     (apiKey ≠ EmptyString →
      validateApiKey (generateApiKey now apiKey clientName userId cm).2 (JStr apiKey)
      = Ok true)) ∧
  (truthy clientName = false ∨ is_string clientName = false →
   throws ValidationError (generateApiKey now apiKey clientName userId cm).1 ∧
   (generateApiKey now apiKey clientName userId cm).2 = cm).
Proof.
  split.
  - intros name -> Hname. unfold generateApiKey.
    apply RegistryProperties.truthy_JStr in Hname. rewrite Hname. simpl.
    split; [done|]. split; [by rewrite lookup_insert_eq|].
    split; [intros key Hkey; by rewrite lookup_insert_ne|]. split; [done|].
    intros Hkey. apply validateApiKey_Ok_iff.
    exists apiKey. split; [done|]. split; [done|]. simpl. rewrite lookup_insert_eq. by eexists.
  - unfold generateApiKey. intros [Ht|Hs].
    + destruct clientName; try done. by rewrite Ht.
    + by destruct clientName.
Qed.

Lemma generateApiKey_makes_key_valid_witness :
  validateApiKey (generateApiKey 5 "key-C" (JStr "carol") None Sample.registry).2 (JStr "key-C")
  = Ok true.
Proof.
  refine (proj2 (proj2 (proj2 (proj2 (proj1 (generateApiKey_makes_key_valid 5 "key-C"
                                               (JStr "carol") None Sample.registry)
                                        "carol" eq_refl _)))) _); discriminate.
Defined.

End RegistryExtras.


(** ** The protocol handler: further properties *)

Module ProtocolExtras.
Import WsServer Invariants WsEvents Outcomes.

Lemma close_not_open ws : Socket.readyState (Socket.close ws) ≠ OPEN.
Proof. unfold Socket.close. simpl. by destruct (Socket.readyState ws). Qed.

(** X14.  An [authenticate] frame the registry refuses (unknown or
    malformed key, or key at its connection limit) is answered by one
    [authenticated] frame with [success: false] and the error text, after
    which the socket is closing; nothing is registered, the session stays
    as it was, and no second error frame is written. *)
Theorem refused_authenticate_closes_socket (cfg : Config) (now : Z)
    (message : ClientMessage.t) (session : Session.t) (cm : ClientManager.t)
    (ws : Socket.t) (e : Error) :
  isAuthenticate message = true →
  (ClientManager.registerConnection cfg now (Session.connectionId session)
     (ClientMessage.apiKey message) cm).1 = Throw e →
  onMessage cfg now message session cm ws
  = (session, cm, Socket.close (sendMessage (MsgAuthenticated false (emessage e)) ws)) ∧
  (Socket.readyState ws = OPEN →
   Socket.readyState (onMessage cfg now message session cm ws).2 = CLOSING ∧
   Socket.sent (onMessage cfg now message session cm ws).2
   = Socket.sent ws ++ [MsgAuthenticated false (emessage e)]).
Proof.
  intros Hauth Hreg.
  assert (onMessage cfg now message session cm ws
          = (session, cm,
             Socket.close (sendMessage (MsgAuthenticated false (emessage e)) ws))) as Heq.
  { unfold onMessage, handleMessage. unfold isAuthenticate in Hauth. rewrite Hauth.
    unfold handleAuthenticate.
    assert (∀ ws', ErrorHandler.handleWebSocketError e (Socket.close ws') = Socket.close ws')
      as Hsilent.
    { intros ws'. unfold ErrorHandler.handleWebSocketError.
      destruct (decide (Socket.readyState (Socket.close ws') = OPEN)) as [H|H]; [|done].
      by apply close_not_open in H. }
    unfold ClientManager.registerConnection in Hreg.
    destruct (ClientManager.validateApiKey cm (ClientMessage.apiKey message)) as [b|e1] eqn:Hv.
    - destruct (RegistryProperties.registerConnection_cases cfg now
                  (Session.connectionId session) (ClientMessage.apiKey message) cm)
        as [[e2 He2]|(key & client & _ & _ & _ & _ & He2)].
      + unfold ClientManager.registerConnection in He2. rewrite Hv in He2.
        rewrite He2 in Hreg. simpl in Hreg. injection Hreg as ->.
        unfold ClientManager.registerConnection. rewrite Hv, He2. by rewrite Hsilent.
      + unfold ClientManager.registerConnection in He2. rewrite Hv in He2.
        by rewrite He2 in Hreg.
    - simpl in Hreg. injection Hreg as ->. by rewrite Hsilent. }
  split; [done|]. intros Hopen. rewrite Heq. simpl.
  unfold sendMessage. rewrite decide_True by done. simpl. by rewrite Hopen.
Qed.

Lemma refused_authenticate_closes_socket_witness :
  onMessage default_config 4 (authenticate "key-C") (handleConnection "c1").1
    Sample.registry (handleConnection "c1").2
  = ((handleConnection "c1").1, Sample.registry,
     Socket.close (sendMessage (MsgAuthenticated false "Invalid API key")
                     (handleConnection "c1").2)).
Proof.
  apply (proj1 (refused_authenticate_closes_socket default_config 4 (authenticate "key-C")
                  (handleConnection "c1").1 Sample.registry (handleConnection "c1").2
                  (mkError AuthenticationError "Invalid API key") eq_refl eq_refl)).
Defined.

(** *** A session from connection to subscription *)

Lemma onMessage_authenticate_accepted cfg now key client session cm ws :
  key ≠ EmptyString →
  ClientManager.apiKeys cm !! key = Some client →
  Z.of_nat (size (Client.connections client)) < maxClientsPerApiKey cfg →
  onMessage cfg now (authenticate key) session cm ws
  = (if Session.isAuthenticated session then session
     else {| Session.connectionId := Session.connectionId session;
             Session.apiKey := JStr key; Session.isAuthenticated := true |},
     Predicates.registered now (Session.connectionId session) key client cm,
     sendMessage (MsgAuthenticated true "Successfully authenticated") ws).
Proof.
  intros Hkey Hk Hlt. unfold onMessage, handleMessage, handleAuthenticate, isAuthenticate.
  change (is_literal "authenticate" (ClientMessage.type (authenticate key))) with true.
  change (ClientMessage.apiKey (authenticate key)) with (JStr key).
  cbv iota.
  rewrite (RegistryProperties.registerConnection_known cfg now _ key client cm Hkey Hk).
  destruct (Z.leb_spec (maxClientsPerApiKey cfg)
              (Z.of_nat (size (Client.connections client)))); [lia|].
  assert (ClientManager.validateApiKey cm (JStr key) = Ok true) as ->.
  { apply RegistryExtras.validateApiKey_Ok_iff. exists key. eauto. }
  cbn [andb]. by destruct (Session.isAuthenticated session).
Qed.

Lemma onMessage_subscribe_accepted cfg now ch conn session cm ws :
  Session.isAuthenticated session = true →
  ClientManager.connections cm !! Session.connectionId session = Some conn →
  ch ≠ EmptyString →
  onMessage cfg now (subscribe ch) session cm ws
  = (session,
     (ClientManager.subscribeToChannel (Session.connectionId session) (JStr ch) cm).2,
     sendMessage (MsgSubscribed true (JStr ch) ("Subscribed to channel: " +:+ ch)) ws).
Proof.
  intros Hauth Hc Hch. unfold onMessage, handleMessage, handleSubscribe, isAuthenticate.
  change (is_literal "authenticate" (ClientMessage.type (subscribe ch))) with false.
  change (is_literal "subscribe" (ClientMessage.type (subscribe ch))) with true.
  change (ClientMessage.channel (subscribe ch)) with (JStr ch).
  cbv iota. rewrite Hauth. cbn [negb andb].
  unfold ClientManager.subscribeToChannel. rewrite Hc.
  apply RegistryProperties.truthy_JStr in Hch. rewrite Hch. done.
Qed.

(** X15.  A socket that connects, authenticates with a key of the registry
    that has a free slot, and subscribes to a channel, is sent three
    frames: the greeting, the confirmation of the authentication and the
    confirmation of the subscription.  It stays open, its session carries
    the key, the registry records the connection with this one channel,
    and the channel lists the connection. *)
Theorem authenticate_then_subscribe (cfg : Config) (t1 t2 : Z) (c key ch : string)
    (client : Client.t) (cm : ClientManager.t) :
  key ≠ EmptyString →
  ClientManager.apiKeys cm !! key = Some client →
  Z.of_nat (size (Client.connections client)) < maxClientsPerApiKey cfg →
  ch ≠ EmptyString →
  let st := onMessages cfg [(t1, authenticate key); (t2, subscribe ch)]
              ((handleConnection c).1, cm, (handleConnection c).2) in
  Socket.sent st.2
  = [MsgConnected c "Please authenticate with your API key";
     MsgAuthenticated true "Successfully authenticated";
     MsgSubscribed true (JStr ch) ("Subscribed to channel: " +:+ ch)] ∧
  Socket.readyState st.2 = OPEN ∧
  Session.isAuthenticated st.1.1 = true ∧
  Session.apiKey st.1.1 = JStr key ∧
  ClientManager.connections st.1.2 !! c
  = Some {| Connection.apiKey := key; Connection.channels := {[ch]};
            Connection.connectedAt := t1 |} ∧
  c ∈ ClientManager.getConnectionsByChannel st.1.2 (JStr ch).
Proof.
  intros Hkey Hk Hlt Hch st. unfold st, onMessages. cbn [foldl fst snd].
  rewrite (onMessage_authenticate_accepted cfg t1 key client _ cm _ Hkey Hk Hlt).
  cbn [handleConnection fst snd Session.isAuthenticated Session.connectionId].
  erewrite (onMessage_subscribe_accepted cfg t2 ch); [|done| |done].
  2:{ cbn. apply lookup_insert_eq. }
  cbn [fst snd Session.isAuthenticated Session.apiKey Session.connectionId].
  assert (ClientManager.connections
            (ClientManager.subscribeToChannel c (JStr ch)
               (Predicates.registered t1 c key client cm)).2 !! c
          = Some {| Connection.apiKey := key; Connection.channels := {[ch]};
                    Connection.connectedAt := t1 |}) as Hconn.
  { unfold ClientManager.subscribeToChannel.
    cbn [Predicates.registered ClientManager.connections].
    rewrite lookup_insert_eq. apply RegistryProperties.truthy_JStr in Hch. rewrite Hch.
    cbn [negb snd ClientManager.connections]. rewrite lookup_insert_eq.
    cbn [Connection.apiKey Connection.channels Connection.connectedAt].
    by rewrite (right_id_L (∅ : gset string) (∪)). }
  split; [done|]. split; [done|]. split; [done|]. split; [done|]. split; [done|].
  apply RegistryProperties.elem_of_getConnectionsByChannel. eexists. split; [exact Hconn|].
  apply RegistryExtras.hasChannel_JStr.
  cbn [Connection.channels]. by apply elem_of_singleton.
Qed.

Lemma authenticate_then_subscribe_witness :
  "c1" ∈ ClientManager.getConnectionsByChannel
           (onMessages default_config [(1, authenticate "key-A"); (2, subscribe "updates")]
              ((handleConnection "c1").1, Sample.registry, (handleConnection "c1").2)).1.2
           (JStr "updates").
Proof.
  refine (proj2 (proj2 (proj2 (proj2 (proj2
            (authenticate_then_subscribe default_config 1 2 "c1" "key-A" "updates"
               (Sample.client "alice" ∅) Sample.registry _ _ _ _)))))).
  - discriminate.
  - reflexivity.
  - reflexivity.
  - discriminate.
Defined.

(** *** What a frame can touch *)

Lemma appended_refl k ws : appended k ws ws.
Proof. exists []. rewrite app_nil_r. repeat split. simpl. lia. Qed.

Lemma appended_trans k1 k2 ws1 ws2 ws3 :
  appended k1 ws1 ws2 → appended k2 ws2 ws3 → appended (k1 + k2) ws1 ws3.
Proof.
  intros (f1 & E1 & L1 & A1) (f2 & E2 & L2 & A2). exists (f1 ++ f2).
  rewrite E2, E1, <- app_assoc, length_app. split; [done|]. split; [lia|congruence].
Qed.

Lemma appended_mono k k' ws ws' : (k ≤ k')%nat → appended k ws ws' → appended k' ws ws'.
Proof. intros Hk (f & E & L & A). exists f. split; [done|]. split; [lia|done]. Qed.

Lemma appended_sendMessage m ws : appended 1 ws (sendMessage m ws).
Proof.
  unfold sendMessage. destruct (decide (Socket.readyState ws = OPEN)).
  - exists [m]. done.
  - apply appended_refl.
Qed.

Lemma appended_handleWebSocketError e ws :
  appended 1 ws (ErrorHandler.handleWebSocketError e ws).
Proof.
  unfold ErrorHandler.handleWebSocketError.
  destruct (decide (Socket.readyState ws = OPEN)).
  - eexists [_]. done.
  - apply appended_refl.
Qed.

Lemma appended_close k ws ws' : appended k ws ws' → appended k ws (Socket.close ws').
Proof. intros (f & E & L & A). exists f. done. Qed.

Lemma handleWebSocketError_closed e ws :
  ErrorHandler.handleWebSocketError e (Socket.close ws) = Socket.close ws.
Proof.
  unfold ErrorHandler.handleWebSocketError.
  destruct (decide (Socket.readyState (Socket.close ws) = OPEN)) as [H|H]; [|done].
  by apply close_not_open in H.
Qed.

Ltac one_frame :=
  apply (appended_mono 1); [lia|];
  first [apply appended_sendMessage | apply appended_handleWebSocketError].

Ltac two_frames :=
  eapply (appended_trans 1 1); [apply appended_sendMessage|apply appended_handleWebSocketError].

(** X16.  Whatever frame a socket sends, and whatever its session and the
    registry are, handling the frame leaves the registry's record of every
    other connection as it was, writes at most two frames to the socket,
    after those already written, and keeps the connection id of the
    session. *)
Theorem frame_touches_only_its_connection (cfg : Config) (now : Z)
    (message : ClientMessage.t) (session : Session.t) (cm : ClientManager.t) (ws : Socket.t) :
  (∀ c', c' ≠ Session.connectionId session →
         ClientManager.connections (onMessage cfg now message session cm ws).1.2 !! c'
         = ClientManager.connections cm !! c') ∧
  appended 2 ws (onMessage cfg now message session cm ws).2 ∧
  Session.connectionId (onMessage cfg now message session cm ws).1.1
  = Session.connectionId session.
Proof.
  unfold onMessage, handleMessage.
  destruct (is_literal "authenticate" (ClientMessage.type message)) eqn:Hauth.
  { unfold handleAuthenticate, isAuthenticate. rewrite Hauth.
    destruct (ClientManager.validateApiKey cm (ClientMessage.apiKey message)) as [b|e1].
    2:{ cbn. rewrite handleWebSocketError_closed. split; [done|]. split; [|done].
        apply appended_close. one_frame. }
    destruct (RegistryProperties.registerConnection_cases cfg now
                (Session.connectionId session) (ClientMessage.apiKey message) cm)
      as [[e2 ->]|(key & client & _ & _ & _ & _ & ->)].
    - cbn. rewrite handleWebSocketError_closed. split; [done|]. split; [|done].
      apply appended_close. one_frame.
    - split; [|split].
      + intros c' Hc'. destruct (Session.isAuthenticated session); cbn;
          by rewrite lookup_insert_ne.
      + destruct (Session.isAuthenticated session); cbn; one_frame.
      + by destruct (Session.isAuthenticated session). }
  unfold isAuthenticate. rewrite Hauth. cbn [andb].
  destruct (is_literal "subscribe" (ClientMessage.type message)).
  { destruct (Session.isAuthenticated session); cbn [negb].
    - unfold handleSubscribe, ClientManager.subscribeToChannel.
      destruct (ClientManager.connections cm !! Session.connectionId session) as [conn|].
      2:{ cbn. split; [done|]. split; [|done].
          two_frames. }
      destruct (ClientMessage.channel message) as [| | | |ch|];
        try (cbn; split; [done|]; split; [|done];
             two_frames).
      destruct (negb (truthy (JStr ch))).
      + cbn. split; [done|]. split; [|done].
        two_frames.
      + cbn. split; [intros c' Hc'; by rewrite lookup_insert_ne|]. split; [|done].
        one_frame.
    - cbn. split; [done|]. split; [|done]. one_frame. }
  destruct (is_literal "unsubscribe" (ClientMessage.type message)).
  { destruct (Session.isAuthenticated session); cbn [negb].
    - unfold handleUnsubscribe, ClientManager.unsubscribeFromChannel.
      destruct (ClientManager.connections cm !! Session.connectionId session) as [conn|].
      + cbn. split; [intros c' Hc'; by rewrite lookup_insert_ne|]. split; [|done].
        one_frame.
      + cbn. split; [done|]. split; [|done]. one_frame.
    - cbn. split; [done|]. split; [|done]. one_frame. }
  destruct (is_literal "ping" (ClientMessage.type message)).
  - cbn. split; [done|]. split; [|done]. one_frame.
  - cbn. split; [done|]. split; [|done]. one_frame.
Qed.

Lemma frame_touches_only_its_connection_witness :
  ClientManager.connections
    (onMessage default_config 5 (subscribe "news") (handleConnection "c2").1
       Sample.subscribed Sample.socket).1.2 !! "c1"
  = ClientManager.connections Sample.subscribed !! "c1".
Proof.
  apply (proj1 (frame_touches_only_its_connection default_config 5 (subscribe "news")
                  (handleConnection "c2").1 Sample.subscribed Sample.socket) "c1").
  discriminate.
Defined.

(** *** The session *)

Lemma onMessage_authenticated_session cfg now message session cm ws :
  Session.isAuthenticated session = true →
  (onMessage cfg now message session cm ws).1.1 = session.
Proof.
  intros Hauth. unfold onMessage.
  destruct (handleMessage _ _ _ _ _ _ _ _) as [[[u|e] cm'] ws']; [|done].
  rewrite Hauth. by rewrite andb_false_r.
Qed.

(** X17.  The session of a socket is written once.  While it is not
    authenticated, the only frame that changes it is an [authenticate]
    frame the registry accepts: the session then carries the string key of
    the frame, and the registry records the connection under this key,
    with no channel.  Once it is authenticated no sequence of frames
    changes it, later [authenticate] frames included. *)
Theorem session_is_set_by_first_accepted_key (cfg : Config)
    (frames : list (Z * ClientMessage.t)) (now : Z) (message : ClientMessage.t)
    (session : Session.t) (cm : ClientManager.t) (ws : Socket.t) :
  (Session.isAuthenticated session = true →
   (onMessages cfg frames (session, cm, ws)).1.1 = session) ∧
  (Session.isAuthenticated session = false →
   Session.isAuthenticated (onMessage cfg now message session cm ws).1.1 = true →
   ∃ key,
     ClientMessage.apiKey message = JStr key ∧
     (onMessage cfg now message session cm ws).1.1
     = {| Session.connectionId := Session.connectionId session;
          Session.apiKey := JStr key; Session.isAuthenticated := true |} ∧
     ClientManager.connections (onMessage cfg now message session cm ws).1.2
       !! Session.connectionId session
     = Some {| Connection.apiKey := key; Connection.channels := ∅;
               Connection.connectedAt := now |}).
Proof.
  split.
  - intros Hauth. unfold onMessages. revert cm ws.
    induction frames as [|[t m] frames IH]; intros cm ws; [done|].
    cbn [foldl fst snd].
    pose proof (onMessage_authenticated_session cfg t m session cm ws Hauth) as Hs.
    destruct (onMessage cfg t m session cm ws) as [[s' cm'] ws']. simpl in Hs. subst s'.
    apply IH.
  - intros Hno. unfold onMessage, handleMessage, isAuthenticate.
    destruct (is_literal "authenticate" (ClientMessage.type message)) eqn:Hauth.
    + unfold handleAuthenticate.
      destruct (ClientManager.validateApiKey cm (ClientMessage.apiKey message)) as [b|e1];
        [|cbn; congruence].
      destruct (RegistryProperties.registerConnection_cases cfg now
                  (Session.connectionId session) (ClientMessage.apiKey message) cm)
        as [[e2 ->]|(key & client & -> & _ & _ & _ & ->)]; [cbn; congruence|].
      rewrite Hno. cbn. intros _. exists key. split; [done|]. split; [done|].
      by rewrite lookup_insert_eq.
    + cbn [andb]. intros H.
      destruct (_ : result unit * ClientManager.t * Socket.t) as [[[u|e] cm'] ws'];
        cbn in H; congruence.
Qed.

Lemma session_is_set_by_first_accepted_key_witness :
  (onMessages default_config [(7, authenticate "key-B"); (8, subscribe "news")]
     ({| Session.connectionId := "c1"; Session.apiKey := JStr "key-A";
         Session.isAuthenticated := true |}, Sample.subscribed, Sample.socket)).1.1
  = {| Session.connectionId := "c1"; Session.apiKey := JStr "key-A";
       Session.isAuthenticated := true |}.
Proof.
  apply (proj1 (session_is_set_by_first_accepted_key default_config
                  [(7, authenticate "key-B"); (8, subscribe "news")] 0 (authenticate "key-A")
                  {| Session.connectionId := "c1"; Session.apiKey := JStr "key-A";
                     Session.isAuthenticated := true |} Sample.subscribed Sample.socket)).
  reflexivity.
Defined.

(** *** The heartbeat *)

Lemma unregisterConnection_lookup c cm c' :
  ClientManager.connections (ClientManager.unregisterConnection c cm).2 !! c'
  = if decide (c = c') then None else ClientManager.connections cm !! c'.
Proof.
  unfold ClientManager.unregisterConnection.
  destruct (ClientManager.connections cm !! c) as [conn|] eqn:Hc; simpl.
  - apply lookup_delete.
  - destruct (decide (c = c')) as [<-|]; done.
Qed.

(** What one tick of the heartbeat does to one entry. *)
Lemma heartbeat_fold cm cs0 (m : gmap string Socket.t) :
  ∀ id,
    (map_fold heartbeatOne (cm, cs0) m).2 !! id
    = match m !! id with
      | Some ws => if Socket.isAlive ws then Some (Socket.setAlive false ws) else None
      | None => cs0 !! id
      end ∧
    ClientManager.connections (map_fold heartbeatOne (cm, cs0) m).1 !! id
    = match m !! id with
      | Some ws => if Socket.isAlive ws then ClientManager.connections cm !! id else None
      | None => ClientManager.connections cm !! id
      end.
Proof.
  apply (map_fold_weak_ind
           (λ (r : ClientManager.t * gmap string Socket.t) (m : gmap string Socket.t),
              ∀ id,
                r.2 !! id
                = match m !! id with
                  | Some ws =>
                      if Socket.isAlive ws then Some (Socket.setAlive false ws) else None
                  | None => cs0 !! id
                  end ∧
                ClientManager.connections r.1 !! id
                = match m !! id with
                  | Some ws =>
                      if Socket.isAlive ws then ClientManager.connections cm !! id else None
                  | None => ClientManager.connections cm !! id
                  end)).
  - intros id. by rewrite lookup_empty.
  - intros i ws m' r Hi IH id. destruct (IH id) as [IH1 IH2].
    unfold heartbeatOne. rewrite lookup_insert.
    destruct (decide (i = id)) as [<-|Hne].
    + destruct (Socket.isAlive ws) eqn:Halive; simpl.
      * rewrite lookup_insert_eq. split; [done|]. by rewrite IH2, Hi.
      * rewrite lookup_delete_eq. split; [done|].
        rewrite unregisterConnection_lookup. by rewrite decide_True.
    + destruct (Socket.isAlive ws) eqn:Halive; simpl.
      * by rewrite lookup_insert_ne.
      * rewrite lookup_delete_ne by done. split; [done|].
        rewrite unregisterConnection_lookup. by rewrite decide_False.
Qed.

(** X18.  One tick of the heartbeat turns the liveness flag of every
    socket that has it up down again, and evicts every socket that has it
    down: the socket leaves the server's map and its connection leaves the
    registry, while the connections of the other sockets stay.  So two
    ticks with no [pong] in between evict every socket; a socket that
    answers each [ping] with a [pong] is kept, with its registration. *)
Theorem heartbeat_evicts_silent_sockets (cm : ClientManager.t) (clients : gmap string Socket.t) :
  (∀ id,
     (heartbeat cm clients).2 !! id
     = match clients !! id with
       | Some ws => if Socket.isAlive ws then Some (Socket.setAlive false ws) else None
       | None => None
       end ∧
     ClientManager.connections (heartbeat cm clients).1 !! id
     = match clients !! id with
       | Some ws => if Socket.isAlive ws then ClientManager.connections cm !! id else None
       | None => ClientManager.connections cm !! id
       end) ∧
  (let tick1 := heartbeat cm clients in
   let tick2 := heartbeat tick1.1 tick1.2 in
   tick2.2 = ∅ ∧
   ∀ id, is_Some (clients !! id) → ClientManager.connections tick2.1 !! id = None) ∧
  (let tick1 := heartbeat cm clients in
   let tick2 := heartbeat tick1.1 (allPong tick1.2) in
   ∀ id ws, clients !! id = Some ws → Socket.isAlive ws = true →
     tick2.2 !! id = Some (Socket.setAlive false ws) ∧
     ClientManager.connections tick2.1 !! id = ClientManager.connections cm !! id).
Proof.
  assert (∀ cm clients id,
            (heartbeat cm clients).2 !! id
            = match clients !! id with
              | Some ws => if Socket.isAlive ws then Some (Socket.setAlive false ws) else None
              | None => None
              end ∧
            ClientManager.connections (heartbeat cm clients).1 !! id
            = match clients !! id with
              | Some ws =>
                  if Socket.isAlive ws then ClientManager.connections cm !! id else None
              | None => ClientManager.connections cm !! id
              end) as Htick.
  { intros cm' cs id. unfold heartbeat.
    destruct (heartbeat_fold cm' cs cs id) as [H1 H2]. split; [|done].
    rewrite H1. by destruct (cs !! id) eqn:E. }
  split; [apply Htick|]. split.
  - cbv zeta. split.
    + apply map_eq. intros id. rewrite lookup_empty.
      destruct (Htick (heartbeat cm clients).1 (heartbeat cm clients).2 id) as [-> _].
      destruct (Htick cm clients id) as [-> _].
      destruct (clients !! id) as [ws|]; [|done].
      by destruct (Socket.isAlive ws).
    + intros id [ws Hws].
      destruct (Htick (heartbeat cm clients).1 (heartbeat cm clients).2 id) as [_ ->].
      destruct (Htick cm clients id) as [-> ->]. rewrite Hws.
      by destruct (Socket.isAlive ws).
  - cbv zeta. intros id ws Hws Halive.
    destruct (Htick (heartbeat cm clients).1 (allPong (heartbeat cm clients).2) id)
      as [-> ->].
    unfold allPong. rewrite lookup_fmap.
    destruct (Htick cm clients id) as [-> ->]. rewrite Hws, Halive. simpl.
    split; [|done]. by destruct ws.
Qed.

Lemma heartbeat_evicts_silent_sockets_witness :
  (heartbeat (heartbeat Sample.subscribed {["c1" := Sample.socket]}).1
     (allPong (heartbeat Sample.subscribed {["c1" := Sample.socket]}).2)).2 !! "c1"
  = Some (Socket.setAlive false Sample.socket) ∧
  ClientManager.connections
    (heartbeat (heartbeat Sample.subscribed {["c1" := Sample.socket]}).1
       (allPong (heartbeat Sample.subscribed {["c1" := Sample.socket]}).2)).1 !! "c1"
  = ClientManager.connections Sample.subscribed !! "c1".
Proof.
  apply (proj2 (proj2 (heartbeat_evicts_silent_sockets Sample.subscribed
                         {["c1" := Sample.socket]})) "c1" Sample.socket).
  - reflexivity.
  - reflexivity.
Defined.

(** *** Disconnection *)

(** X19.  When a registered socket disconnects, its connection leaves the
    server's map and the registry, and no channel lists it any more; the
    other sockets and connections are as before; a second disconnection of
    the same id changes nothing; and the key of the connection has a free
    slot again: the next [registerConnection] for it succeeds, even if the
    key was at its limit. *)
Theorem disconnection_frees_slot (cfg : Config) (now : Z) (c c' key : string)
    (client : Client.t) (conn : Connection.t) (cm : ClientManager.t)
    (clients : gmap string Socket.t) :
  key ≠ EmptyString →
  ClientManager.connections cm !! c = Some conn →
  Connection.apiKey conn = key →
  ClientManager.apiKeys cm !! key = Some client →
  c ∈ Client.connections client →
  Z.of_nat (size (Client.connections client)) ≤ maxClientsPerApiKey cfg →
  let st := handleDisconnection c cm clients in
  st.2 !! c = None ∧
  ClientManager.connections st.1 !! c = None ∧
  (∀ channel, c ∉ ClientManager.getConnectionsByChannel st.1 channel) ∧
  (∀ d, d ≠ c →
     st.2 !! d = clients !! d ∧
     ClientManager.connections st.1 !! d = ClientManager.connections cm !! d) ∧
  handleDisconnection c st.1 st.2 = st ∧
  (ClientManager.registerConnection cfg now c' (JStr key) st.1).1 = Ok true.
Proof.
  intros Hkey Hc <- Hclient Hin Hsize st. unfold st, handleDisconnection.
  assert (ClientManager.unregisterConnection c cm
          = (true,
             {| ClientManager.apiKeys :=
                  alter (ClientManager.dropConnection c) (Connection.apiKey conn)
                        (ClientManager.apiKeys cm);
                ClientManager.connections := delete c (ClientManager.connections cm) |}))
    as ->.
  { unfold ClientManager.unregisterConnection. by rewrite Hc. }
  cbn [fst snd ClientManager.connections ClientManager.apiKeys].
  split; [apply lookup_delete_eq|]. split; [apply lookup_delete_eq|]. split.
  { intros channel. rewrite RegistryProperties.elem_of_getConnectionsByChannel.
    intros (conn' & H & _). cbn in H. by rewrite lookup_delete_eq in H. }
  split.
  { intros d Hd. by rewrite !lookup_delete_ne. }
  split.
  { unfold ClientManager.unregisterConnection.
    cbn [ClientManager.connections]. rewrite lookup_delete_eq. cbn [snd].
    by rewrite delete_delete_eq. }
  rewrite (RegistryProperties.registerConnection_known cfg now c' (Connection.apiKey conn)
             (ClientManager.dropConnection c client) _ Hkey).
  2:{ cbn [ClientManager.apiKeys]. by rewrite lookup_alter_eq, Hclient. }
  cbn [ClientManager.dropConnection Client.connections].
  assert (size (Client.connections client ∖ {[c]}) + 1 = size (Client.connections client))%nat.
  { rewrite <- (size_singleton (C:=gset string) c).
    rewrite <- size_union
      by (apply elem_of_disjoint; intros x [_ Hx]%elem_of_difference Hx'; done).
    f_equal. apply set_eq. intros x.
    rewrite elem_of_union, elem_of_difference, elem_of_singleton.
    split; [intros [[? _]| ->]; done|].
    intros Hx. destruct (decide (x = c)); [by right|by left]. }
  destruct (Z.leb_spec (maxClientsPerApiKey cfg)
              (Z.of_nat (size (Client.connections client ∖ {[c]})))); [lia|done].
Qed.

Lemma disconnection_frees_slot_witness :
  (ClientManager.registerConnection (mkConfig 10000 3 1000 10 86400000 1 30000) 9 "c2"
     (JStr "key-A")
     (handleDisconnection "c1" Sample.subscribed {["c1" := Sample.socket]}).1).1 = Ok true.
Proof.
  refine (proj2 (proj2 (proj2 (proj2 (proj2
            (disconnection_frees_slot (mkConfig 10000 3 1000 10 86400000 1 30000) 9
               "c1" "c2" "key-A"
               {| Client.name := "alice"; Client.userId := None; Client.createdAt := 0;
                  Client.connections := {["c1"]};
                  Client.stats := {| Stats.totalConnections := 1;
                                     Stats.totalNotifications := 0;
                                     Stats.lastActivity := 0 |} |}
               {| Connection.apiKey := "key-A"; Connection.channels := {["updates"]};
                  Connection.connectedAt := 0 |}
               Sample.subscribed {["c1" := Sample.socket]} _ _ _ _ _ _)))))).
  - discriminate.
  - reflexivity.
  - reflexivity.
  - reflexivity.
  - reflexivity.
  - vm_compute. discriminate.
Defined.

End ProtocolExtras.

(** ** The delivery engine: further properties *)

Module EngineExtras.
Import NotificationService Invariants Outcomes.

(** *** Delivery *)

Lemma sendAll_attached n : ∀ conns results w,
  World.wsServer w = true → NoDup conns →
  ∃ results' cs',
    sendAll n conns results w = (Ok results', World.setClients cs' w) ∧
    ∀ c, cs' !! c
         = match World.clients w !! c with
           | Some ws =>
               if decide (reached n conns c ws) then Some (Socket.send (frameOf n) ws)
               else Some ws
           | None => None
           end.
Proof.
  induction conns as [|c0 conns IH]; intros results w Hws Hnd.
  - exists results, (World.clients w). split; [by destruct w|].
    intros c. destruct (World.clients w !! c) as [ws|]; [|done].
    rewrite decide_False; [done|]. intros [H _]. by apply not_elem_of_nil in H.
  - apply NoDup_cons in Hnd as [Hc0 Hnd]. cbn [sendAll].
    destruct (excluded (Notification.metadata n) c0) eqn:Hex.
    { destruct (IH results w Hws Hnd) as (r' & cs' & -> & Hcs).
      exists r', cs'. split; [done|]. intros c. rewrite Hcs.
      destruct (World.clients w !! c) as [ws|]; [|done].
      destruct (decide (reached n conns c ws)) as [Hr|Hr].
      - rewrite decide_True; [done|]. destruct Hr as (? & ? & ?). split; [by right|done].
      - rewrite decide_False; [done|]. intros (Hin & Hx & Ho). apply Hr.
        apply elem_of_cons in Hin as [->|Hin]; [congruence|done]. }
    unfold sendToConnection. rewrite Hws. cbn [negb].
    assert (∀ w1 : World.t,
              World.wsServer w1 = true →
              (∀ c, c ≠ c0 → World.clients w1 !! c = World.clients w !! c) →
              (World.clients w1 !! c0
               = match World.clients w !! c0 with
                 | Some ws => if decide (Socket.readyState ws = OPEN)
                              then Some (Socket.send (frameOf n) ws) else Some ws
                 | None => None
                 end) →
              ∀ r1, ∃ results' cs',
                sendAll n conns r1 w1 = (Ok results', World.setClients cs' w1) ∧
                ∀ c, cs' !! c
                     = match World.clients w !! c with
                       | Some ws =>
                           if decide (reached n (c0 :: conns) c ws)
                           then Some (Socket.send (frameOf n) ws) else Some ws
                       | None => None
                       end) as Hrest.
    { intros w1 Hws1 Hother Hself r1.
      destruct (IH r1 w1 Hws1 Hnd) as (r' & cs' & -> & Hcs).
      exists r', cs'. split; [done|]. intros c. rewrite Hcs.
      destruct (decide (c = c0)) as [->|Hne].
      - rewrite Hself. destruct (World.clients w !! c0) as [ws|]; [|done].
        destruct (decide (Socket.readyState ws = OPEN)) as [Ho|Ho].
        + rewrite decide_False by (by intros [H _]).
          rewrite decide_True; [done|]. split; [left|done].
        + rewrite decide_False by (by intros [H _]).
          rewrite decide_False; [done|]. by intros (_ & _ & H).
      - rewrite Hother by done. destruct (World.clients w !! c) as [ws|]; [|done].
        destruct (decide (reached n conns c ws)) as [Hr|Hr].
        + rewrite decide_True; [done|]. destruct Hr as (? & ? & ?). split; [by right|done].
        + rewrite decide_False; [done|]. intros (Hin & Hx & Ho). apply Hr.
          apply elem_of_cons in Hin as [->|Hin]; done. }
    destruct (World.clients w !! c0) as [ws|] eqn:Hc0w.
    + destruct (decide (Socket.readyState ws = OPEN)) as [Ho|Ho].
      * edestruct (Hrest (World.setClients
                            (<[c0 := Socket.send
                                       (MsgNotification (Notification.id n)
                                          (Notification.channel n) (Notification.data n)
                                          (Metadata.timestamp (Notification.metadata n))) ws]>
                               (World.clients w)) w))
          as (r' & cs' & Heq & Hcs).
        -- by destruct w.
        -- intros c Hne. destruct w. cbn. by rewrite lookup_insert_ne.
        -- destruct w. cbn in *. by rewrite lookup_insert_eq.
        -- exists r', cs'. split; [|exact Hcs]. rewrite Heq. by destruct w.
      * edestruct (Hrest w Hws) as (r' & cs' & Heq & Hcs).
        -- done.
        -- done.
        -- exists r', cs'. split; [exact Heq|exact Hcs].
    + edestruct (Hrest w Hws) as (r' & cs' & Heq & Hcs).
      * done.
      * done.
      * exists r', cs'. split; [exact Heq|exact Hcs].
Qed.

Lemma getConnectionsByChannel_NoDup cm channel :
  NoDup (ClientManager.getConnectionsByChannel cm channel).
Proof.
  unfold ClientManager.getConnectionsByChannel.
  eapply sublist_NoDup; [apply (NoDup_fst_map_to_list (ClientManager.connections cm))|].
  apply fmap_sublist, sublist_filter.
Qed.


(** With the server attached, [#processNotification] runs to its end and
    changes the sockets only: those [reached] get the frame. *)
Lemma processNotification_attached cfg item w :
  World.wsServer w = true →
  let n := QueueItem.notification item in
  ∃ entry cs',
    processNotification cfg item w = (None, World.addLog entry (World.setClients cs' w)) ∧
    ∀ c, cs' !! c
         = match World.clients w !! c with
           | Some ws =>
               if decide (reached n
                            (ClientManager.getConnectionsByChannel
                               (World.clientManager w) (Notification.channel n)) c ws)
               then Some (Socket.send (frameOf n) ws) else Some ws
           | None => None
           end.
Proof.
  intros Hws n. unfold processNotification. fold n.
  pose proof (getConnectionsByChannel_NoDup (World.clientManager w)
                (Notification.channel n)) as Hnd.
  destruct (ClientManager.getConnectionsByChannel (World.clientManager w)
              (Notification.channel n)) as [|c0 conns] eqn:Hconns.
  - eexists _, (World.clients w). split; [by destruct w|].
    intros c. destruct (World.clients w !! c) as [ws|]; [|done].
    rewrite decide_False; [done|]. intros [H _]. by apply not_elem_of_nil in H.
  - destruct (sendAll_attached n (c0 :: conns) [] w Hws Hnd) as (res & cs' & -> & Hcs).
    eexists _, cs'. split; [done|]. exact Hcs.
Qed.

Lemma reached_subscribedTo n cm c ws :
  reached n (ClientManager.getConnectionsByChannel cm (Notification.channel n)) c ws
  ↔ subscribedTo cm (Notification.channel n) c ∧
    excluded (Notification.metadata n) c = false ∧
    Socket.readyState ws = OPEN.
Proof.
  unfold reached, subscribedTo.
  by rewrite RegistryProperties.elem_of_getConnectionsByChannel.
Qed.

(** X20.  With the WebSocket server attached, processing an item never
    asks for a retry.  Every socket of the server that is open, subscribed
    to the notification's channel and not the excluded connection is sent
    exactly one frame, the notification; every other socket is left as it
    is and no socket appears or disappears.  The queue, the registry and
    the state of the loop are not touched, and one line is logged. *)
Theorem delivery_reaches_open_subscribers (cfg : Config) (item : QueueItem.t) (w : World.t) :
  World.wsServer w = true →
  let n := QueueItem.notification item in
  let r := processNotification cfg item w in
  r.1 = None ∧
  (∀ c ws, World.clients w !! c = Some ws →
     (subscribedTo (World.clientManager w) (Notification.channel n) c →
      excluded (Notification.metadata n) c = false →
      Socket.readyState ws = OPEN →
      World.clients r.2 !! c = Some (Socket.send (frameOf n) ws)) ∧
     (¬ (subscribedTo (World.clientManager w) (Notification.channel n) c ∧
         excluded (Notification.metadata n) c = false ∧
         Socket.readyState ws = OPEN) →
      World.clients r.2 !! c = Some ws)) ∧
  (∀ c, World.clients w !! c = None → World.clients r.2 !! c = None) ∧
  World.notificationQueue r.2 = World.notificationQueue w ∧
  World.clientManager r.2 = World.clientManager w ∧
  World.loop r.2 = World.loop w ∧
  World.processing r.2 = World.processing w ∧
  (∃ entry, World.log r.2 = World.log w ++ [entry]).
Proof.
  intros Hws n r.
  destruct (processNotification_attached cfg item w Hws) as (entry & cs' & Hr & Hcs).
  fold n in Hcs. unfold r. rewrite Hr. cbn [fst snd]. split; [done|].
  split; [|split].
  - intros c ws Hc. destruct w; cbn in *. rewrite Hcs, Hc. split.
    + intros H1 H2 H3. rewrite decide_True; [done|]. by apply reached_subscribedTo.
    + intros Hnot. rewrite decide_False; [done|]. intros H.
      by apply Hnot, reached_subscribedTo.
  - intros c Hc. destruct w; cbn in *. by rewrite Hcs, Hc.
  - destruct w; cbn. repeat split; eauto.
Qed.

Lemma delivery_reaches_open_subscribers_witness :
  World.clients (processNotification default_config (Sample.item "n1" 5 0)
                   (Sample.world true)).2 !! "c1"
  = Some (Socket.send (frameOf (Sample.note "n1" (JNum 5))) Sample.socket).
Proof.
  refine (proj1 (proj1 (proj2 (delivery_reaches_open_subscribers default_config
                                 (Sample.item "n1" 5 0) (Sample.world true) _))
                   "c1" Sample.socket _) _ _ _).
  - reflexivity.
  - reflexivity.
  - exists {| Connection.apiKey := "key-A"; Connection.channels := {["updates"]};
              Connection.connectedAt := 0 |}. split; reflexivity.
  - reflexivity.
  - reflexivity.
Defined.

(** *** Retries *)

Lemma sendAll_detached n : ∀ conns results w,
  World.wsServer w = false →
  sendAll n conns results w
  = if decide (Forall (λ c, excluded (Notification.metadata n) c = true) conns)
    then (Ok results, w)
    else (Throw (mkError PlainError "WebSocket server not initialized"), w).
Proof.
  induction conns as [|c conns IH]; intros results w Hws; cbn [sendAll].
  - by rewrite decide_True.
  - destruct (excluded (Notification.metadata n) c) eqn:Hex.
    + rewrite IH by done.
      destruct (decide (Forall (λ c, excluded (Notification.metadata n) c = true) conns))
        as [HF|HF].
      * by rewrite decide_True by by constructor.
      * rewrite decide_False; [done|]. intros H. by apply Forall_cons in H as [_ H].
    + unfold sendToConnection. rewrite Hws. cbn.
      rewrite decide_False; [done|]. intros H. apply Forall_cons in H as [H _]. congruence.
Qed.

(** X21.  Processing an item asks for a retry in one situation only:
    [setWebSocketServer] was not called, some subscriber of the channel is
    not the excluded connection, and the item has made fewer attempts than
    [retryAttempts]; the item then comes back with one more attempt, and
    the error is logged.  With the server attached, or with no subscriber,
    it runs to its end; with no subscriber the world only gains a log
    line. *)
Theorem retry_only_without_server (cfg : Config) (item : QueueItem.t) (w : World.t) :
  let n := QueueItem.notification item in
  let subscribers :=
    ClientManager.getConnectionsByChannel (World.clientManager w) (Notification.channel n) in
  (World.wsServer w = true → (processNotification cfg item w).1 = None) ∧
  (subscribers = [] →
   processNotification cfg item w
   = (None, World.addLog (LogNoConnections (Notification.id n)) w)) ∧
  (World.wsServer w = false →
   (∃ c, c ∈ subscribers ∧ excluded (Notification.metadata n) c = false) →
   processNotification cfg item w
   = (if QueueItem.attempts item <? retryAttempts cfg
      then Some (withAttempts (QueueItem.attempts item + 1) item) else None,
      World.addLog (LogProcessingError (Notification.id n) (QueueItem.attempts item + 1)
                      "WebSocket server not initialized") w)) ∧
  (World.wsServer w = false →
   (processNotification cfg item w).1 ≠ None →
   (∃ c, c ∈ subscribers ∧ excluded (Notification.metadata n) c = false) ∧
   QueueItem.attempts item < retryAttempts cfg).
Proof.
  intros n subscribers.
  assert (World.wsServer w = false →
          (∃ c, c ∈ subscribers ∧ excluded (Notification.metadata n) c = false) →
          processNotification cfg item w
          = (if QueueItem.attempts item <? retryAttempts cfg
             then Some (withAttempts (QueueItem.attempts item + 1) item) else None,
             World.addLog (LogProcessingError (Notification.id n)
                             (QueueItem.attempts item + 1)
                             "WebSocket server not initialized") w)) as Hfail.
  { intros Hws (c & Hin & Hex). unfold processNotification. fold n. fold subscribers.
    destruct subscribers as [|c0 conns] eqn:Hs; [by apply not_elem_of_nil in Hin|].
    rewrite sendAll_detached by done.
    rewrite decide_False.
    - by destruct (QueueItem.attempts item <? retryAttempts cfg).
    - intros HF. rewrite Forall_forall in HF. specialize (HF c Hin). congruence. }
  split; [|split; [|split]].
  - intros Hws. destruct (processNotification_attached cfg item w Hws) as (? & ? & -> & _).
    done.
  - intros Hnone. unfold processNotification. fold n. fold subscribers. by rewrite Hnone.
  - exact Hfail.
  - intros Hws Hsome.
    destruct (decide (Forall (λ c, excluded (Notification.metadata n) c = true) subscribers))
      as [HF|HF].
    + exfalso. apply Hsome. unfold processNotification. fold n. fold subscribers.
      destruct subscribers as [|c0 conns] eqn:Hs; [done|].
      rewrite sendAll_detached by done. by rewrite decide_True.
    + apply not_Forall_Exists in HF; [|intros c; apply _].
      apply Exists_exists in HF as (c & Hin & Hex).
      assert (excluded (Notification.metadata n) c = false) as Hex'
        by by apply not_true_is_false.
      split; [eauto|].
      rewrite (Hfail Hws (ex_intro _ c (conj Hin Hex'))) in Hsome. cbn in Hsome.
      destruct (QueueItem.attempts item <? retryAttempts cfg) eqn:E; [by apply Z.ltb_lt|done].
Qed.

Lemma retry_only_without_server_witness :
  processNotification default_config (Sample.item "n1" 5 0) (Sample.world false)
  = (Some (withAttempts 1 (Sample.item "n1" 5 0)),
     World.addLog Sample.failure (Sample.world false)).
Proof.
  refine (proj1 (proj2 (proj2 (retry_only_without_server default_config
                                 (Sample.item "n1" 5 0) (Sample.world false)))) _ _).
  - reflexivity.
  - exists "c1". split; [|reflexivity]. vm_compute. left.
Defined.

(** *** The end of the loop *)

Lemma processBatch_attached cfg batch w :
  World.wsServer w = true →
  let w' := processBatch cfg batch w in
  World.wsServer w' = true ∧
  World.notificationQueue w' = World.notificationQueue w ∧
  World.loop w' = match batch with [] => AwaitBatchSleep | _ :: rest => AwaitItem rest end.
Proof.
  intros Hws. unfold processBatch. destruct batch as [|item rest]; [by destruct w|].
  destruct (processNotification_attached cfg item w Hws) as (entry & cs' & -> & _).
  by destruct w.
Qed.

(** Whatever the clock reads, a batch taken from a queue that is not
    empty leaves the queue shorter, and no item is made up. *)
Lemma dequeueBatch_shrinks cfg clock x q :
  0 < batchSize cfg →
  (length (NotificationQueue.dequeueBatch cfg clock None (x :: q)).1
   + length (NotificationQueue.dequeueBatch cfg clock None (x :: q)).2
   ≤ length (x :: q))%nat ∧
  (length (NotificationQueue.dequeueBatch cfg clock None (x :: q)).2 < length (x :: q))%nat.
Proof.
  intros Hbatch. unfold NotificationQueue.dequeueBatch.
  cbn [NotificationQueue.size_or_default].
  destruct (Z.to_nat (Z.min (batchSize cfg) (Z.of_nat (length (x :: q))))) as [|m] eqn:Hm;
    [simpl length in Hm; lia|].
  cbn [NotificationQueue.dequeueLoop].
  destruct (NotificationQueue.dequeue (clock 0%nat) (x :: q)) as [[y|] q1] eqn:E.
  - apply QueueProperties.dequeue_sublist in E. apply sublist_length in E.
    destruct (QueueProperties.dequeueLoop_spec clock m 1%nat ([] ++ [y]) q1)
      as (extra & -> & _ & Hsub).
    apply sublist_length in Hsub. rewrite !length_app in *. simpl length in *. lia.
  - apply QueueProperties.dequeue_None in E as [_ ->].
    rewrite QueueProperties.dequeueLoop_nil. simpl. lia.
Qed.

Lemma resume_progress cfg clock w :
  0 < batchSize cfg →
  World.wsServer w = true → running w →
  World.wsServer (resume cfg clock w) = true ∧
  (drained (resume cfg clock w) ∨
   (running (resume cfg clock w) ∧ (stepsLeft (resume cfg clock w) < stepsLeft w)%nat)).
Proof.
  intros Hbatch Hws Hrun. unfold running in Hrun. unfold resume.
  destruct (World.loop w) as [|rest|item rest| |e] eqn:Hloop; try done.
  - destruct (processBatch_attached cfg rest w Hws) as (Hws' & Hq & Hl).
    split; [done|]. right. unfold running, stepsLeft. rewrite Hl, Hq, Hloop.
    destruct rest; simpl; split; try done; lia.
  - unfold processQueue.
    destruct (World.notificationQueue w) as [|x q] eqn:Hq.
    { cbn. split; [by destruct w|]. left. by destruct w. }
    cbn [NotificationQueue.isEmpty].
    destruct (dequeueBatch_shrinks cfg clock x q Hbatch) as [Hsum Hlt].
    destruct (NotificationQueue.dequeueBatch cfg clock None (x :: q)) as [batch q'].
    cbn [fst snd] in Hsum, Hlt.
    assert (World.wsServer (World.setQueue q' w) = true) as Hws1 by by destruct w.
    destruct (processBatch_attached cfg batch _ Hws1) as (Hws' & Hq' & Hl).
    split; [done|]. right. unfold running, stepsLeft. rewrite Hl, Hq', Hloop, Hq.
    assert (World.notificationQueue (World.setQueue q' w) = q') as -> by by destruct w.
    destruct batch as [|y rest].
    + split; [done|]. simpl length in *. lia.
    + split; [done|]. simpl length in *. lia.
Qed.

(** X22.  With the server attached and a positive batch size, the
    processing loop always comes to its end: resumed often enough after
    each of its sleeps (twice per queued item, once per item left in the
    batch, and twice more), it has emptied the queue, lowered its
    [processing] flag and stopped, whatever the clock reads at the
    resumptions, expired items being dropped on the way. *)
Theorem loop_drains_queue_and_stops (cfg : Config) (clocks : list (nat → Z)) (w : World.t) :
  0 < batchSize cfg →
  World.wsServer w = true →
  running w →
  (stepsLeft w ≤ length clocks)%nat →
  drained (run cfg clocks w).
Proof.
  intros Hbatch. unfold run. revert w.
  induction clocks as [|t clocks IH]; intros w Hws Hrun Hsteps.
  - unfold running in Hrun. unfold stepsLeft in Hsteps.
    destruct (World.loop w); try done; simpl in Hsteps; lia.
  - cbn [foldl].
    destruct (resume_progress cfg t w Hbatch Hws Hrun) as (Hws' & [Hdone|[Hrun' Hlt]]).
    + assert (∀ ts, foldl (λ w clock, resume cfg clock w) (resume cfg t w) ts
                    = resume cfg t w) as ->; [|done].
      induction ts as [|t' ts IHts]; [done|]. cbn [foldl].
      destruct Hdone as (Hidle & _). unfold resume at 2. by rewrite Hidle.
    + apply IH; [done|done|]. simpl in Hsteps. lia.
Qed.

Lemma loop_drains_queue_and_stops_witness :
  drained (run default_config [still 10; still 10; still 20]
             (World.setLoop AwaitBatchSleep
                (World.setProcessing true
                   (World.setQueue [Sample.item "n1" 5 0] (Sample.world true))))).
Proof.
  apply loop_drains_queue_and_stops.
  - reflexivity.
  - reflexivity.
  - exact I.
  - vm_compute. lia.
Defined.

(** *** Submissions *)

Lemma createNotification_valid now uuid channel data priority apiKey excl :
  uuid ≠ EmptyString →
  NotificationQueue.validateNotification
    (createNotification now uuid channel data priority apiKey excl) = Ok ()
  ↔ truthy channel = true ∧ truthy data = true ∧ acceptablePriority priority.
Proof.
  intros Hid. apply RegistryProperties.truthy_JStr in Hid.
  unfold NotificationQueue.validateNotification, acceptablePriority.
  cbn [createNotification Notification.id Notification.channel Notification.data
       Notification.priority].
  rewrite Hid. cbn [negb].
  destruct (truthy channel); cbn [negb]; [|split; [done|by intros (? & _)]].
  destruct (truthy data); cbn [negb]; [|split; [done|by intros (_ & ? & _)]].
  unfold js_or. destruct (truthy priority) eqn:Hp.
  - destruct priority as [| |b|p|s|o]; try done;
      try (split; [done|]; intros (_ & _ & [?|(p' & ? & _)]); done).
    destruct (Z.ltb_spec p 1); cbn [orb].
    { split; [done|]. intros (_ & _ & [?|(p' & [= <-] & ?)]); [done|lia]. }
    destruct (Z.ltb_spec 10 p).
    { split; [done|]. intros (_ & _ & [?|(p' & [= <-] & ?)]); [done|lia]. }
    split; [|done]. intros _. split; [done|]. split; [done|]. right. exists p. split; [done|lia].
  - cbn. split; [|done]. intros _. split; [done|]. split; [done|]. by left.
Qed.






Lemma validateApiKey_string cm apiKey :
  ClientManager.validateApiKey cm apiKey = Ok true → ∃ key, apiKey = JStr key.
Proof.
  unfold ClientManager.validateApiKey.
  destruct apiKey as [| |b|p|s|o]; cbn; try done.
  { by destruct b. } { by destruct (p =? 0). } intros _. by exists s.
Qed.

Lemma validateApiKey_Ok cm apiKey b :
  ClientManager.validateApiKey cm apiKey = Ok b → b = true.
Proof.
  unfold ClientManager.validateApiKey.
  destruct (_ || _); [done|]. destruct (ClientManager.getClient cm apiKey); [|done].
  by intros [= <-].
Qed.




(** X24.  The class of the error tells a caller with a string key why the
    submission was refused, the checks being made in this order:
    [AuthenticationError] (status 401) exactly when the key is not
    accepted; [ValidationError] (400) exactly when the key is accepted and
    the channel, the data or the priority is not; [QueueFullError] (503)
    exactly when all of these are accepted and the queue is full.  No
    other error is thrown. *)
Theorem sendNotification_refusal (cfg : Config) (clock : nat → Z) (uuid : string)
    (channel data priority excludeConnection : JsValue) (key : string) (w : World.t) :
  uuid ≠ EmptyString →
  let r :=
    sendNotification cfg clock uuid channel data priority (JStr key) excludeConnection w in
  let wellFormed :=
    truthy channel = true ∧ is_string channel = true ∧ truthy data = true ∧
    acceptablePriority priority in
  (throws AuthenticationError r.1
   ↔ ClientManager.validateApiKey (World.clientManager w) (JStr key) ≠ Ok true) ∧
  (throws ValidationError r.1
   ↔ ClientManager.validateApiKey (World.clientManager w) (JStr key) = Ok true ∧
     ¬ wellFormed) ∧
  (throws QueueFullError r.1
   ↔ ClientManager.validateApiKey (World.clientManager w) (JStr key) = Ok true ∧
     wellFormed ∧
     maxQueueSize cfg ≤ NotificationQueue.size_of (World.notificationQueue w)) ∧
  ¬ throws PlainError r.1.
Proof.
  intros Huuid r wf. subst r wf. unfold sendNotification.
  pose proof (createNotification_valid (clock 0%nat) uuid channel data priority (JStr key)
                excludeConnection Huuid) as Hvalid.
  destruct (ClientManager.validateApiKey (World.clientManager w) (JStr key)) as [b|e] eqn:Hkey.
  2:{ cbn [fst rethrow throws].
      assert (eclass e = AuthenticationError) as He.
      { revert Hkey. unfold ClientManager.validateApiKey.
        destruct (_ || _); [by intros [= <-]|].
        destruct (ClientManager.getClient _ _); [done|]. by intros [= <-]. }
      rewrite He. repeat split; try done; by intros (? & _). }
  apply validateApiKey_Ok in Hkey as Hb. subst b.
  destruct (truthy channel) eqn:Hch; cbn [negb orb].
  2:{ cbn. split; [done|]. split; [|split; [|done]].
      - split; [|done]. intros _. split; [done|]. by intros (? & _).
      - split; [done|]. by intros (_ & (? & _) & _). }
  destruct (is_string channel) eqn:Hstr; cbn [negb orb].
  2:{ cbn. split; [done|]. split; [|split; [|done]].
      - split; [|done]. intros _. split; [done|]. by intros (_ & ? & _).
      - split; [done|]. by intros (_ & (_ & ? & _) & _). }
  destruct (truthy data) eqn:Hdata; cbn [negb].
  2:{ cbn. split; [done|]. split; [|split; [|done]].
      - split; [|done]. intros _. split; [done|]. by intros (_ & _ & ? & _).
      - split; [done|]. by intros (_ & (_ & _ & ? & _) & _). }
  unfold NotificationQueue.enqueue, NotificationQueue.size_of.
  destruct (NotificationQueue.validateNotification _) as [[]|e] eqn:Hv.
  - destruct Hvalid as [Hvalid _]. destruct (Hvalid eq_refl) as (_ & _ & Hp).
    destruct (Z.leb_spec (maxQueueSize cfg) (Z.of_nat (length (World.notificationQueue w)))).
    + cbn. split; [done|]. split; [|split; [|done]].
      * split; [done|]. intros (_ & Hn). by destruct Hn.
      * done.
    + cbn. split; [done|]. split; [|split; [|tauto]].
      * split; [done|]. intros (_ & Hn). by destruct Hn.
      * split; [done|]. intros (_ & _ & ?). lia.
  - assert (eclass e = ValidationError) as He.
    { revert Hv. unfold NotificationQueue.validateNotification.
      repeat (destruct (negb _); [by intros [= <-]|]).
      destruct (Notification.priority _); try (by intros [= <-]); try done.
      destruct (_ || _); [by intros [= <-]|done]. }
    cbn. rewrite He. split; [done|]. split; [|split; [|done]].
    + split; [|done]. intros _. split; [done|]. intros (_ & _ & _ & Hp).
      destruct Hvalid as [_ Hvalid]. by discriminate Hvalid.
    + split; [done|]. intros (_ & (_ & _ & _ & Hp) & _). destruct Hvalid as [_ Hvalid].
      by discriminate Hvalid.
Qed.

Lemma sendNotification_refusal_witness :
  throws QueueFullError
    (sendNotification (mkConfig 1 3 1000 10 86400000 5 30000) (still 0) "n2"
       (JStr "updates") (JObj "{title:x}") JUndefined (JStr "key-A") JNull
       (World.setQueue [Sample.item "n1" 5 0] (Sample.world true))).1.
Proof.
  refine (proj2 (proj1 (proj2 (proj2 (sendNotification_refusal
                                        (mkConfig 1 3 1000 10 86400000 5 30000) (still 0)
                                        "n2"
                                        (JStr "updates") (JObj "{title:x}") JUndefined JNull
                                        "key-A"
                                        (World.setQueue [Sample.item "n1" 5 0]
                                           (Sample.world true)) _)))) _).
  - discriminate.
  - split; [reflexivity|]. split.
    + repeat split. by left.
    + vm_compute. discriminate.
Defined.

(** *** From submission to delivery *)

Lemma subscribedTo_updateNotificationStats now apiKey cm channel c :
  subscribedTo (ClientManager.updateNotificationStats now apiKey cm) channel c
  ↔ subscribedTo cm channel c.
Proof.
  unfold subscribedTo, ClientManager.updateNotificationStats.
  by destruct (ClientManager.getClient cm apiKey) as [[key client]|].
Qed.

Lemma dequeueBatch_one cfg clock item :
  0 < batchSize cfg →
  NotificationQueue.dequeueBatch cfg clock None [item]
  = if decide (NotificationQueue.unexpired (clock 0%nat) item) then ([item], [])
    else ([], []).
Proof.
  intros Hb. unfold NotificationQueue.dequeueBatch.
  cbn [NotificationQueue.size_or_default length].
  replace (Z.to_nat (Z.min (batchSize cfg) (Z.of_nat 1))) with 1%nat by lia.
  cbn [NotificationQueue.dequeueLoop]. unfold NotificationQueue.dequeue,
    NotificationQueue.dropExpired.
  destruct (decide (NotificationQueue.unexpired (clock 0%nat) item)) as [Hun|Hun].
  - rewrite filter_cons_True by done. by rewrite filter_nil.
  - rewrite filter_cons_False by done. by rewrite filter_nil.
Qed.

(** X25.  A submission accepted while the engine is idle, the queue
    empty, the server attached and the batch size positive.  When the
    loop the call starts reads the clock, in its first [dequeue], before
    the expiry time [enqueue] computed from its second reading (a safe
    integer), the notification is delivered before [sendNotification]
    returns: the response reports an empty queue, and every open socket
    that is subscribed to the channel and is not the excluded connection
    has been sent the notification, once, the other sockets nothing; the
    loop is then waiting after the item.  When the clock has reached the
    expiry time by then, the item is dropped and no socket is sent
    anything.  In both cases the queue is empty again, and two
    resumptions later the loop has stopped. *)
Theorem accepted_submission_is_delivered (cfg : Config) (clock : nat → Z) (uuid : string)
    (channel data priority apiKey excludeConnection : JsValue) (w : World.t) :
  uuid ≠ EmptyString → 0 < batchSize cfg →
  safeInteger (clock 2%nat + messageExpiry cfg) →
  World.wsServer w = true → World.processing w = false → World.notificationQueue w = [] →
  acceptable cfg channel data priority apiKey w →
  let n :=
    createNotification (clock 0%nat) uuid channel data priority apiKey excludeConnection in
  let r := sendNotification cfg clock uuid channel data priority apiKey excludeConnection w in
  r.1 = Ok (mkResponse (JStr uuid) 0) ∧
  World.notificationQueue r.2 = [] ∧
  (clock 4%nat < clock 2%nat + messageExpiry cfg →
   (∀ c ws, World.clients w !! c = Some ws →
      (subscribedTo (World.clientManager w) channel c →
       excluded (Notification.metadata n) c = false →
       Socket.readyState ws = OPEN →
       World.clients r.2 !! c = Some (Socket.send (frameOf n) ws)) ∧
      (¬ (subscribedTo (World.clientManager w) channel c ∧
          excluded (Notification.metadata n) c = false ∧
          Socket.readyState ws = OPEN) →
       World.clients r.2 !! c = Some ws)) ∧
   World.loop r.2 = AwaitItem []) ∧
  (clock 2%nat + messageExpiry cfg ≤ clock 4%nat →
   World.clients r.2 = World.clients w ∧ World.loop r.2 = AwaitBatchSleep) ∧
  ∀ clock1 clock2, drained (run cfg [clock1; clock2] r.2).
Proof.
  intros Huuid Hbatch _ Hws Hproc Hq Hacc n r.
  destruct Hacc as (Hkey & Hch & Hstr & Hdata & Hp & Hroom).
  assert (NotificationQueue.validateNotification n = Ok ()) as Hvalid.
  { by apply createNotification_valid. }
  set (item := {| QueueItem.id := Notification.id n;
                  QueueItem.notification := n;
                  QueueItem.priority :=
                    NotificationQueue.priority_or_default (Notification.priority n);
                  QueueItem.enqueuedAt := clock 1%nat;
                  QueueItem.expiresAt := clock 2%nat + messageExpiry cfg;
                  QueueItem.attempts := 0 |}).
  set (w2 := World.setProcessing true
               (World.setClientManager
                  (ClientManager.updateNotificationStats (clock 3%nat) apiKey
                     (World.clientManager w))
                  (World.setQueue [] w))).
  destruct (processNotification_attached cfg item w2 Hws) as (entry & cs' & Hpn & Hcs).
  set (w3 := World.setLoop (AwaitItem []) (World.addLog entry (World.setClients cs' w2))).
  assert (r = (Ok (mkResponse (JStr uuid) 0),
               if decide (clock 4%nat < clock 2%nat + messageExpiry cfg) then w3
               else World.setLoop AwaitBatchSleep w2)) as Hr.
  { unfold r, sendNotification. rewrite Hkey, Hch, Hstr, Hdata. cbn [negb orb].
    fold n. unfold NotificationQueue.enqueue. rewrite Hvalid, Hq.
    unfold NotificationQueue.size_of in Hroom. rewrite Hq in Hroom. cbn [length] in *.
    destruct (Z.leb_spec (maxQueueSize cfg) (Z.of_nat 0)) as [?|_]; [lia|].
    fold item. cbn [app NotificationQueue.sortQueue foldr NotificationQueue.insert_sorted].
    unfold startProcessing, processQueue.
    unfold World.setClientManager, World.setQueue, World.setProcessing.
    cbn [World.processing World.clientManager World.notificationQueue World.clients
         World.wsServer World.loop World.log NotificationQueue.isEmpty].
    rewrite Hproc.
    rewrite dequeueBatch_one by done.
    unfold NotificationQueue.unexpired. cbn [Nat.add item QueueItem.expiresAt].
    unfold processBatch.
    unfold w3, w2, World.setProcessing, World.setClientManager, World.setQueue in *.
    cbn [World.clientManager World.notificationQueue World.clients World.wsServer
         World.processing World.loop World.log] in *.
    destruct (decide (clock 4%nat < clock 2%nat + messageExpiry cfg)) as [Hlive|Hdead].
    - rewrite Hpn. by destruct w.
    - done. }
  rewrite Hr. cbn [fst snd]. split; [done|]. split.
  { destruct (decide _); by destruct w. }
  split; [|split].
  - intros Hlive. rewrite decide_True by done. split; [|done].
    intros c ws Hc.
    assert (World.clients w3 !! c
            = if decide (reached n
                           (ClientManager.getConnectionsByChannel
                              (World.clientManager w2) (Notification.channel n)) c ws)
              then Some (Socket.send (frameOf n) ws) else Some ws) as ->.
    { unfold w3. cbn. rewrite Hcs. unfold w2. cbn. by rewrite Hc. }
    assert (∀ c, subscribedTo (World.clientManager w2) channel c
                 ↔ subscribedTo (World.clientManager w) channel c) as Hsub.
    { intros c'. unfold w2. cbn. apply subscribedTo_updateNotificationStats. }
    split.
    + intros Hs Hx Ho. rewrite decide_True; [done|].
      apply reached_subscribedTo. split; [by apply Hsub|done].
    + intros Hnot. rewrite decide_False; [done|].
      intros (Hs & Hx & Ho)%reached_subscribedTo. apply Hnot. split; [by apply Hsub|done].
  - intros Hdead. rewrite decide_False by lia. by destruct w.
  - intros clock1 clock2. unfold run, w3, w2. cbn [foldl].
    destruct (decide _); by destruct w.
Qed.

Lemma accepted_submission_is_delivered_witness :
  World.loop
    (sendNotification default_config (λ i, Z.of_nat i) "n1" (JStr "updates")
       (JObj "{title:x}") JUndefined (JStr "key-A") JNull (Sample.world true)).2
  = AwaitItem [].
Proof.
  refine (proj2 (proj1 (proj2 (proj2
            (accepted_submission_is_delivered default_config (λ i, Z.of_nat i) "n1"
               (JStr "updates") (JObj "{title:x}") JUndefined (JStr "key-A") JNull
               (Sample.world true) _ _ _ _ _ _ _))) _)).
  - discriminate.
  - reflexivity.
  - vm_compute. discriminate.
  - reflexivity.
  - reflexivity.
  - reflexivity.
  - repeat split. by left.
  - reflexivity.
Defined.

End EngineExtras.
